(** * ai-agent-playground: the simulation core, embedded and verified

    A shallow embedding of the simulation substrate of the repository
    (core/agent.py, core/events.py, core/engine.py, environment/spatial.py,
    environment/physics.py, environment/world.py) and the properties of it
    that the specification states.

    Conventions of the embedding.
    - Python floats are exact rationals ([Q]); rounding, infinities and NaN
      are outside the model: an agent whose [update] leaves a coordinate
      that is not finite, which makes the next refresh of the grid raise,
      is not among the agents described.  [int(.)] truncates toward zero,
      [math.ceil] is [Qceiling].  The one place where rounding decides the
      outcome, the radius query, is embedded a second time over binary64
      ([Float64], at the end of the model).
    - [math.sqrt]/[** 0.5], [math.cos] and [math.sin] are parameters of the
      development ([Section] variables).  Where the code only compares a
      distance with a bound, the comparison is made on the squares, which is
      what it means in exact arithmetic; where the root itself is used
      (collision normal, reported distances) the parameter is applied.
    - Agent objects live in one shared store, [objects], keyed by
      [agent_id] (the identity of an agent); the registry of the engine, the
      registry of the world and the handler lists of the event manager hold
      keys into that store, so that a mutation made through one of them is
      seen through the others, as with Python references.  A Python
      [Dict[str, Agent]] is the list of its keys in insertion order.
    - The [Force] objects of the physics engine are held by value in
      [PhysicsEngine]; [ForceStore] holds them by address, as the code
      does, for what depends on one [Force] object sitting in two lists.
    - An exception is one of three kinds, the ones the handlers of the code
      tell apart ([Exc]).
    - The state of the global [random] module is the oracle [rng]; nothing
      in the code seeds it.
    - Wall-clock time stamps, uuids, logging and the metrics collector are
      left out.  [calls] is a ghost log of method entries, used to state
      claims about the order of calls. *)

From Stdlib Require Import QArith Qround Qminmax Qabs ZArith Lia Lqa String List.
From Stdlib Require PrimFloat FloatOps SpecFloat.
From stdpp Require Import base gmap sets list strings numbers.

Set Warnings "-abstract-large-number,-clear-no-such-hyp".

Local Open Scope Z_scope.

(** ** Numbers *)

Definition Qltb (a b : Q) : bool := negb (Qle_bool b a).
Definition Qleb (a b : Q) : bool := Qle_bool a b.
Definition Qeqb (a b : Q) : bool := Qeq_bool a b.

(** Python's [int(q)]: truncation toward zero. *)
Definition int (q : Q) : Z := if Qltb q 0 then Qceiling q else Qfloor q.

(** Python's [range(lo, hi)]. *)
Definition range (lo hi : Z) : list Z := seqZ lo (hi - lo).

(** A square root that is exact on the squares of rationals; the
    instance of the [sqrt] parameter used to run the model on examples. *)
Definition Qsqrt (q : Q) : Q := Z.sqrt (Qnum q * QDen q) # Qden q.

(** Polynomial stand-ins for [math.cos] and [math.sin], exact at 0; the
    instances of the trigonometric parameters used on examples. *)
Definition Qcos (a : Q) : Q := (1 - a * a / 2 + a * a * a * a / 24)%Q.
Definition Qsin (a : Q) : Q := (a - a * a * a / 6)%Q.

(** ** core/agent.py: Position *)

Module Position.
Record t := mk { x : Q; y : Q }.

Definition dist2 (self other : t) : Q :=
  ((x self - x other) * (x self - x other)
   + (y self - y other) * (y self - y other))%Q.

Section Root.
Variable sqrt : Q -> Q.
(** [((self.x - other.x) ** 2 + (self.y - other.y) ** 2) ** 0.5] *)
Definition distance_to (self other : t) : Q := sqrt (dist2 self other).
End Root.

(** [self.distance_to(other) <= r], in exact arithmetic. *)
Definition distance_le (self other : t) (r : Q) : bool :=
  Qleb 0 r && Qleb (dist2 self other) (r * r).

(** [self.distance_to(other) < r], in exact arithmetic. *)
Definition distance_lt (self other : t) (r : Q) : bool :=
  Qltb 0 r && Qltb (dist2 self other) (r * r).
End Position.

(** ** core/events.py: EventType and Event *)

Inductive EventType :=
| AGENT_SPAWN | AGENT_DEATH | AGENT_MOVE | AGENT_INTERACT
| ENVIRONMENT_CHANGE | COLLISION | CUSTOM.

#[global] Instance EventType_eq_dec : EqDecision EventType.
Proof. solve_decision. Defined.

Definition EventType_code (t : EventType) : nat :=
  match t with
  | AGENT_SPAWN => 0 | AGENT_DEATH => 1 | AGENT_MOVE => 2
  | AGENT_INTERACT => 3 | ENVIRONMENT_CHANGE => 4 | COLLISION => 5
  | CUSTOM => 6
  end%nat.

Definition EventType_of_code (n : nat) : option EventType :=
  match n with
  | 0 => Some AGENT_SPAWN | 1 => Some AGENT_DEATH | 2 => Some AGENT_MOVE
  | 3 => Some AGENT_INTERACT | 4 => Some ENVIRONMENT_CHANGE
  | 5 => Some COLLISION | 6 => Some CUSTOM | _ => None
  end%nat.

#[global] Program Instance EventType_countable : Countable EventType :=
  inj_countable EventType_code EventType_of_code _.
Next Obligation. by intros []. Qed.

(** The [data] dictionary of an event, by the shapes the core builds. *)
Inductive EventData :=
| DataEmpty
| DataSpawn (position : Position.t)
| DataDeath (final_position : Position.t)
| DataBoundary (position : Position.t)
| DataAgentCollision (distance : Q) (position1 position2 : Position.t).

Module Event.
Record t := mk {
  event_type : EventType;
  source_id : string;
  target_id : option string;
  data : EventData
}.
End Event.

(** ** core/agent.py: AgentState and Agent *)

(** An entry of [Agent.memory]. *)
Inductive MemoryItem :=
| MemEvent (event_type : EventType) (source : string) (data : EventData)
| MemNote (kind : string).

Module AgentState.
Record t := mk {
  position : Position.t;
  velocity : Q * Q;
  energy : Q;
  health : Q;
  age : Z;
  active : bool;
  last_action : option string
}.

Definition set_position (p : Position.t) (s : t) : t :=
  mk p (velocity s) (energy s) (health s) (age s) (active s) (last_action s).
Definition set_velocity (v : Q * Q) (s : t) : t :=
  mk (position s) v (energy s) (health s) (age s) (active s) (last_action s).
Definition set_energy (e : Q) (s : t) : t :=
  mk (position s) (velocity s) e (health s) (age s) (active s) (last_action s).
Definition set_health (h : Q) (s : t) : t :=
  mk (position s) (velocity s) (energy s) h (age s) (active s) (last_action s).
Definition set_age (a : Z) (s : t) : t :=
  mk (position s) (velocity s) (energy s) (health s) a (active s) (last_action s).
Definition set_last_action (l : option string) (s : t) : t :=
  mk (position s) (velocity s) (energy s) (health s) (age s) (active s) l.
End AgentState.

(** An entry of [observations["nearby_agents"]]. *)
Record NearbyAgent := {
  nearby_id : string;
  nearby_position : Position.t;
  nearby_distance : Q
}.

(** The dictionary built by [Agent.sense]. *)
Record Observations := {
  obs_position : Position.t;
  obs_energy : Q;
  obs_health : Q;
  obs_age : Z;
  obs_nearby_agents : list NearbyAgent
}.

(** The exceptions, by what catches them: [except Exception] (around
    [agent.update] in [step]) catches an [Exception]; [except
    KeyboardInterrupt] (around the loop of [run]) catches that one;
    [SystemExit] stands for the other exceptions that derive from
    [BaseException] only, which no handler of the code catches. *)
Inductive Exc := Exception | KeyboardInterrupt | SystemExit.

(** The result of a call that may raise; the value is the state the call
    leaves behind in either case. *)
Inductive Outcome (A : Type) :=
| Returns (a : A)
| Raises (x : Exc) (a : A).
Arguments Returns {A} a.
Arguments Raises {A} x a.

Module Agent.
(** What a concrete subclass supplies: the abstract [update] (which runs
    [decide_action] and acts on the agent's own state and memory) and,
    when it overrides it, [sense]: [Some f] post-processes the inherited
    observations, [f obs = inl x] standing for raising [x]. *)
Record Behaviour := {
  update : Q -> Observations ->
           AgentState.t * list MemoryItem ->
           Outcome (AgentState.t * list MemoryItem);
  sense_override : option (Observations -> Exc + Observations)
}.

Record t := mk {
  agent_id : string;
  state : AgentState.t;
  memory : list MemoryItem;
  behaviour : Behaviour
}.

Definition set_state (s : AgentState.t) (a : t) : t :=
  mk (agent_id a) s (memory a) (behaviour a).
Definition set_memory (m : list MemoryItem) (a : t) : t :=
  mk (agent_id a) (state a) m (behaviour a).

Definition position (a : t) : Position.t := AgentState.position (state a).

Definition move (self : t) (dx dy : Q) : t :=
  let s := state self in
  let p := AgentState.position s in
  set_state
    (AgentState.set_last_action (Some "move"%string)
       (AgentState.set_velocity (dx, dy)
          (AgentState.set_position
             (Position.mk (Position.x p + dx) (Position.y p + dy)) s)))
    self.

Definition consume_energy (self : t) (amount : Q) : t :=
  let s := state self in
  set_state (AgentState.set_energy (Qmax 0 (AgentState.energy s - amount)) s) self.

Definition max_memory : nat := 1000.

(** [self.memory[-max_memory:]] *)
Definition last_n {A} (n : nat) (l : list A) : list A :=
  drop (length l - n) l.

(** [l[-n:]] for any [n >= 0]: the last [n] items, but the whole list when
    [n] is 0, [-0] being 0. *)
Definition slice_from_end {A} (n : nat) (l : list A) : list A :=
  match n with
  | O => l
  | S _ => last_n n l
  end.

Definition add_memory (self : t) (item : MemoryItem) : t :=
  let m := (memory self ++ [item])%list in
  set_memory (if (max_memory <? length m)%nat then last_n max_memory m else m) self.

Definition handle_event (self : t) (event : Event.t) : t :=
  match Event.target_id event with
  | Some tid =>
      if String.eqb tid (agent_id self)
      then add_memory self
             (MemEvent (Event.event_type event) (Event.source_id event) (Event.data event))
      else self
  | None =>
      add_memory self
        (MemEvent (Event.event_type event) (Event.source_id event) (Event.data event))
  end.

Definition is_alive (self : t) : bool :=
  AgentState.active (state self)
  && Qltb 0 (AgentState.health (state self))
  && Qltb 0 (AgentState.energy (state self)).
End Agent.

(** ** The interpreter state outside the simulator's own objects *)

(** The global [random] module: an oracle of the values [random.random()]
    returns, in [0, 1), and how many of them were consumed. *)
Module Rng.
Record t := mk { draws : nat -> Q; cursor : nat }.

Definition random (g : t) : Q * t := (draws g (cursor g), mk (draws g) (S (cursor g))).

(** [random.uniform(a, b)] is [a + (b - a) * random()]. *)
Definition uniform (a b : Q) (g : t) : Q * t :=
  let '(u, g') := random g in ((a + (b - a) * u)%Q, g').
End Rng.

(** Ghost log of method entries. *)
Inductive Call :=
| CallCallback (phase : string) (index : nat)
| CallWorldUpdatePhysics
| CallWorldUpdate
| CallUpdateEnvironment
| CallPhysicsUpdate
| CallSense (agent_id : string)
| CallAgentUpdate (agent_id : string)
| CaughtAgentError (agent_id : string)
| CallRemoveAgent (agent_id : string)
| CallHandleEvent (agent_id : string) (event : Event.t).

Module Runtime.
Record t := mk {
  objects : gmap string Agent.t;
  rng : Rng.t;
  calls : list Call
}.

Definition set_objects (o : gmap string Agent.t) (rt : t) : t := mk o (rng rt) (calls rt).
Definition set_rng (g : Rng.t) (rt : t) : t := mk (objects rt) g (calls rt).
Definition log (c : Call) (rt : t) : t := mk (objects rt) (rng rt) (calls rt ++ [c]).

(** In-place mutation of the object [id]. *)
Definition modify (id : string) (f : Agent.t -> Agent.t) (rt : t) : t :=
  match objects rt !! id with
  | Some a => set_objects (<[id := f a]> (objects rt)) rt
  | None => rt
  end.
End Runtime.

(** A [Dict[str, Agent]] as its keys in insertion order. *)
Definition dict_set (id : string) (keys : list string) : list string :=
  if bool_decide (id ∈ keys) then keys else keys ++ [id].
Definition dict_del (id : string) (keys : list string) : list string :=
  filter (λ k, k ≠ id) keys.

(** ** environment/spatial.py *)

Module SpatialGrid.
Record t := mk {
  width : Q;
  height : Q;
  cell_size : Q;
  cols : Z;
  rows : Z;
  grid : gmap (Z * Z) (gset string);
  agent_positions : gmap string (Z * Z)
}.

Definition set_index (g : gmap (Z * Z) (gset string)) (p : gmap string (Z * Z)) (self : t) : t :=
  mk (width self) (height self) (cell_size self) (cols self) (rows self) g p.

Definition __init__ (width height cell_size : Q) : t :=
  mk width height cell_size
     (Z.max 1 (Qceiling (width / cell_size)))
     (Z.max 1 (Qceiling (height / cell_size)))
     ∅ ∅.

(** [self.grid[c]] read without creating the entry, and
    [self.grid.get(c, set())]. *)
Definition cell (g : gmap (Z * Z) (gset string)) (c : Z * Z) : gset string :=
  default ∅ (g !! c).

Definition _get_cell_coords (self : t) (position : Position.t) : Z * Z :=
  let col := Z.max 0 (Z.min (cols self - 1) (int (Position.x position / cell_size self))) in
  let row := Z.max 0 (Z.min (rows self - 1) (int (Position.y position / cell_size self))) in
  (col, row).

Definition add_agent (self : t) (agent : Agent.t) : t :=
  let cell_coords := _get_cell_coords self (Agent.position agent) in
  set_index
    (<[cell_coords := cell (grid self) cell_coords ∪ {[Agent.agent_id agent]}]> (grid self))
    (<[Agent.agent_id agent := cell_coords]> (agent_positions self))
    self.

Definition remove_agent (self : t) (agent_id : string) : t :=
  match agent_positions self !! agent_id with
  | Some old_coords =>
      set_index
        (<[old_coords := cell (grid self) old_coords ∖ {[agent_id]}]> (grid self))
        (delete agent_id (agent_positions self))
        self
  | None => self
  end.

Definition update_agent (self : t) (agent : Agent.t) : t :=
  let new_coords := _get_cell_coords self (Agent.position agent) in
  match agent_positions self !! Agent.agent_id agent with
  | Some old_coords =>
      if bool_decide (old_coords ≠ new_coords) then
        let g1 := <[old_coords := cell (grid self) old_coords ∖ {[Agent.agent_id agent]}]> (grid self) in
        let g2 := <[new_coords := cell g1 new_coords ∪ {[Agent.agent_id agent]}]> g1 in
        set_index g2 (<[Agent.agent_id agent := new_coords]> (agent_positions self)) self
      else self
  | None => add_agent self agent
  end.

Definition get_nearby_agents (self : t) (position : Position.t) (radius : Q)
    (exclude_id : option string) : list string :=
  let cell_radius := Qceiling (radius / cell_size self) in
  let '(center_col, center_row) := _get_cell_coords self position in
  let nearby_agents :=
    flat_map (λ row,
      flat_map (λ col, elements (cell (grid self) (col, row)))
        (range (Z.max 0 (center_col - cell_radius))
               (Z.min (cols self) (center_col + cell_radius + 1))))
      (range (Z.max 0 (center_row - cell_radius))
             (Z.min (rows self) (center_row + cell_radius + 1))) in
  filter (λ agent_id, Some agent_id ≠ exclude_id) nearby_agents.


(** [list(set(agents))]: duplicates removed, in the order of the set. *)
Definition get_agents_in_region (self : t) (min_x min_y max_x max_y : Q) : list string :=
  let min_col := Z.max 0 (int (min_x / cell_size self)) in
  let max_col := Z.min (cols self - 1) (int (max_x / cell_size self)) in
  let min_row := Z.max 0 (int (min_y / cell_size self)) in
  let max_row := Z.min (rows self - 1) (int (max_y / cell_size self)) in
  let agents :=
    flat_map (λ row,
      flat_map (λ col, elements (cell (grid self) (col, row)))
        (range min_col (max_col + 1)))
      (range min_row (max_row + 1)) in
  elements (list_to_set agents : gset string).

(** The counts of [get_stats]: [total_agents], [occupied_cells] and
    [total_cells]. *)
Definition get_stats (self : t) : nat * nat * Z :=
  let cells := map snd (map_to_list (grid self)) in
  (sum_list (map size cells),
   length (filter (λ agents, agents ≠ ∅) cells),
   cols self * rows self).

Definition clear (self : t) : t := set_index ∅ ∅ self.
End SpatialGrid.

(** ** environment/physics.py *)

Module Force.
Record t := mk { fx : Q; fy : Q; duration : Q }.
End Force.

Module PhysicsEngine.
Record t := mk {
  world_width : Q;
  world_height : Q;
  friction : Q;
  bounce_damping : Q;
  collision_radius : Q;
  agent_forces : gmap string (list Force.t);
  gravity : Q * Q;
  wind : Q * Q
}.

Definition set_agent_forces (f : gmap string (list Force.t)) (self : t) : t :=
  mk (world_width self) (world_height self) (friction self) (bounce_damping self)
     (collision_radius self) f (gravity self) (wind self).

Definition __init__ (world_width world_height : Q) : t :=
  mk world_width world_height (95 # 100) (7 # 10) 2 ∅ (0, 0)%Q (0, 0)%Q.

Definition apply_force (self : t) (agent_id : string) (force : Force.t) : t :=
  set_agent_forces
    (<[agent_id := default [] (agent_forces self !! agent_id) ++ [force]]> (agent_forces self))
    self.

Definition set_gravity (self : t) (gx gy : Q) : t :=
  mk (world_width self) (world_height self) (friction self) (bounce_damping self)
     (collision_radius self) (agent_forces self) (gx, gy) (wind self).

Definition set_wind (self : t) (wx wy : Q) : t :=
  mk (world_width self) (world_height self) (friction self) (bounce_damping self)
     (collision_radius self) (agent_forces self) (gravity self) (wx, wy).

Definition _calculate_total_forces (self : t) (agent_id : string) : Q * Q :=
  let total_fx := (fst (gravity self) + fst (wind self))%Q in
  let total_fy := (snd (gravity self) + snd (wind self))%Q in
  match agent_forces self !! agent_id with
  | Some forces =>
      fold_left (λ '(tx, ty) force, (tx + Force.fx force, ty + Force.fy force)%Q)
                forces (total_fx, total_fy)
  | None => (total_fx, total_fy)
  end.

Definition boundary_event (agent : Agent.t) (new_x new_y : Q) : Event.t :=
  Event.mk COLLISION (Agent.agent_id agent) None (DataBoundary (Position.mk new_x new_y)).

(** Clamps the candidate position, reflects the velocity stored in the
    agent's state, writes both to the agent. *)
Definition _handle_boundaries (self : t) (agent : Agent.t) (new_x new_y : Q)
    : Agent.t * option Event.t :=
  let '(vx, vy) := AgentState.velocity (Agent.state agent) in
  let '(new_x, vx, collision) :=
    if Qltb new_x 0 then (0%Q, (- vx * bounce_damping self)%Q, true)
    else if Qltb (world_width self) new_x
         then (world_width self, (- vx * bounce_damping self)%Q, true)
         else (new_x, vx, false) in
  let '(new_y, vy, collision) :=
    if Qltb new_y 0 then (0%Q, (- vy * bounce_damping self)%Q, true)
    else if Qltb (world_height self) new_y
         then (world_height self, (- vy * bounce_damping self)%Q, true)
         else (new_y, vy, collision) in
  let agent' :=
    Agent.set_state
      (AgentState.set_velocity (vx, vy)
         (AgentState.set_position (Position.mk new_x new_y) (Agent.state agent)))
      agent in
  (agent', if collision then Some (boundary_event agent' new_x new_y) else None).

Definition _cleanup_forces (self : t) (agent_id : string) : t :=
  match agent_forces self !! agent_id with
  | None => self
  | Some forces =>
      let decremented :=
        map (λ force, Force.mk (Force.fx force) (Force.fy force) (Force.duration force - 1)%Q)
            forces in
      let active_forces := filter (λ force, Qltb 0 (Force.duration force) = true) decremented in
      set_agent_forces (<[agent_id := active_forces]> (agent_forces self)) self
  end.

(** The body of the loop of [update] for one agent. *)
Definition integrate_agent (self : t) (dt : Q) (agent_id : string) (agent : Agent.t)
    : t * Agent.t * option Event.t :=
  let '(total_fx, total_fy) := _calculate_total_forces self agent_id in
  let '(vx, vy) := AgentState.velocity (Agent.state agent) in
  let vx := (vx + total_fx * dt)%Q in
  let vy := (vy + total_fy * dt)%Q in
  let vx := (vx * friction self)%Q in
  let vy := (vy * friction self)%Q in
  let new_x := (Position.x (Agent.position agent) + vx * dt)%Q in
  let new_y := (Position.y (Agent.position agent) + vy * dt)%Q in
  let '(agent, collision_event) := _handle_boundaries self agent new_x new_y in
  let '(vx, vy) :=
    match collision_event with
    | Some _ => AgentState.velocity (Agent.state agent)
    | None => (vx, vy)
    end in
  let agent := Agent.set_state (AgentState.set_velocity (vx, vy) (Agent.state agent)) agent in
  (_cleanup_forces self agent_id, agent, collision_event).

Definition integrate_all (dt : Q) (agents : list string) (self : t) (rt : Runtime.t)
    : t * Runtime.t * list Event.t :=
  fold_left
    (λ '(self, rt, events) agent_id,
       match Runtime.objects rt !! agent_id with
       | Some agent =>
           let '(self, agent, collision_event) := integrate_agent self dt agent_id agent in
           (self,
            Runtime.set_objects (<[agent_id := agent]> (Runtime.objects rt)) rt,
            events ++ option_list collision_event)
       | None => (self, rt, events)
       end)
    agents (self, rt, []).

Section Root.
Variable sqrt : Q -> Q.

Definition _resolve_collision (self : t) (agent1 agent2 : Agent.t) : Agent.t * Agent.t :=
  let s1 := Agent.state agent1 in
  let s2 := Agent.state agent2 in
  let p1 := AgentState.position s1 in
  let p2 := AgentState.position s2 in
  let dx := (Position.x p2 - Position.x p1)%Q in
  let dy := (Position.y p2 - Position.y p1)%Q in
  let distance := sqrt (dx * dx + dy * dy)%Q in
  if Qeqb distance 0 then (agent1, agent2)
  else
    let nx := (dx / distance)%Q in
    let ny := (dy / distance)%Q in
    let overlap := (collision_radius self * 2 - distance)%Q in
    let separation := (overlap / 2)%Q in
    let p1' := Position.mk (Position.x p1 - nx * separation) (Position.y p1 - ny * separation) in
    let p2' := Position.mk (Position.x p2 + nx * separation) (Position.y p2 + ny * separation) in
    let '(v1x, v1y) := AgentState.velocity s1 in
    let '(v2x, v2y) := AgentState.velocity s2 in
    let v1n := (v1x * nx + v1y * ny)%Q in
    let v2n := (v2x * nx + v2y * ny)%Q in
    let new_v1n := (v2n * bounce_damping self)%Q in
    let new_v2n := (v1n * bounce_damping self)%Q in
    let v1' := (v1x + (new_v1n - v1n) * nx, v1y + (new_v1n - v1n) * ny)%Q in
    let v2' := (v2x + (new_v2n - v2n) * nx, v2y + (new_v2n - v2n) * ny)%Q in
    let impact_force := Qabs (v1n - v2n) in
    let damage := Qmin 1 (impact_force * (1 # 10)) in
    let s1' :=
      AgentState.set_health (Qmax 0 (AgentState.health s1 - damage))
        (AgentState.set_velocity v1' (AgentState.set_position p1' s1)) in
    let s2' :=
      AgentState.set_health (Qmax 0 (AgentState.health s2 - damage))
        (AgentState.set_velocity v2' (AgentState.set_position p2' s2)) in
    (Agent.set_state s1' agent1, Agent.set_state s2' agent2).

(** One iteration of the inner loop of [_check_agent_collisions]: the
    two objects are read from the store as the earlier iterations left
    them. *)
Definition check_pair (self : t) (id1 : string) (acc : Runtime.t * list Event.t) (id2 : string)
    : Runtime.t * list Event.t :=
  let '(rt, events) := acc in
  match Runtime.objects rt !! id1, Runtime.objects rt !! id2 with
  | Some agent1, Some agent2 =>
      let distance := Position.distance_to sqrt (Agent.position agent1) (Agent.position agent2) in
      if Position.distance_lt (Agent.position agent1) (Agent.position agent2)
           (collision_radius self * 2)
      then
        let '(agent1', agent2') := _resolve_collision self agent1 agent2 in
        let rt := Runtime.set_objects (<[id1 := agent1']> (Runtime.objects rt)) rt in
        let rt := Runtime.set_objects (<[id2 := agent2']> (Runtime.objects rt)) rt in
        (rt,
         events ++ [Event.mk COLLISION id1 (Some id2)
                      (DataAgentCollision distance (Agent.position agent1') (Agent.position agent2'))])
      else (rt, events)
  | _, _ => (rt, events)
  end.

Fixpoint _check_agent_collisions (self : t) (agent_list : list string)
    (acc : Runtime.t * list Event.t) : Runtime.t * list Event.t :=
  match agent_list with
  | [] => acc
  | agent1 :: rest =>
      _check_agent_collisions self rest (fold_left (check_pair self agent1) rest acc)
  end.

Definition update (self : t) (agents : list string) (rt : Runtime.t) (dt : Q)
    : t * Runtime.t * list Event.t :=
  let rt := Runtime.log CallPhysicsUpdate rt in
  let '(self, rt, events) := integrate_all dt agents self rt in
  let '(rt, collision_events) := _check_agent_collisions self agents (rt, []) in
  (self, rt, events ++ collision_events).

(** The body of the loop of [add_explosion] for one agent. *)
Definition explode_agent (center : Position.t) (radius strength : Q) (self : t)
    (agent : Agent.t) : t :=
  let distance := Position.distance_to sqrt center (Agent.position agent) in
  if Position.distance_lt center (Agent.position agent) radius
     && Qltb 0 (Position.dist2 center (Agent.position agent))
  then
    let force_magnitude := (strength / Qmax 1 (distance * distance))%Q in
    let dx := (Position.x (Agent.position agent) - Position.x center)%Q in
    let dy := (Position.y (Agent.position agent) - Position.y center)%Q in
    let fx := (dx / distance * force_magnitude)%Q in
    let fy := (dy / distance * force_magnitude)%Q in
    apply_force self (Agent.agent_id agent) (Force.mk fx fy 5)
  else self.

Definition add_explosion (self : t) (center : Position.t) (radius strength : Q)
    (agents : list string) (rt : Runtime.t) : t :=
  fold_left
    (λ self agent_id,
       match Runtime.objects rt !! agent_id with
       | Some agent => explode_agent center radius strength self agent
       | None => self
       end)
    agents self.
End Root.
End PhysicsEngine.

(** ** environment/physics.py: the forces as objects

    [apply_force] appends the [Force] object it is handed, not a copy of
    it, and [_cleanup_forces] lowers [force.duration] in place.  Here the
    [Force] objects are in a store and the lists hold their addresses, so
    that one object can sit in the lists of two agents; an address that is
    not in the store cannot occur and is skipped. *)
Module ForceStore.
Record t := mk {
  objects : gmap nat Force.t;
  agent_forces : gmap string (list nat)
}.

Definition apply_force (self : t) (agent_id : string) (force : nat) : t :=
  mk (objects self)
     (<[agent_id := default [] (agent_forces self !! agent_id) ++ [force]]> (agent_forces self)).

(** The forces of an agent as a reader of the list finds them. *)
Definition forces_of (self : t) (agent_id : string) : list Force.t :=
  omap (λ force, objects self !! force) (default [] (agent_forces self !! agent_id)).

(** The body of the loop of [_cleanup_forces]: [force.duration -= 1.0],
    then the force is kept when its duration is still positive. *)
Definition expire (acc : gmap nat Force.t * list nat) (force : nat)
    : gmap nat Force.t * list nat :=
  let '(objects, active_forces) := acc in
  match objects !! force with
  | Some f =>
      let f := Force.mk (Force.fx f) (Force.fy f) (Force.duration f - 1)%Q in
      (<[force := f]> objects,
       if Qltb 0 (Force.duration f) then active_forces ++ [force] else active_forces)
  | None => (objects, active_forces)
  end.

Definition _cleanup_forces (self : t) (agent_id : string) : t :=
  match agent_forces self !! agent_id with
  | None => self
  | Some forces =>
      let '(objects, active_forces) := fold_left expire forces (objects self, []) in
      mk objects (<[agent_id := active_forces]> (agent_forces self))
  end.
End ForceStore.

(** ** environment/world.py *)

Module EnvironmentFeature.
Record t := mk {
  position : Position.t;
  feature_type : string;
  radius : Q;
  properties : gmap string Q;
  active : bool
}.

Definition set_properties (p : gmap string Q) (f : t) : t :=
  mk (position f) (feature_type f) (radius f) p (active f).
End EnvironmentFeature.

Module World.
Record t := mk {
  width : Q;
  height : Q;
  spatial_grid : SpatialGrid.t;
  physics : PhysicsEngine.t;
  agents : list string;
  features : list EnvironmentFeature.t;
  time : Q;
  temperature : Q;
  humidity : Q;
  wind_speed : Q;
  wind_direction : Q;
  total_agents_created : Z;
  total_agents_removed : Z
}.

Definition set_spatial_grid (g : SpatialGrid.t) (w : t) : t :=
  mk (width w) (height w) g (physics w) (agents w) (features w) (time w)
     (temperature w) (humidity w) (wind_speed w) (wind_direction w)
     (total_agents_created w) (total_agents_removed w).
Definition set_physics (p : PhysicsEngine.t) (w : t) : t :=
  mk (width w) (height w) (spatial_grid w) p (agents w) (features w) (time w)
     (temperature w) (humidity w) (wind_speed w) (wind_direction w)
     (total_agents_created w) (total_agents_removed w).
Definition set_agents (a : list string) (w : t) : t :=
  mk (width w) (height w) (spatial_grid w) (physics w) a (features w) (time w)
     (temperature w) (humidity w) (wind_speed w) (wind_direction w)
     (total_agents_created w) (total_agents_removed w).
Definition set_features (f : list EnvironmentFeature.t) (w : t) : t :=
  mk (width w) (height w) (spatial_grid w) (physics w) (agents w) f (time w)
     (temperature w) (humidity w) (wind_speed w) (wind_direction w)
     (total_agents_created w) (total_agents_removed w).
Definition set_time (v : Q) (w : t) : t :=
  mk (width w) (height w) (spatial_grid w) (physics w) (agents w) (features w) v
     (temperature w) (humidity w) (wind_speed w) (wind_direction w)
     (total_agents_created w) (total_agents_removed w).
Definition set_temperature (v : Q) (w : t) : t :=
  mk (width w) (height w) (spatial_grid w) (physics w) (agents w) (features w) (time w)
     v (humidity w) (wind_speed w) (wind_direction w)
     (total_agents_created w) (total_agents_removed w).
Definition set_humidity (v : Q) (w : t) : t :=
  mk (width w) (height w) (spatial_grid w) (physics w) (agents w) (features w) (time w)
     (temperature w) v (wind_speed w) (wind_direction w)
     (total_agents_created w) (total_agents_removed w).
Definition set_wind (speed direction : Q) (w : t) : t :=
  mk (width w) (height w) (spatial_grid w) (physics w) (agents w) (features w) (time w)
     (temperature w) (humidity w) speed direction
     (total_agents_created w) (total_agents_removed w).
Definition set_counters (created removed : Z) (w : t) : t :=
  mk (width w) (height w) (spatial_grid w) (physics w) (agents w) (features w) (time w)
     (temperature w) (humidity w) (wind_speed w) (wind_direction w) created removed.

(** The two loops of [_initialize_environment]; the draws are made in the
    order in which Python evaluates them. *)
Fixpoint add_obstacles (n : nat) (width height : Q) (g : Rng.t)
    (features : list EnvironmentFeature.t) : list EnvironmentFeature.t * Rng.t :=
  match n with
  | O => (features, g)
  | S n =>
      let '(x, g) := Rng.uniform 50 (width - 50) g in
      let '(y, g) := Rng.uniform 50 (height - 50) g in
      let '(radius, g) := Rng.uniform 10 30 g in
      let '(hardness, g) := Rng.uniform (1 # 2) 1 g in
      add_obstacles n width height g
        (features ++ [EnvironmentFeature.mk (Position.mk x y) "obstacle" radius
                        (<["hardness"%string := hardness]> ∅) true])
  end.

Fixpoint add_resources (n : nat) (width height : Q) (g : Rng.t)
    (features : list EnvironmentFeature.t) : list EnvironmentFeature.t * Rng.t :=
  match n with
  | O => (features, g)
  | S n =>
      let '(x, g) := Rng.uniform 20 (width - 20) g in
      let '(y, g) := Rng.uniform 20 (height - 20) g in
      let '(radius, g) := Rng.uniform 15 40 g in
      let '(energy_value, g) := Rng.uniform 10 50 g in
      let '(regeneration_rate, g) := Rng.uniform (1 # 10) (1 # 2) g in
      add_resources n width height g
        (features ++ [EnvironmentFeature.mk (Position.mk x y) "resource" radius
                        (<["regeneration_rate"%string := regeneration_rate]>
                           (<["energy_value"%string := energy_value]> ∅)) true])
  end.

Definition _initialize_environment (self : t) (rt : Runtime.t) : t * Runtime.t :=
  let num_obstacles := int (width self * height self / 50000) in
  let '(fs, g) :=
    add_obstacles (Z.to_nat num_obstacles) (width self) (height self)
      (Runtime.rng rt) (features self) in
  let num_resources := int (inject_Z num_obstacles / 2) in
  let '(fs, g) :=
    add_resources (Z.to_nat num_resources) (width self) (height self) g fs in
  (set_features fs self, Runtime.set_rng g rt).

Definition __init__ (width height cell_size : Q) (rt : Runtime.t) : t * Runtime.t :=
  _initialize_environment
    (mk width height
        (SpatialGrid.__init__ width height cell_size)
        (PhysicsEngine.__init__ width height)
        [] [] 0 20 (1 # 2) 0 0 0 0)
    rt.

(** [agent] is the object handed in; it enters the store with its
    position clamped to the world. *)
Definition add_agent (self : t) (rt : Runtime.t) (agent : Agent.t) : t * Runtime.t :=
  let p := Agent.position agent in
  let agent :=
    Agent.set_state
      (AgentState.set_position
         (Position.mk (Qmax 0 (Qmin (width self) (Position.x p)))
                      (Qmax 0 (Qmin (height self) (Position.y p))))
         (Agent.state agent))
      agent in
  (set_counters (total_agents_created self + 1) (total_agents_removed self)
     (set_spatial_grid (SpatialGrid.add_agent (spatial_grid self) agent)
        (set_agents (dict_set (Agent.agent_id agent) (agents self)) self)),
   Runtime.set_objects (<[Agent.agent_id agent := agent]> (Runtime.objects rt)) rt).

(** Only the [agent_id] of the agent handed in is consulted. *)
Definition remove_agent (self : t) (agent_id : string) : t :=
  if bool_decide (agent_id ∈ agents self) then
    set_counters (total_agents_created self) (total_agents_removed self + 1)
      (set_agents (dict_del agent_id (agents self))
         (set_spatial_grid (SpatialGrid.remove_agent (spatial_grid self) agent_id) self))
  else self.

(** [self.agents.get(agent_id)] *)
Definition get_agent (self : t) (rt : Runtime.t) (agent_id : string) : option Agent.t :=
  if bool_decide (agent_id ∈ agents self) then Runtime.objects rt !! agent_id else None.

(** The body of the loop of [get_agents_in_radius]: the agent is looked up
    in the registry and kept when it lies within [radius]. *)
Definition in_radius (self : t) (rt : Runtime.t) (position : Position.t)
    (radius : Q) (agent_id : string) : bool :=
  match get_agent self rt agent_id with
  | Some agent => Position.distance_le position (Agent.position agent) radius
  | None => false
  end.

(** The agents returned are named by their keys. *)
Definition get_agents_in_radius (self : t) (rt : Runtime.t) (position : Position.t)
    (radius : Q) : list string :=
  let nearby_agent_ids := SpatialGrid.get_nearby_agents (spatial_grid self) position radius None in
  filter (λ agent_id, in_radius self rt position radius agent_id = true) nearby_agent_ids.

Definition refresh_grid (self : t) (rt : Runtime.t) : SpatialGrid.t :=
  fold_left
    (λ g agent_id,
       match Runtime.objects rt !! agent_id with
       | Some agent => SpatialGrid.update_agent g agent
       | None => g
       end)
    (agents self) (spatial_grid self).

Definition regenerate (dt : Q) (feature : EnvironmentFeature.t) : EnvironmentFeature.t :=
  if String.eqb (EnvironmentFeature.feature_type feature) "resource"
     && EnvironmentFeature.active feature
  then
    let props := EnvironmentFeature.properties feature in
    let regen_rate := default (1 # 10) (props !! "regeneration_rate"%string) in
    let max_energy := default 100%Q (props !! "max_energy_value"%string) in
    let current_energy := default 0%Q (props !! "energy_value"%string) in
    let new_energy := Qmin max_energy (current_energy + regen_rate * dt) in
    EnvironmentFeature.set_properties (<["energy_value"%string := new_energy]> props) feature
  else feature.

Definition get_features_in_radius (self : t) (position : Position.t) (radius : Q)
    : list EnvironmentFeature.t :=
  filter (λ feature,
            EnvironmentFeature.active feature
            && Position.distance_le position (EnvironmentFeature.position feature)
                 (radius + EnvironmentFeature.radius feature) = true)
         (features self).

Definition is_position_valid (self : t) (position : Position.t) (agent_radius : Q) : bool :=
  if Qltb (Position.x position) agent_radius
     || Qltb (width self - agent_radius) (Position.x position)
     || Qltb (Position.y position) agent_radius
     || Qltb (height self - agent_radius) (Position.y position)
  then false
  else
    forallb (λ feature,
               negb (String.eqb (EnvironmentFeature.feature_type feature) "obstacle"
                     && EnvironmentFeature.active feature
                     && Position.distance_lt position (EnvironmentFeature.position feature)
                          (EnvironmentFeature.radius feature + agent_radius)))
            (features self).

(** The loop of [get_random_valid_position], with its fallback to the
    centre of the world. *)
Fixpoint sample_position (attempts : nat) (self : t) (agent_radius : Q) (g : Rng.t)
    : Position.t * Rng.t :=
  match attempts with
  | O => (Position.mk (width self / 2) (height self / 2), g)
  | S attempts =>
      let '(x, g) := Rng.uniform agent_radius (width self - agent_radius) g in
      let '(y, g) := Rng.uniform agent_radius (height self - agent_radius) g in
      let position := Position.mk x y in
      if is_position_valid self position agent_radius then (position, g)
      else sample_position attempts self agent_radius g
  end.

Definition get_random_valid_position (self : t) (rt : Runtime.t) (agent_radius : Q)
    (max_attempts : Z) : Position.t * Runtime.t :=
  let '(position, g) :=
    sample_position (Z.to_nat max_attempts) self agent_radius (Runtime.rng rt) in
  (position, Runtime.set_rng g rt).

(** The physics engine is not among the things [reset] resets. *)
Definition reset (self : t) (rt : Runtime.t) : t * Runtime.t :=
  _initialize_environment
    (mk (width self) (height self) (SpatialGrid.clear (spatial_grid self)) (physics self)
        [] [] 0 20 (1 # 2) 0 0 0 0)
    rt.

(** The ["agents"] entry of [get_statistics]: [active], [total_created],
    [total_removed]. *)
Definition get_statistics_agents (self : t) : Z * Z * Z :=
  (Z.of_nat (length (agents self)), total_agents_created self, total_agents_removed self).

Section Math.
Variables sqrt cos sin : Q -> Q.

Definition update_physics (self : t) (rt : Runtime.t) (dt : Q)
    : t * Runtime.t * list Event.t :=
  let rt := Runtime.log CallWorldUpdatePhysics rt in
  let self := set_spatial_grid (refresh_grid self rt) self in
  let '(ph, rt, events) := PhysicsEngine.update sqrt (physics self) (agents self) rt dt in
  (set_physics ph self, rt, events).

Definition update_environment (self : t) (rt : Runtime.t) (dt : Q) : t * Runtime.t :=
  let rt := Runtime.log CallUpdateEnvironment rt in
  let self := set_time (time self + dt) self in
  let g := Runtime.rng rt in
  let '(u, g) := Rng.random g in
  let '(self, g) :=
    if Qltb u (1 # 1000) then
      let '(d, g) := Rng.uniform (-1) 1 g in
      (set_temperature (Qmax (-20) (Qmin 40 (temperature self + d))) self, g)
    else (self, g) in
  let '(u, g) := Rng.random g in
  let '(self, g) :=
    if Qltb u (1 # 1000) then
      let '(d, g) := Rng.uniform (- (5 # 100)) (5 # 100) g in
      (set_humidity (Qmax 0 (Qmin 1 (humidity self + d))) self, g)
    else (self, g) in
  let '(u, g) := Rng.random g in
  let '(self, g) :=
    if Qltb u (1 # 100) then
      let '(d, g) := Rng.uniform (- (1 # 2)) (1 # 2) g in
      let speed := Qmax 0 (wind_speed self + d) in
      let '(d, g) := Rng.uniform (- (1 # 10)) (1 # 10) g in
      let direction := (wind_direction self + d)%Q in
      let wind_x := (speed * cos direction)%Q in
      let wind_y := (speed * sin direction)%Q in
      (set_physics (PhysicsEngine.set_wind (physics self) wind_x wind_y)
         (set_wind speed direction self), g)
    else (self, g) in
  (set_features (map (regenerate dt) (features self)) self, Runtime.set_rng g rt).

Definition update (self : t) (rt : Runtime.t) (dt : Q) : t * Runtime.t * list Event.t :=
  let rt := Runtime.log CallWorldUpdate rt in
  let '(self, rt) := update_environment self rt dt in
  let '(self, rt, physics_events) := update_physics self rt dt in
  (self, rt, [] ++ physics_events).
End Math.
End World.

(** ** core/agent.py: Agent.sense (it needs the world) *)

Section Sense.
Variable sqrt : Q -> Q.

(** The observations the inherited [sense] builds. *)
Definition Agent_base_sense (self : Agent.t) (environment : World.t) (rt : Runtime.t)
    : Observations :=
  let s := Agent.state self in
  let nearby_agents :=
    World.get_agents_in_radius environment rt (AgentState.position s) 50 in
  {| obs_position := AgentState.position s;
     obs_energy := AgentState.energy s;
     obs_health := AgentState.health s;
     obs_age := AgentState.age s;
     obs_nearby_agents :=
       omap (λ id,
               match Runtime.objects rt !! id with
               | Some agent =>
                   if String.eqb (Agent.agent_id agent) (Agent.agent_id self) then None
                   else Some {| nearby_id := Agent.agent_id agent;
                                nearby_position := Agent.position agent;
                                nearby_distance :=
                                  Position.distance_to sqrt (AgentState.position s)
                                    (Agent.position agent) |}
               | None => None
               end)
            nearby_agents |}.

(** [agent.sense(world)]; [inl x] when it raises [x]. *)
Definition Agent_sense (self : Agent.t) (environment : World.t) (rt : Runtime.t)
    : Exc + Observations :=
  match Agent.sense_override (Agent.behaviour self) with
  | None => inr (Agent_base_sense self environment rt)
  | Some f => f (Agent_base_sense self environment rt)
  end.
End Sense.

(** ** core/events.py: EventManager *)

Module EventManager.
Record t := mk {
  _handlers : gmap EventType (list string);
  _event_history : list Event.t;
  _max_history : nat
}.

Definition __init__ : t := mk ∅ [] 10000.

Definition subscribe (self : t) (event_type : EventType) (handler : string) : t :=
  mk (<[event_type := default [] (_handlers self !! event_type) ++ [handler]]> (_handlers self))
     (_event_history self) (_max_history self).

(** [list.remove]: the first occurrence. *)
Fixpoint list_remove (h : string) (l : list string) : list string :=
  match l with
  | [] => []
  | k :: l => if String.eqb k h then l else k :: list_remove h l
  end.

Definition unsubscribe (self : t) (event_type : EventType) (handler : string) : t :=
  match _handlers self !! event_type with
  | Some hs =>
      mk (<[event_type := list_remove handler hs]> (_handlers self))
         (_event_history self) (_max_history self)
  | None => self
  end.

(** The handlers are agents; a handler is called through the store. *)
Definition notify (event : Event.t) (rt : Runtime.t) (handler : string) : Runtime.t :=
  Runtime.modify handler (λ a, Agent.handle_event a event)
    (Runtime.log (CallHandleEvent handler event) rt).

Definition publish (self : t) (rt : Runtime.t) (event : Event.t) : t * Runtime.t :=
  let history := _event_history self ++ [event] in
  let history :=
    if (_max_history self <? length history)%nat
    then Agent.slice_from_end (_max_history self) history
    else history in
  (mk (_handlers self) history (_max_history self),
   match _handlers self !! Event.event_type event with
   | Some hs => fold_left (notify event) hs rt
   | None => rt
   end).

Definition get_event_history (self : t) (event_type : option EventType) : list Event.t :=
  match event_type with
  | None => _event_history self
  | Some ty => filter (λ event, Event.event_type event = ty) (_event_history self)
  end.

Definition clear_history (self : t) : t := mk (_handlers self) [] (_max_history self).
End EventManager.

(** ** core/engine.py *)

Module SimulationConfig.
Record t := mk {
  time_step : Q;
  max_steps : Z;
  real_time : bool;
  enable_physics : bool;
  enable_visualization : bool;
  max_agents : Z;
  world_width : Q;
  world_height : Q;
  random_seed : option Z
}.

Definition default : t := mk (1 # 10) 1000 false true false 1000 1000 1000 None.
End SimulationConfig.

(** A registered callback, by what calling it does; callbacks observe the
    engine and do not change it. *)
Inductive Callback := CallbackReturns | CallbackRaises (x : Exc).

Module SimulatorEngine.
Record t := mk {
  config : SimulationConfig.t;
  world : World.t;
  event_manager : EventManager.t;
  agents : list string;
  running : bool;
  paused : bool;
  current_step : Z;
  simulation_time : Q;
  step_start : list Callback;
  step_end : list Callback;
  simulation_start : list Callback;
  simulation_end : list Callback
}.

Definition set_world (w : World.t) (e : t) : t :=
  mk (config e) w (event_manager e) (agents e) (running e) (paused e) (current_step e)
     (simulation_time e) (step_start e) (step_end e) (simulation_start e) (simulation_end e).
Definition set_event_manager (m : EventManager.t) (e : t) : t :=
  mk (config e) (world e) m (agents e) (running e) (paused e) (current_step e)
     (simulation_time e) (step_start e) (step_end e) (simulation_start e) (simulation_end e).
Definition set_agents (a : list string) (e : t) : t :=
  mk (config e) (world e) (event_manager e) a (running e) (paused e) (current_step e)
     (simulation_time e) (step_start e) (step_end e) (simulation_start e) (simulation_end e).
Definition set_paused (b : bool) (e : t) : t :=
  mk (config e) (world e) (event_manager e) (agents e) (running e) b (current_step e)
     (simulation_time e) (step_start e) (step_end e) (simulation_start e) (simulation_end e).
Definition set_running (b : bool) (e : t) : t :=
  mk (config e) (world e) (event_manager e) (agents e) b (paused e) (current_step e)
     (simulation_time e) (step_start e) (step_end e) (simulation_start e) (simulation_end e).
Definition set_clock (step : Z) (time : Q) (e : t) : t :=
  mk (config e) (world e) (event_manager e) (agents e) (running e) (paused e) step
     time (step_start e) (step_end e) (simulation_start e) (simulation_end e).

(** The random seed of the configuration is stored with it and not
    otherwise used: the environment is drawn from the generator as it is. *)
Definition __init__ (config : SimulationConfig.t) (rt : Runtime.t) : t * Runtime.t :=
  let '(w, rt) :=
    World.__init__ (SimulationConfig.world_width config)
      (SimulationConfig.world_height config) 50 rt in
  (mk config w EventManager.__init__ [] false false 0 0 [] [] [] [], rt).

(** [add_agent] returns [None] on both of its paths; [tt] is that value. *)
Definition add_agent (self : t) (rt : Runtime.t) (agent : Agent.t) : t * Runtime.t * unit :=
  if (SimulationConfig.max_agents (config self) <=? Z.of_nat (length (agents self)))%Z
  then (self, rt, tt)
  else
    let id := Agent.agent_id agent in
    let self := set_agents (dict_set id (agents self)) self in
    let '(w, rt) := World.add_agent (world self) rt agent in
    let self := set_world w self in
    let em := EventManager.subscribe (event_manager self) AGENT_SPAWN id in
    let em := EventManager.subscribe em ENVIRONMENT_CHANGE id in
    let position :=
      match Runtime.objects rt !! id with
      | Some a => Agent.position a
      | None => Agent.position agent
      end in
    let spawn_event := Event.mk AGENT_SPAWN "simulator" (Some id) (DataSpawn position) in
    let '(em, rt) := EventManager.publish em rt spawn_event in
    (set_event_manager em self, rt, tt).

Definition remove_agent (self : t) (rt : Runtime.t) (agent_id : string) : t * Runtime.t :=
  let rt := Runtime.log (CallRemoveAgent agent_id) rt in
  if bool_decide (agent_id ∈ agents self) then
    let self := set_world (World.remove_agent (world self) agent_id) self in
    let final_position :=
      match Runtime.objects rt !! agent_id with
      | Some a => Agent.position a
      | None => Position.mk 0 0
      end in
    let death_event :=
      Event.mk AGENT_DEATH "simulator" (Some agent_id) (DataDeath final_position) in
    let '(em, rt) := EventManager.publish (event_manager self) rt death_event in
    (set_agents (dict_del agent_id (agents self)) (set_event_manager em self), rt)
  else (self, rt).

Definition add_callback (self : t) (event_type : string) (callback : Callback) : t :=
  if String.eqb event_type "step_start" then
    mk (config self) (world self) (event_manager self) (agents self) (running self)
       (paused self) (current_step self) (simulation_time self)
       (step_start self ++ [callback]) (step_end self) (simulation_start self)
       (simulation_end self)
  else if String.eqb event_type "step_end" then
    mk (config self) (world self) (event_manager self) (agents self) (running self)
       (paused self) (current_step self) (simulation_time self)
       (step_start self) (step_end self ++ [callback]) (simulation_start self)
       (simulation_end self)
  else if String.eqb event_type "simulation_start" then
    mk (config self) (world self) (event_manager self) (agents self) (running self)
       (paused self) (current_step self) (simulation_time self)
       (step_start self) (step_end self) (simulation_start self ++ [callback])
       (simulation_end self)
  else if String.eqb event_type "simulation_end" then
    mk (config self) (world self) (event_manager self) (agents self) (running self)
       (paused self) (current_step self) (simulation_time self)
       (step_start self) (step_end self) (simulation_start self)
       (simulation_end self ++ [callback])
  else self.

(** [for callback in self._callbacks[phase]: callback(self)]; [Some x]
    when one of them raised [x], the later ones not being called. *)
Fixpoint run_callbacks (phase : string) (index : nat) (callbacks : list Callback)
    (rt : Runtime.t) : Runtime.t * option Exc :=
  match callbacks with
  | [] => (rt, None)
  | cb :: callbacks =>
      let rt := Runtime.log (CallCallback phase index) rt in
      match cb with
      | CallbackReturns => run_callbacks phase (S index) callbacks rt
      | CallbackRaises x => (rt, Some x)
      end
  end.

Definition pause (self : t) : t := set_paused true self.
Definition resume (self : t) : t := set_paused false self.

(** [stop] clears [running] and calls the simulation-end callbacks. *)
Definition stop (self : t) (rt : Runtime.t) : Outcome (t * Runtime.t) :=
  let self := set_running false self in
  let '(rt, raised) := run_callbacks "simulation_end" 0 (simulation_end self) rt in
  match raised with
  | None => Returns (self, rt)
  | Some x => Raises x (self, rt)
  end.

Section Math.
Variables sqrt cos sin : Q -> Q.

(** The [try] statement of [step] for one agent: [agent.update], ageing,
    base energy.  It returns [true] when the body ran to its end and
    [false] when the [except Exception] clause was entered; an exception of
    another kind leaves it. *)
Definition try_update (self : t) (rt : Runtime.t) (agent_id : string) (agent : Agent.t)
    (observations : Observations) : Outcome (Runtime.t * bool) :=
  let rt := Runtime.log (CallAgentUpdate agent_id) rt in
  match Agent.update (Agent.behaviour agent)
          (SimulationConfig.time_step (config self)) observations
          (Agent.state agent, Agent.memory agent) with
  | Returns (s, m) =>
      let s := AgentState.set_age (AgentState.age s + 1) s in
      let agent := Agent.consume_energy (Agent.set_memory m (Agent.set_state s agent)) (1 # 10) in
      Returns (Runtime.set_objects (<[agent_id := agent]> (Runtime.objects rt)) rt, true)
  | Raises Exception (s, m) =>
      let agent := Agent.set_memory m (Agent.set_state s agent) in
      Returns
        (Runtime.log (CaughtAgentError agent_id)
           (Runtime.set_objects (<[agent_id := agent]> (Runtime.objects rt)) rt), false)
  | Raises x (s, m) =>
      let agent := Agent.set_memory m (Agent.set_state s agent) in
      Raises x (Runtime.set_objects (<[agent_id := agent]> (Runtime.objects rt)) rt, false)
  end.

(** The loop of [step] over [self.agents.items()]: the store after it, the
    agents marked dead, and whether it ran to its end ([Raises] when
    [sense] raised, or [update] something that is not an [Exception]). *)
Fixpoint update_agents (self : t) (ids : list string) (rt : Runtime.t)
    (dead_agents : list string) : Outcome (Runtime.t * list string) :=
  match ids with
  | [] => Returns (rt, dead_agents)
  | agent_id :: ids =>
      match Runtime.objects rt !! agent_id with
      | None => update_agents self ids rt dead_agents
      | Some agent =>
          if negb (Agent.is_alive agent)
          then update_agents self ids rt (dead_agents ++ [agent_id])
          else
            let rt := Runtime.log (CallSense agent_id) rt in
            match Agent_sense sqrt agent (world self) rt with
            | inl x => Raises x (rt, dead_agents)
            | inr observations =>
                match try_update self rt agent_id agent observations with
                | Returns (rt, ok) =>
                    update_agents self ids rt
                      (if ok then dead_agents else dead_agents ++ [agent_id])
                | Raises x (rt, _) => Raises x (rt, dead_agents)
                end
            end
      end
  end.

Definition remove_agents (self : t) (rt : Runtime.t) (dead_agents : list string)
    : t * Runtime.t :=
  fold_left (λ '(self, rt) agent_id, remove_agent self rt agent_id) dead_agents (self, rt).

Definition step (self : t) (rt : Runtime.t) : Outcome (t * Runtime.t) :=
  if paused self then Returns (self, rt)
  else
    let '(rt, raised) := run_callbacks "step_start" 0 (step_start self) rt in
    if raised is Some x then Raises x (self, rt)
    else
      let dt := SimulationConfig.time_step (config self) in
      let '(self, rt) :=
        if SimulationConfig.enable_physics (config self) then
          let '(w, rt, _) := World.update_physics sqrt (world self) rt dt in
          (set_world w self, rt)
        else (self, rt) in
      match update_agents self (agents self) rt [] with
      | Raises x (rt, _) => Raises x (self, rt)
      | Returns (rt, dead_agents) =>
          let '(self, rt) := remove_agents self rt dead_agents in
          let '(w, rt, _) := World.update sqrt cos sin (world self) rt dt in
          let self := set_world w self in
          let self := set_clock (current_step self + 1) (simulation_time self + dt) self in
          let '(rt, raised) := run_callbacks "step_end" 0 (step_end self) rt in
          match raised with
          | None => Returns (self, rt)
          | Some x => Raises x (self, rt)
          end
      end.

(** [n] calls of [step], stopping at the first that raises. *)
Fixpoint steps (n : nat) (self : t) (rt : Runtime.t) : Outcome (t * Runtime.t) :=
  match n with
  | O => Returns (self, rt)
  | S n =>
      match step self rt with
      | Returns (self, rt) => steps n self rt
      | Raises x s => Raises x s
      end
  end.

(** The [while] loop of [run]; [None] when [fuel] iterations did not end
    it. *)
Fixpoint run_loop (fuel : nat) (self : t) (rt : Runtime.t) : option (Outcome (t * Runtime.t)) :=
  match fuel with
  | O => None
  | S fuel =>
      if running self
         && (current_step self <? SimulationConfig.max_steps (config self))
         && (0 <? Z.of_nat (length (agents self)))
      then
        match step self rt with
        | Returns (self, rt) => run_loop fuel self rt
        | Raises x s => Some (Raises x s)
        end
      else Some (Returns (self, rt))
  end.

(** [run].  The simulation-start callbacks are called before the [try]
    statement.  A [KeyboardInterrupt] of the loop is caught and dropped;
    any other exception of the loop goes on to the caller; the [finally]
    clause calls [stop] in every case, and an exception of [stop] takes the
    place of the one on its way.  The pacing of the real-time mode is left
    out. *)
Definition run (fuel : nat) (self : t) (rt : Runtime.t) : option (Outcome (t * Runtime.t)) :=
  if running self then Some (Returns (self, rt))
  else
    let self := set_running true self in
    let '(rt, raised) := run_callbacks "simulation_start" 0 (simulation_start self) rt in
    if raised is Some x then Some (Raises x (self, rt))
    else
      match run_loop fuel self rt with
      | None => None
      | Some (Returns (self, rt)) => Some (stop self rt)
      | Some (Raises KeyboardInterrupt (self, rt)) => Some (stop self rt)
      | Some (Raises x (self, rt)) =>
          match stop self rt with
          | Returns s => Some (Raises x s)
          | Raises y s => Some (Raises y s)
          end
      end.

(** [reset]: [stop], then registry, world and history are cleared. *)
Definition reset (self : t) (rt : Runtime.t) : Outcome (t * Runtime.t) :=
  match stop self rt with
  | Raises x s => Raises x s
  | Returns (self, rt) =>
      let '(w, rt) := World.reset (world self) rt in
      Returns
        (set_clock 0 0
           (set_event_manager (EventManager.clear_history (event_manager self))
              (set_world w (set_agents [] self))),
         rt)
  end.
End Math.
End SimulatorEngine.

(** ** The radius query over binary64

    [Position.distance_to], [SpatialGrid] and the registry of [World] once
    more, with the coordinates as the binary64 numbers the program computes
    with, for the one claim whose truth rounding decides.  Of an agent only
    its id and its position are kept, of the world only its size, its grid
    and its registry.  [x ** 2] is the rounded product and [x ** 0.5] the
    rounded square root.  [None] stands for the exception [int] and
    [math.ceil] raise at a NaN or an infinity. *)
Module Float64.
Import PrimFloat FloatOps SpecFloat.

(** The integer part and the sign of a finite number, and whether anything
    was cut off. *)
Definition integer_part (x : float) : option (bool * Z * bool) :=
  match Prim2SF x with
  | S754_zero s => Some (s, 0, false)
  | S754_finite s m e =>
      if (0 <=? e)%Z then Some (s, Z.pos m * 2 ^ e, false)
      else Some (s, Z.pos m / 2 ^ (- e), negb (Z.pos m mod 2 ^ (- e) =? 0)%Z)
  | S754_infinity _ | S754_nan => None
  end.

(** [int(x)] *)
Definition int (x : float) : option Z :=
  '(s, n, _) ← integer_part x; Some (if s : bool then - n else n).

(** [math.ceil(x)] *)
Definition ceil (x : float) : option Z :=
  '(s, n, cut) ← integer_part x;
  Some (if s : bool then - n else if cut : bool then n + 1 else n).

(** [min(a, b)] and [max(a, b)]: the first argument unless the second is
    smaller, respectively larger. *)
Definition min (a b : float) : float := if ltb b a then b else a.
Definition max (a b : float) : float := if ltb a b then b else a.

Module Position.
Record t := mk { x : float; y : float }.

Definition distance_to (self other : t) : float :=
  sqrt (add (mul (sub (x self) (x other)) (sub (x self) (x other)))
            (mul (sub (y self) (y other)) (sub (y self) (y other)))).
End Position.

Module Agent.
Record t := mk { agent_id : string; position : Position.t }.
End Agent.

Module SpatialGrid.
Record t := mk {
  width : float;
  height : float;
  cell_size : float;
  cols : Z;
  rows : Z;
  grid : gmap (Z * Z) (gset string);
  agent_positions : gmap string (Z * Z)
}.

Definition __init__ (width height cell_size : float) : option t :=
  cols ← ceil (div width cell_size);
  rows ← ceil (div height cell_size);
  Some (mk width height cell_size (Z.max 1 cols) (Z.max 1 rows) ∅ ∅).

Definition _get_cell_coords (self : t) (position : Position.t) : option (Z * Z) :=
  col ← int (div (Position.x position) (cell_size self));
  row ← int (div (Position.y position) (cell_size self));
  Some (Z.max 0 (Z.min (cols self - 1) col), Z.max 0 (Z.min (rows self - 1) row)).

Definition add_agent (self : t) (agent : Agent.t) : option t :=
  cell_coords ← _get_cell_coords self (Agent.position agent);
  Some (mk (width self) (height self) (cell_size self) (cols self) (rows self)
           (<[cell_coords := default ∅ (grid self !! cell_coords) ∪ {[Agent.agent_id agent]}]>
              (grid self))
           (<[Agent.agent_id agent := cell_coords]> (agent_positions self))).

Definition get_nearby_agents (self : t) (position : Position.t) (radius : float)
    (exclude_id : option string) : option (list string) :=
  cell_radius ← ceil (div radius (cell_size self));
  '(center_col, center_row) ← _get_cell_coords self position;
  let nearby_agents :=
    flat_map (λ row,
      flat_map (λ col, elements (default ∅ (grid self !! (col, row))))
        (range (Z.max 0 (center_col - cell_radius))
               (Z.min (cols self) (center_col + cell_radius + 1))))
      (range (Z.max 0 (center_row - cell_radius))
             (Z.min (rows self) (center_row + cell_radius + 1))) in
  Some (filter (λ agent_id, Some agent_id ≠ exclude_id) nearby_agents).
End SpatialGrid.

Module World.
Record t := mk {
  width : float;
  height : float;
  spatial_grid : SpatialGrid.t;
  agents : gmap string Agent.t
}.

Definition __init__ (width height cell_size : float) : option t :=
  spatial_grid ← SpatialGrid.__init__ width height cell_size;
  Some (mk width height spatial_grid ∅).

Definition add_agent (self : t) (agent : Agent.t) : option t :=
  let p := Agent.position agent in
  let agent :=
    Agent.mk (Agent.agent_id agent)
      (Position.mk (max 0 (min (width self) (Position.x p)))
                   (max 0 (min (height self) (Position.y p)))) in
  spatial_grid ← SpatialGrid.add_agent (spatial_grid self) agent;
  Some (mk (width self) (height self) spatial_grid
           (<[Agent.agent_id agent := agent]> (agents self))).

(** The body of the loop of [get_agents_in_radius]. *)
Definition in_radius (self : t) (position : Position.t) (radius : float)
    (agent_id : string) : bool :=
  match agents self !! agent_id with
  | Some agent => leb (Position.distance_to position (Agent.position agent)) radius
  | None => false
  end.

Definition get_agents_in_radius (self : t) (position : Position.t) (radius : float)
    : option (list string) :=
  nearby_agent_ids ← SpatialGrid.get_nearby_agents (spatial_grid self) position radius None;
  Some (filter (λ agent_id, in_radius self position radius agent_id = true) nearby_agent_ids).
End World.
End Float64.

(** * Predicates of the specification and example data *)

(** The store is keyed by the identity of its objects. *)
Definition store_wf (rt : Runtime.t) : Prop :=
  ∀ id a, Runtime.objects rt !! id = Some a → Agent.agent_id a = id.

(** The agent is in the cell of the grid that contains its position. *)
Definition indexed_at_position (g : SpatialGrid.t) (a : Agent.t) : Prop :=
  Agent.agent_id a ∈
    SpatialGrid.cell (SpatialGrid.grid g) (SpatialGrid._get_cell_coords g (Agent.position a)).

(** The O(N) scan of the registry. *)
Definition brute_force_neighbors (w : World.t) (rt : Runtime.t) (p : Position.t) (r : Q)
    : list string :=
  filter (λ id, match Runtime.objects rt !! id with
                | Some a => Position.distance_le p (Agent.position a) r
                | None => false
                end = true)
         (World.agents w).

(** ** Example data *)

(** An agent whose [update] does nothing (the test agent of the
    repository's test suite). *)
Definition idle_behaviour : Agent.Behaviour :=
  {| Agent.update := λ _ _ s, Returns s; Agent.sense_override := None |}.

Definition make_agent (id : string) (x y vx vy : Q) : Agent.t :=
  Agent.mk id (AgentState.mk (Position.mk x y) (vx, vy) 100 100 0 true None) []
    idle_behaviour.

(** A generator that never triggers a change of weather. *)
Definition calm_rng : Rng.t := Rng.mk (λ _, 1 # 2) 0.

Definition empty_runtime : Runtime.t := Runtime.mk ∅ calm_rng [].

(** [World(100, 100)] with the given agents added in order. *)
Definition small_world (agents : list Agent.t) : World.t * Runtime.t :=
  fold_left (λ '(w, rt) a, World.add_agent w rt a) agents
    (World.__init__ 100 100 50 empty_runtime).

(** Three agents in a 100 x 100 world, two of them within 45 of (20, 10). *)
Definition three_agents : World.t * Runtime.t :=
  small_world [make_agent "a" 10 10 0 0; make_agent "b" 60 10 0 0; make_agent "c" 90 90 0 0].

(** Two agents one unit apart at the left edge of a 100 x 100 world. *)
Definition edge_pair : Runtime.t :=
  Runtime.mk (<["b"%string := make_agent "b" 1 50 0 0]>
                (<["a"%string := make_agent "a" 0 50 0 0]> ∅))
             calm_rng [].

(** A 100 x 100 simulation, physics enabled, with a random seed given. *)
Definition small_config : SimulationConfig.t :=
  SimulationConfig.mk (1 # 10) 1000 false true false 1000 100 100 (Some 42).

(** [SimulatorEngine(config)] followed by [add_agent] for each agent. *)
Definition engine_with (config : SimulationConfig.t) (rt : Runtime.t) (agents : list Agent.t)
    : SimulatorEngine.t * Runtime.t :=
  fold_left (λ '(e, rt) a, let '(e, rt, _) := SimulatorEngine.add_agent e rt a in (e, rt))
    agents (SimulatorEngine.__init__ config rt).

(** An agent whose [sense] raises. *)
Definition blind_agent (id : string) : Agent.t :=
  Agent.mk id (AgentState.mk (Position.mk 50 50) (0, 0)%Q 100 100 0 true None) []
    {| Agent.update := λ _ _ s, Returns s; Agent.sense_override := Some (λ _, inl Exception) |}.

(** An agent whose [update] raises an [Exception]. *)
Definition faulty_agent (id : string) : Agent.t :=
  Agent.mk id (AgentState.mk (Position.mk 20 20) (0, 0)%Q 100 100 0 true None) []
    {| Agent.update := λ _ _ s, Raises Exception s; Agent.sense_override := None |}.

(** An agent during whose [update] the given exception is raised. *)
Definition interrupted_agent (id : string) (x : Exc) : Agent.t :=
  Agent.mk id (AgentState.mk (Position.mk 20 20) (0, 0)%Q 100 100 0 true None) []
    {| Agent.update := λ _ _ s, Raises x s; Agent.sense_override := None |}.

(** [small_config] with [enable_physics] off. *)
Definition physics_off_config : SimulationConfig.t :=
  SimulationConfig.mk (1 # 10) 1000 false false false 1000 100 100 (Some 42).

(** A generator whose third to fifth draws start a wind of speed 1/4 in
    direction 0; every other draw is 1/2. *)
Definition windy_rng : Rng.t :=
  Rng.mk (λ n, match n with 2%nat => 0%Q | 3%nat => 3 # 4 | _ => 1 # 2 end) 0.

(** The positions, velocities and energies of the registered agents, and
    the registry itself (what was removed is what is missing from it). *)
Definition trajectory_point (e : SimulatorEngine.t) (rt : Runtime.t)
    : list (string * option (Position.t * (Q * Q) * Q)) :=
  map (λ id, (id,
              (λ a, (Agent.position a, AgentState.velocity (Agent.state a),
                     AgentState.energy (Agent.state a))) <$> Runtime.objects rt !! id))
      (SimulatorEngine.agents e).

(** A run: the engine is built from the configuration, the agents are
    added, [n] ticks are made.  [g] is the state the [random] module
    happens to be in when the run starts. *)
Definition run (sqrt cos sin : Q → Q) (config : SimulationConfig.t) (agents : list Agent.t)
    (g : Rng.t) (n : nat) : Outcome (SimulatorEngine.t * Runtime.t) :=
  let '(e, rt) := engine_with config (Runtime.mk ∅ g []) agents in
  SimulatorEngine.steps sqrt cos sin n e rt.

Definition outcome_state {A} (o : Outcome A) : A :=
  match o with Returns a => a | Raises _ a => a end.

(** The example of the radius query over binary64: [World(1000, 1000)]
    holding one agent, "a", at (150, 10), and a query at the largest
    binary64 number below 50 (49.99999999999999 when printed with 16
    digits), at the same height, with radius 100. *)
Module RoundingEdge.
Import PrimFloat.

Definition world : option Float64.World.t :=
  w ← Float64.World.__init__ 1000 1000 50;
  Float64.World.add_agent w (Float64.Agent.mk "a" (Float64.Position.mk 150 10)).

Definition query : Float64.Position.t := Float64.Position.mk 0x1.8ffffffffffffp+5 10.

Definition radius : float := 100.

(** The O(N) scan of the registry, with the test [get_agents_in_radius]
    makes. *)
Definition brute_force_neighbors (w : Float64.World.t) (p : Float64.Position.t) (r : float)
    : list string :=
  omap (λ entry : string * Float64.Agent.t,
          if leb (Float64.Position.distance_to p (Float64.Agent.position entry.2)) r
          then Some entry.1 else None)
       (map_to_list (Float64.World.agents w)).
End RoundingEdge.

(** ** The claims, as predicates *)

(** The position lies in [[0, world_width] x [0, world_height]]. *)
Definition within_world (ph : PhysicsEngine.t) (p : Position.t) : Prop :=
  (0 <= Position.x p <= PhysicsEngine.world_width ph)%Q
  ∧ (0 <= Position.y p <= PhysicsEngine.world_height ph)%Q.

Definition positions_within_world (ph : PhysicsEngine.t) (rt : Runtime.t) (ids : list string)
    : Prop :=
  ∀ id a, id ∈ ids → Runtime.objects rt !! id = Some a → within_world ph (Agent.position a).

(** The index agrees with itself: an id is in a cell exactly when
    [agent_positions] records that cell for it. *)
Definition grid_wf (g : SpatialGrid.t) : Prop :=
  ∀ id c, id ∈ SpatialGrid.cell (SpatialGrid.grid g) c ↔ SpatialGrid.agent_positions g !! id = Some c.

(** Every registered agent is in exactly one cell, the cell of the
    position that [positions] gives it. *)
Definition indexed_by (w : World.t) (positions : Runtime.t) : Prop :=
  ∀ id a, id ∈ World.agents w → Runtime.objects positions !! id = Some a →
    ∀ c, id ∈ SpatialGrid.cell (SpatialGrid.grid (World.spatial_grid w)) c
         ↔ c = SpatialGrid._get_cell_coords (World.spatial_grid w) (Agent.position a).

Definition same_position (p q : Position.t) : Prop :=
  (Position.x p == Position.x q)%Q ∧ (Position.y p == Position.y q)%Q.

Definition same_velocity (u v : Q * Q) : Prop := (u.1 == v.1)%Q ∧ (u.2 == v.2)%Q.

(** Position, velocity and energy of the agents [ids] are in [rt'] what
    they are in [rt]. *)
Definition kinematics_unchanged (rt rt' : Runtime.t) (ids : list string) : Prop :=
  ∀ id a, id ∈ ids → Runtime.objects rt !! id = Some a →
    ∃ a', Runtime.objects rt' !! id = Some a'
          ∧ same_position (Agent.position a') (Agent.position a)
          ∧ same_velocity (AgentState.velocity (Agent.state a')) (AgentState.velocity (Agent.state a))
          ∧ (AgentState.energy (Agent.state a') == AgentState.energy (Agent.state a))%Q.

(** Kinds of entries of the call log. *)
Definition is_physics_pass (c : Call) : bool :=
  match c with CallPhysicsUpdate => true | _ => false end.
Definition is_environment_update (c : Call) : bool :=
  match c with CallUpdateEnvironment => true | _ => false end.
Definition is_agent_turn (c : Call) : bool :=
  match c with CallSense _ | CallAgentUpdate _ | CaughtAgentError _ => true | _ => false end.
Definition is_removal (c : Call) : bool :=
  match c with CallRemoveAgent _ | CallHandleEvent _ _ => true | _ => false end.
Definition is_callback (c : Call) : bool :=
  match c with CallCallback _ _ => true | _ => false end.

(** The calls logged between [rt] and [rt']. *)
Definition calls_since (rt rt' : Runtime.t) : list Call :=
  drop (length (Runtime.calls rt)) (Runtime.calls rt').

(** One physics pass in the log, after every entry of an agent's turn. *)
Definition physics_once_after_agents (calls : list Call) : Prop :=
  length (filter (λ c, is_physics_pass c = true) calls) = 1%nat
  ∧ ∀ i j ci cj, calls !! i = Some ci → calls !! j = Some cj →
      is_agent_turn ci = true → is_physics_pass cj = true → (i < j)%nat.

(** The registry is full. *)
Definition at_capacity (e : SimulatorEngine.t) : Prop :=
  SimulationConfig.max_agents (SimulatorEngine.config e)
  <= Z.of_nat (length (SimulatorEngine.agents e)).

(** The value [add_agent] returns tells a rejection from an acceptance. *)
Definition rejection_observable_by_return : Prop :=
  ∀ e rt a e2 rt2 a2, at_capacity e → ¬ at_capacity e2 →
    (SimulatorEngine.add_agent e rt a).2 ≠ (SimulatorEngine.add_agent e2 rt2 a2).2.

(** No registered object overrides [sense] by something that raises. *)
Definition sense_never_raises (rt : Runtime.t) : Prop :=
  ∀ id a f, Runtime.objects rt !! id = Some a →
    Agent.sense_override (Agent.behaviour a) = Some f →
    ∀ obs, ∃ observations, f obs = inr observations.

(** Whatever the [update] of a registered object raises is an
    [Exception]. *)
Definition updates_raise_exceptions_only (rt : Runtime.t) : Prop :=
  ∀ id a, Runtime.objects rt !! id = Some a →
    ∀ dt obs s x s', Agent.update (Agent.behaviour a) dt obs s = Raises x s' → x = Exception.

(** A configuration with room for one agent. *)
Definition tiny_config : SimulationConfig.t :=
  SimulationConfig.mk (1 # 10) 1000 false true false 1 100 100 None.

(** What the physics pass leaves alone in an agent: everything but
    position, velocity and health. *)
Definition outside_physics (a : Agent.t)
    : string * list MemoryItem * Agent.Behaviour * Q * Z * bool * option string :=
  (Agent.agent_id a, Agent.memory a, Agent.behaviour a,
   AgentState.energy (Agent.state a), AgentState.age (Agent.state a),
   AgentState.active (Agent.state a), AgentState.last_action (Agent.state a)).

(** The two stores hold the same objects, with the same [f]. *)
Definition kept {B} (f : Agent.t → B) (o o' : gmap string Agent.t) : Prop :=
  ∀ id, f <$> (o' !! id) = f <$> (o !! id).

(** No two of the agents [ids] are closer than twice the collision
    radius. *)
Definition no_contact (ph : PhysicsEngine.t) (rt : Runtime.t) (ids : list string) : Prop :=
  ∀ id1 id2 a1 a2, id1 ∈ ids → id2 ∈ ids → id1 ≠ id2 →
    Runtime.objects rt !! id1 = Some a1 → Runtime.objects rt !! id2 = Some a2 →
    Position.distance_lt (Agent.position a1) (Agent.position a2)
      (PhysicsEngine.collision_radius ph * 2) = false.

(** What a physics pass with dt = 0 does to an agent that is inside the
    world and touches no other: the position stays, the velocity is
    multiplied by the friction coefficient. *)
Definition damped_in_place (ph : PhysicsEngine.t) (a a' : Agent.t) : Prop :=
  same_position (Agent.position a') (Agent.position a)
  ∧ same_velocity (AgentState.velocity (Agent.state a'))
      ((AgentState.velocity (Agent.state a)).1 * PhysicsEngine.friction ph,
       (AgentState.velocity (Agent.state a)).2 * PhysicsEngine.friction ph)%Q.

(** The calls [World.update] logs. *)
Definition world_update_calls : list Call :=
  [CallWorldUpdate; CallUpdateEnvironment; CallWorldUpdatePhysics; CallPhysicsUpdate].

(** The calls of the physics pass that [step] makes before the agents'
    turns. *)
Definition early_physics_calls (e : SimulatorEngine.t) : list Call :=
  if SimulationConfig.enable_physics (SimulatorEngine.config e)
  then [CallWorldUpdatePhysics; CallPhysicsUpdate] else [].

Definition callbacks_return (callbacks : list Callback) : Prop :=
  Forall (λ cb, cb = CallbackReturns) callbacks.

(** The parameters of the physics engine that no update changes. *)
Definition physics_constants (ph : PhysicsEngine.t) : Q * Q * Q * Q * Q :=
  (PhysicsEngine.world_width ph, PhysicsEngine.world_height ph, PhysicsEngine.friction ph,
   PhysicsEngine.bounce_damping ph, PhysicsEngine.collision_radius ph).

(** The refresh loop of [update_physics], over any list of keys. *)
Definition refresh (rt : Runtime.t) (ids : list string) (g : SpatialGrid.t) : SpatialGrid.t :=
  fold_left
    (λ g agent_id,
       match Runtime.objects rt !! agent_id with
       | Some agent => SpatialGrid.update_agent g agent
       | None => g
       end)
    ids g.

(** What the removal of agents leaves alone in the engine. *)
Definition engine_settings (e : SimulatorEngine.t)
    : SimulationConfig.t * bool * Z * Q * list Callback * list Callback :=
  (SimulatorEngine.config e, SimulatorEngine.paused e, SimulatorEngine.current_step e,
   SimulatorEngine.simulation_time e, SimulatorEngine.step_start e, SimulatorEngine.step_end e).

(** ** Tactics for the examples *)

Ltac list_cases H :=
  repeat (apply elem_of_cons in H as [->|H]); [..|by apply elem_of_nil in H].

Ltac decide_by_computation := apply (bool_decide_unpack _); vm_compute; exact I.

(** ** The engine as a whole *)

(** What a tick leaves alone in the engine: the configuration, the flags
    and the callbacks. *)
Definition engine_controls (e : SimulatorEngine.t)
    : SimulationConfig.t * bool * bool * list Callback * list Callback * list Callback
      * list Callback :=
  (SimulatorEngine.config e, SimulatorEngine.running e, SimulatorEngine.paused e,
   SimulatorEngine.step_start e, SimulatorEngine.step_end e,
   SimulatorEngine.simulation_start e, SimulatorEngine.simulation_end e).

(** A call of a method of the engine that changes its registry. *)
Inductive EngineCall :=
| DoAddAgent (agent : Agent.t)
| DoRemoveAgent (agent_id : string)
| DoStep.

Section Driver.
Variables sqrt cos sin : Q → Q.

(** The engine and the runtime after the call, whether it returned or
    raised. *)
Definition perform (s : SimulatorEngine.t * Runtime.t) (c : EngineCall)
    : SimulatorEngine.t * Runtime.t :=
  match c with
  | DoAddAgent agent => (SimulatorEngine.add_agent s.1 s.2 agent).1
  | DoRemoveAgent agent_id => SimulatorEngine.remove_agent s.1 s.2 agent_id
  | DoStep => outcome_state (SimulatorEngine.step sqrt cos sin s.1 s.2)
  end.

(** The calls made one after the other on a new engine. *)
Definition perform_all (config : SimulationConfig.t) (rt : Runtime.t) (cs : list EngineCall)
    : SimulatorEngine.t * Runtime.t :=
  fold_left perform cs (SimulatorEngine.__init__ config rt).
End Driver.

(** The registries of the engine and of its world hold the same agents,
    each once, and no more than the configuration allows. *)
Definition registries_consistent (e : SimulatorEngine.t) : Prop :=
  SimulatorEngine.agents e = World.agents (SimulatorEngine.world e)
  ∧ NoDup (SimulatorEngine.agents e)
  ∧ Z.of_nat (length (SimulatorEngine.agents e))
    <= Z.max 0 (SimulationConfig.max_agents (SimulatorEngine.config e)).

(** ** The forces as objects *)

(** The force after [force.duration -= 1.0]. *)
Definition lowered (f : Force.t) : Force.t :=
  Force.mk (Force.fx f) (Force.fy f) (Force.duration f - 1)%Q.

(** The force at this address is still active after a cleanup. *)
Definition outlasts_cleanup (objects : gmap nat Force.t) (force : nat) : bool :=
  match objects !! force with
  | Some f => Qltb 1 (Force.duration f)
  | None => false
  end.

(** One [Force] of duration 2, applied to "a" and to "b". *)
Definition shared_force : ForceStore.t :=
  ForceStore.apply_force
    (ForceStore.apply_force (ForceStore.mk {[ 0%nat := Force.mk 1 0 2 ]} ∅) "a" 0%nat)
    "b" 0%nat.

(** * Properties *)

(** ** Comparisons and rounding *)

Lemma Qleb_le (a b : Q) : Qleb a b = true ↔ (a <= b)%Q.
Proof. apply Qle_bool_iff. Qed.

Lemma Qltb_lt (a b : Q) : Qltb a b = true ↔ (a < b)%Q.
Proof.
  unfold Qltb. rewrite negb_true_iff, <- not_true_iff_false, Qle_bool_iff.
  split; [apply Qnot_le_lt | apply Qlt_not_le].
Qed.

Lemma Qltb_ge (a b : Q) : Qltb a b = false ↔ (b <= a)%Q.
Proof. unfold Qltb. rewrite negb_false_iff. apply Qle_bool_iff. Qed.

Lemma Qfloor_lt_Z (q : Q) (z : Z) : (q < inject_Z z)%Q → Qfloor q < z.
Proof.
  intros H. rewrite Zlt_Qlt. eapply Qle_lt_trans; [apply Qfloor_le | exact H].
Qed.

Lemma Qceiling_nonpos (q : Q) : (q < 0)%Q → Qceiling q <= 0.
Proof.
  intros H.
  assert (Hc := Qceiling_lt q).
  assert (H0 : (inject_Z (Qceiling q - 1) < inject_Z 0)%Q) by (eapply Qlt_trans; eauto).
  rewrite <- Zlt_Qlt in H0. lia.
Qed.

(** Clamping into the grid makes truncation and floor agree. *)
Lemma clamp_int_floor (n : Z) (q : Q) :
  Z.max 0 (Z.min (n - 1) (int q)) = Z.max 0 (Z.min (n - 1) (Qfloor q)).
Proof.
  unfold int. destruct (Qltb q 0) eqn:E; [|done].
  apply Qltb_lt in E.
  assert (Qceiling q <= 0) by (by apply Qceiling_nonpos).
  assert (Qfloor q < 0) by (by apply Qfloor_lt_Z).
  lia.
Qed.

(** Two coordinates at most [r] apart fall in cells at most
    [ceil (r / cell_size)] apart. *)
Lemma floor_step (cs u v r : Q) :
  (0 < cs)%Q → (u - v <= r)%Q →
  Qfloor (u / cs) <= Qfloor (v / cs) + Qceiling (r / cs).
Proof.
  intros Hcs Huv.
  assert (H : Qfloor (u / cs) < Qfloor (v / cs) + Qceiling (r / cs) + 1).
  { apply Qfloor_lt_Z.
    assert (Hv := Qlt_floor (v / cs)).
    assert (Hr := Qle_ceiling (r / cs)).
    rewrite !inject_Z_plus.
    assert (Hd : (u / cs <= v / cs + r / cs)%Q).
    { assert (Heq : (v / cs + r / cs == (v + r) / cs)%Q) by (field; lra).
      rewrite Heq. unfold Qdiv. apply Qmult_le_compat_r; [clear - Huv; lra|]. apply Qlt_le_weak, Qinv_lt_0_compat, Hcs. }
    rewrite inject_Z_plus in Hv. change (inject_Z 1) with 1%Q in *. lra. }
  lia.
Qed.

Lemma cell_index_close (cs u v r : Q) (n : Z) :
  (0 < cs)%Q → (Qabs (u - v) <= r)%Q →
  let cu := Z.max 0 (Z.min (n - 1) (int (u / cs))) in
  let cv := Z.max 0 (Z.min (n - 1) (int (v / cs))) in
  cv - Qceiling (r / cs) <= cu <= cv + Qceiling (r / cs).
Proof.
  intros Hcs Habs cu cv. subst cu cv. rewrite !clamp_int_floor.
  apply Qabs_Qle_condition in Habs as [Hlo Hhi].
  assert (H1 := floor_step cs u v r Hcs Hhi).
  assert (H2 := floor_step cs v u r Hcs ltac:(lra)).
  lia.
Qed.

Lemma Qsquare_nonneg (a : Q) : (0 <= a * a)%Q.
Proof. nra. Qed.

Lemma sq_le_abs (d r : Q) : (0 <= r)%Q → (d * d <= r * r)%Q → (Qabs d <= r)%Q.
Proof.
  intros Hr H. apply Qabs_Qle_condition. split.
  - apply Qnot_lt_le. intros C. nra.
  - apply Qnot_lt_le. intros C. nra.
Qed.

Lemma distance_le_coords (p q : Position.t) (r : Q) :
  Position.distance_le p q r = true →
  (0 <= r)%Q ∧ (Qabs (Position.x q - Position.x p) <= r)%Q
  ∧ (Qabs (Position.y q - Position.y p) <= r)%Q.
Proof.
  unfold Position.distance_le, Position.dist2.
  rewrite andb_true_iff, !Qleb_le. intros [Hr H].
  assert (Hx := Qsquare_nonneg (Position.x p - Position.x q)).
  assert (Hy := Qsquare_nonneg (Position.y p - Position.y q)).
  split; [done|]. split; apply sq_le_abs; try done.
  - setoid_replace ((Position.x q - Position.x p) * (Position.x q - Position.x p))%Q
      with ((Position.x p - Position.x q) * (Position.x p - Position.x q))%Q
      using relation Qeq by ring.
    lra.
  - setoid_replace ((Position.y q - Position.y p) * (Position.y q - Position.y p))%Q
      with ((Position.y p - Position.y q) * (Position.y p - Position.y q))%Q
      using relation Qeq by ring.
    lra.
Qed.

(** ** The spatial index and the neighbour query *)

Lemma elem_of_range (lo hi k : Z) : k ∈ range lo hi ↔ lo <= k < hi.
Proof. unfold range. rewrite elem_of_seqZ. lia. Qed.

Lemma elem_of_get_nearby_agents (g : SpatialGrid.t) (p : Position.t) (r : Q) (id : string) :
  id ∈ SpatialGrid.get_nearby_agents g p r None ↔
  ∃ col row,
    let R := Qceiling (r / SpatialGrid.cell_size g) in
    let c := SpatialGrid._get_cell_coords g p in
    Z.max 0 (c.1 - R) <= col < Z.min (SpatialGrid.cols g) (c.1 + R + 1)
    ∧ Z.max 0 (c.2 - R) <= row < Z.min (SpatialGrid.rows g) (c.2 + R + 1)
    ∧ id ∈ SpatialGrid.cell (SpatialGrid.grid g) (col, row).
Proof.
  unfold SpatialGrid.get_nearby_agents.
  destruct (SpatialGrid._get_cell_coords g p) as [cc cr] eqn:E. cbn [fst snd].
  rewrite list_elem_of_filter, list_elem_of_In, in_flat_map. split.
  - intros [_ (row & Hrow & Hin)]. apply in_flat_map in Hin as (col & Hcol & Hin).
    apply list_elem_of_In, elem_of_range in Hrow.
    apply list_elem_of_In, elem_of_range in Hcol.
    apply list_elem_of_In, elem_of_elements in Hin. eauto.
  - intros (col & row & Hcol & Hrow & Hin). split; [done|].
    exists row. split; [by apply list_elem_of_In, elem_of_range|].
    apply in_flat_map. exists col. split; [by apply list_elem_of_In, elem_of_range|].
    by apply list_elem_of_In, elem_of_elements.
Qed.

(** Every agent within [r] of [p] is in the block of cells scanned. *)
Lemma nearby_covers_radius (g : SpatialGrid.t) (p : Position.t) (r : Q) (a : Agent.t) :
  (0 < SpatialGrid.cell_size g)%Q →
  1 <= SpatialGrid.cols g → 1 <= SpatialGrid.rows g →
  indexed_at_position g a →
  Position.distance_le p (Agent.position a) r = true →
  Agent.agent_id a ∈ SpatialGrid.get_nearby_agents g p r None.
Proof.
  intros Hcs Hcols Hrows Hidx Hd.
  apply distance_le_coords in Hd as (_ & Hx & Hy).
  apply elem_of_get_nearby_agents.
  unfold indexed_at_position in Hidx.
  destruct (SpatialGrid._get_cell_coords g (Agent.position a)) as [col row] eqn:E.
  exists col, row. unfold SpatialGrid._get_cell_coords in *.
  injection E as <- <-. cbn [fst snd].
  assert (Hc := cell_index_close _ _ _ _ (SpatialGrid.cols g) Hcs Hx).
  assert (Hr := cell_index_close _ _ _ _ (SpatialGrid.rows g) Hcs Hy).
  cbn zeta in Hc, Hr. split_and!; [lia..|done].
Qed.

(** In exact arithmetic the radius query is right.  For every query
    position [p] and radius [r], over any world whose agents are indexed
    at their positions: the ids returned by [SpatialGrid.get_nearby_agents]
    include every agent within distance [r] of [p], and
    [World.get_agents_in_radius] returns exactly the agents that the
    brute-force scan of the registry finds within [r].  The block of cells
    scanned has no margin, though: it is just wide enough for the exact
    distance, and the rounding of the program's own arithmetic can put an
    agent that passes the distance test one column further (below). *)
Lemma get_agents_in_radius_brute_force
    (w : World.t) (rt : Runtime.t) (p : Position.t) (r : Q) :
  (0 < SpatialGrid.cell_size (World.spatial_grid w))%Q →
  1 <= SpatialGrid.cols (World.spatial_grid w) →
  1 <= SpatialGrid.rows (World.spatial_grid w) →
  (∀ id a, id ∈ World.agents w → Runtime.objects rt !! id = Some a →
           Agent.agent_id a = id ∧ indexed_at_position (World.spatial_grid w) a) →
  (∀ id a, id ∈ World.agents w → Runtime.objects rt !! id = Some a →
           Position.distance_le p (Agent.position a) r = true →
           id ∈ SpatialGrid.get_nearby_agents (World.spatial_grid w) p r None)
  ∧ (∀ id, id ∈ World.get_agents_in_radius w rt p r ↔ id ∈ brute_force_neighbors w rt p r).
Proof.
  intros Hcs Hcols Hrows Hidx. set (g := World.spatial_grid w) in *.
  assert (Hsup : ∀ id a, id ∈ World.agents w → Runtime.objects rt !! id = Some a →
             Position.distance_le p (Agent.position a) r = true →
             id ∈ SpatialGrid.get_nearby_agents g p r None).
  { intros id a Hin Ha Hd. destruct (Hidx id a Hin Ha) as [<- Hi].
    by apply nearby_covers_radius. }
  split; [exact Hsup|].
  intros id. unfold World.get_agents_in_radius, brute_force_neighbors.
  rewrite !list_elem_of_filter. unfold World.in_radius, World.get_agent.
  case_bool_decide as Hin.
  - destruct (Runtime.objects rt !! id) as [a|] eqn:Ha.
    + split; [tauto|]. intros [Hd _]. split; [done|]. by eapply Hsup.
    + split; intros [? _]; done.
  - split; [intros [? _]; done|]. intros [_ ?]. done.
Qed.

(** C1 (at the failing input). Over binary64: the agent "a" is registered
    and indexed in the cell of its position, (3, 0); its distance from the
    query position, as [distance_to] computes it, is 100, so that the scan
    of the registry with radius 100 finds it; the query is in column 0 and
    [get_nearby_agents] looks at the columns 0 to 2 only, so that neither
    it nor [get_agents_in_radius] returns "a". *)
Theorem get_agents_in_radius_drops_agent_in_range :
  ∃ w a,
    RoundingEdge.world = Some w
    ∧ Float64.World.agents w !! "a"%string = Some a
    ∧ Float64.SpatialGrid._get_cell_coords (Float64.World.spatial_grid w)
        (Float64.Agent.position a) = Some (3, 0)
    ∧ elements (default ∅ (Float64.SpatialGrid.grid (Float64.World.spatial_grid w) !! (3, 0)))
      = ["a"%string]
    ∧ Float64.SpatialGrid._get_cell_coords (Float64.World.spatial_grid w) RoundingEdge.query
      = Some (0, 0)
    ∧ Float64.Position.distance_to RoundingEdge.query (Float64.Agent.position a)
      = RoundingEdge.radius
    ∧ RoundingEdge.brute_force_neighbors w RoundingEdge.query RoundingEdge.radius
      = ["a"%string]
    ∧ Float64.SpatialGrid.get_nearby_agents (Float64.World.spatial_grid w)
        RoundingEdge.query RoundingEdge.radius None = Some []
    ∧ Float64.World.get_agents_in_radius w RoundingEdge.query RoundingEdge.radius = Some [].
Proof.
  eexists _, _. split; [vm_compute; reflexivity|].
  split; [vm_compute; reflexivity|].
  repeat (split; [vm_compute; reflexivity|]). vm_compute. reflexivity.
Qed.

(** ** The physics pass on one agent *)

Lemma integrate_all_single (ph : PhysicsEngine.t) (dt : Q) (id : string) (a : Agent.t)
    (rt : Runtime.t) :
  Runtime.objects rt !! id = Some a →
  PhysicsEngine.integrate_all dt [id] ph rt =
  let '(ph', a', ev) := PhysicsEngine.integrate_agent ph dt id a in
  (ph', Runtime.set_objects (<[id := a']> (Runtime.objects rt)) rt, option_list ev).
Proof.
  intros H. unfold PhysicsEngine.integrate_all. cbn [fold_left]. rewrite H.
  by destruct (PhysicsEngine.integrate_agent ph dt id a) as [[? ?] ?].
Qed.

(** C7. In a 100 x 100 world with the default physics parameters, one
    agent at (95, 50) with velocity (10, 0), no forces, no gravity and no
    wind: one physics update with dt = 1 leaves the agent at x = 100 with a
    negative x-velocity, the old one reflected and scaled by the bounce
    damping 0.7 < 1. *)
Theorem boundary_bounce_scenario (sqrt : Q → Q) (id : string) (a : Agent.t) :
  let a0 :=
    Agent.mk id
      (AgentState.set_velocity (10, 0)%Q
         (AgentState.set_position (Position.mk 95 50) (Agent.state a)))
      (Agent.memory a) (Agent.behaviour a) in
  let ph := PhysicsEngine.__init__ 100 100 in
  let rt := Runtime.mk {[id := a0]} calm_rng [] in
  ∃ a', Runtime.objects (PhysicsEngine.update sqrt ph [id] rt 1).1.2 !! id = Some a'
        ∧ (Position.x (Agent.position a') == 100)%Q
        ∧ ((AgentState.velocity (Agent.state a')).1 < 0)%Q
        ∧ ((AgentState.velocity (Agent.state a')).1 == - (10) * PhysicsEngine.bounce_damping ph)%Q
        ∧ (PhysicsEngine.bounce_damping ph < 1)%Q.
Proof.
  intros a0 ph rt. unfold PhysicsEngine.update.
  rewrite (integrate_all_single ph 1 id a0) by (cbn; apply lookup_singleton_eq).
  unfold PhysicsEngine.integrate_agent, PhysicsEngine._calculate_total_forces,
    PhysicsEngine._cleanup_forces, PhysicsEngine._handle_boundaries.
  cbn -[Qmult Qplus Qopp Qltb]. rewrite lookup_empty.
  repeat match goal with
         | |- context [Qltb ?u ?v] =>
             let b := eval vm_compute in (Qltb u v) in change (Qltb u v) with b
         end.
  cbn. rewrite insert_singleton_eq, lookup_singleton_eq.
  eexists. split; [reflexivity|]. cbn. repeat split; reflexivity.
Qed.

(** ** The model run on the examples *)

(** C3 (at the failing input). Two agents at rest one unit apart at the
    left edge, both inside the world: the physics update separates them
    along the x axis and leaves the first at x = -3/2, outside
    [[0, 100] x [0, 100]]. *)
Theorem collision_resolution_leaves_world :
  let ph := PhysicsEngine.__init__ 100 100 in
  let ids := ["a"; "b"]%string in
  positions_within_world ph edge_pair ids
  ∧ ¬ positions_within_world ph (PhysicsEngine.update Qsqrt ph ids edge_pair 1).1.2 ids
  ∧ ∃ a', Runtime.objects (PhysicsEngine.update Qsqrt ph ids edge_pair 1).1.2 !! "a"%string = Some a'
          ∧ (Position.x (Agent.position a') == - (3 # 2))%Q.
Proof.
  intros ph ids. split_and!.
  - intros id a Hin Ha. subst ids. list_cases Hin; vm_compute in Ha; injection Ha as <-;
      vm_compute; intuition discriminate.
  - intros H.
    destruct (Runtime.objects (PhysicsEngine.update Qsqrt ph ids edge_pair 1).1.2 !! "a"%string)
      as [a'|] eqn:Ha; [|vm_compute in Ha; discriminate].
    destruct (H "a"%string a' ltac:(subst ids; set_solver) Ha) as [[Hx _] _].
    vm_compute in Ha. injection Ha as <-. vm_compute in Hx. by apply Hx.
  - eexists. split; [vm_compute; reflexivity|]. vm_compute. reflexivity.
Qed.

(** C2 (counterexample). An agent at (45, 50) moving right at speed 100:
    after [World.update] with dt = 1/10 it is at x = 54.5, in column 1,
    and the grid still has it in column 0. *)
Lemma grid_stale_after_update :
  let w := small_world [make_agent "a" 45 50 100 0] in
  let r := World.update Qsqrt Qcos Qsin w.1 w.2 (1 # 10) in
  ¬ indexed_by r.1.1 r.1.2.
Proof.
  intros w r H.
  destruct (Runtime.objects r.1.2 !! "a"%string) as [a'|] eqn:Ha;
    [|vm_compute in Ha; discriminate].
  assert (Hin : "a"%string ∈ World.agents r.1.1) by (vm_compute; set_solver).
  specialize (H "a"%string a' Hin Ha (1, 1)).
  vm_compute in Ha. injection Ha as <-.
  assert (Hc : "a"%string ∈ SpatialGrid.cell (SpatialGrid.grid (World.spatial_grid r.1.1)) (1, 1))
    by (apply H; vm_compute; reflexivity).
  revert Hc. apply (bool_decide_eq_false_1 _). vm_compute. reflexivity.
Qed.

(** C4 (counterexample). One agent at (50, 50) with velocity (10, 0):
    [World.update] with dt = 0 leaves it with velocity (9.5, 0). *)
Lemma zero_dt_update_damps_velocity :
  let w := small_world [make_agent "a" 50 50 10 0] in
  let r := World.update Qsqrt Qcos Qsin w.1 w.2 0 in
  ¬ kinematics_unchanged w.2 r.1.2 (World.agents w.1).
Proof.
  intros w r H.
  destruct (H "a"%string (make_agent "a" 50 50 10 0)) as (a' & Ha & _ & [Hv _] & _).
  - vm_compute. set_solver.
  - vm_compute. reflexivity.
  - vm_compute in Ha. injection Ha as <-. vm_compute in Hv. discriminate.
Qed.

(** C5 (at the failing input). One agent at (50, 50) moving right at speed
    10, one tick of 1/10.  With the default configuration
    ([enable_physics] set) the physics pass runs twice, the first time
    before the agent has decided anything, and the agent is moved twice,
    to x = 51.8525.  With [enable_physics] off the pass still runs, inside
    [World.update], and moves the agent to x = 50.95: the flag guards the
    extra pass, not the physics. *)
Theorem physics_pass_runs_outside_its_guard :
  let agent := make_agent "a" 50 50 10 0 in
  let on := engine_with small_config empty_runtime [agent] in
  let off := engine_with physics_off_config empty_runtime [agent] in
  (∃ s a', SimulatorEngine.step Qsqrt Qcos Qsin on.1 on.2 = Returns s
           ∧ calls_since on.2 s.2 =
               [CallWorldUpdatePhysics; CallPhysicsUpdate; CallSense "a"; CallAgentUpdate "a";
                CallWorldUpdate; CallUpdateEnvironment; CallWorldUpdatePhysics;
                CallPhysicsUpdate]
           ∧ ¬ physics_once_after_agents (calls_since on.2 s.2)
           ∧ Runtime.objects s.2 !! "a"%string = Some a'
           ∧ (Position.x (Agent.position a') == 518525 # 10000)%Q)
  ∧ (∃ s a', SimulatorEngine.step Qsqrt Qcos Qsin off.1 off.2 = Returns s
             ∧ calls_since off.2 s.2 =
                 [CallSense "a"; CallAgentUpdate "a"; CallWorldUpdate; CallUpdateEnvironment;
                  CallWorldUpdatePhysics; CallPhysicsUpdate]
             ∧ Runtime.objects s.2 !! "a"%string = Some a'
             ∧ (Position.x (Agent.position a') == 5095 # 100)%Q).
Proof.
  intros agent on off. split.
  - eexists _, _. split; [vm_compute; reflexivity|].
    split; [vm_compute; reflexivity|]. split.
    + intros [Hn _]. vm_compute in Hn. discriminate.
    + split; [vm_compute; reflexivity|]. vm_compute. reflexivity.
  - eexists _, _. split; [vm_compute; reflexivity|].
    split; [vm_compute; reflexivity|].
    split; [vm_compute; reflexivity|]. vm_compute. reflexivity.
Qed.

(** C6 (at the failing input). An engine holding an agent whose [sense]
    raises, and a second agent: [step] raises that exception to its caller
    after the first physics pass and the call of [sense]; the second agent
    is not served, nobody is marked dead or removed, and the step counter
    stays where it was. *)
Theorem step_propagates_sense_failure :
  let e := engine_with small_config empty_runtime [blind_agent "a"; make_agent "b" 10 10 0 0] in
  ∃ e' rt',
    SimulatorEngine.step Qsqrt Qcos Qsin e.1 e.2 = Raises Exception (e', rt')
    ∧ calls_since e.2 rt' = [CallWorldUpdatePhysics; CallPhysicsUpdate; CallSense "a"]
    ∧ SimulatorEngine.agents e' = ["a"; "b"]%string
    ∧ SimulatorEngine.current_step e' = SimulatorEngine.current_step e.1.
Proof.
  intros e. eexists _, _. split; [vm_compute; reflexivity|].
  split; [vm_compute; reflexivity|]. split; vm_compute; reflexivity.
Qed.

(** C8 (counterexample). [add_agent] returns the same value when it
    rejects an agent as when it accepts one. *)
Lemma add_agent_returns_no_status : ¬ rejection_observable_by_return.
Proof.
  intros H.
  pose (full := engine_with tiny_config empty_runtime [make_agent "a" 50 50 0 0]).
  pose (room := SimulatorEngine.__init__ tiny_config empty_runtime).
  refine (H full.1 full.2 (make_agent "b" 10 10 0 0) room.1 room.2 (make_agent "b" 10 10 0 0)
            _ _ _).
  - vm_compute. discriminate.
  - vm_compute. intros C. by apply C.
  - reflexivity.
Qed.

(** C9 (at the failing input). Two runs of one tick from the same
    configuration, random seed 42 included, with the same agent: the agent
    stays at x = 50 in the run that starts from one state of the [random]
    module and moves in the run that starts from another. *)
Theorem same_seed_different_trajectories :
  let agents := [make_agent "a" 50 50 0 0] in
  let run1 := outcome_state (run Qsqrt Qcos Qsin small_config agents calm_rng 1) in
  let run2 := outcome_state (run Qsqrt Qcos Qsin small_config agents windy_rng 1) in
  SimulationConfig.random_seed small_config = Some 42
  ∧ (∃ a, Runtime.objects run1.2 !! "a"%string = Some a
          ∧ (Position.x (Agent.position a) == 50)%Q)
  ∧ (∃ a, Runtime.objects run2.2 !! "a"%string = Some a
          ∧ (50 < Position.x (Agent.position a))%Q)
  ∧ trajectory_point run1.1 run1.2 ≠ trajectory_point run2.1 run2.2.
Proof.
  intros agents run1 run2. split_and!.
  - reflexivity.
  - eexists. split; [vm_compute; reflexivity|]. vm_compute. reflexivity.
  - eexists. split; [vm_compute; reflexivity|]. vm_compute. reflexivity.
  - vm_compute. discriminate.
Qed.

(** ** The event manager and the registry *)

Lemma modify_calls (id : string) (f : Agent.t → Agent.t) (rt : Runtime.t) :
  Runtime.calls (Runtime.modify id f rt) = Runtime.calls rt.
Proof. unfold Runtime.modify. by destruct (Runtime.objects rt !! id). Qed.

Lemma notify_all_calls (ev : Event.t) (hs : list string) (rt : Runtime.t) :
  Runtime.calls (fold_left (EventManager.notify ev) hs rt)
  = Runtime.calls rt ++ map (λ h, CallHandleEvent h ev) hs.
Proof.
  revert rt. induction hs as [|h hs IH]; intros rt; cbn [fold_left map].
  - by rewrite app_nil_r.
  - rewrite IH. unfold EventManager.notify. rewrite modify_calls. cbn.
    by rewrite <- app_assoc.
Qed.

Lemma publish_calls (em : EventManager.t) (rt : Runtime.t) (ev : Event.t) :
  Runtime.calls (EventManager.publish em rt ev).2
  = Runtime.calls rt
    ++ map (λ h, CallHandleEvent h ev)
         (default [] (EventManager._handlers em !! Event.event_type ev)).
Proof.
  unfold EventManager.publish. cbn [snd].
  destruct (EventManager._handlers em !! Event.event_type ev) as [hs|]; cbn [default map].
  - apply notify_all_calls.
  - by rewrite app_nil_r.
Qed.

Lemma publish_handlers (em : EventManager.t) (rt : Runtime.t) (ev : Event.t) :
  EventManager._handlers (EventManager.publish em rt ev).1 = EventManager._handlers em.
Proof. reflexivity. Qed.

Lemma calls_since_app (rt rt' : Runtime.t) (new : list Call) :
  Runtime.calls rt' = Runtime.calls rt ++ new → calls_since rt rt' = new.
Proof. intros H. unfold calls_since. rewrite H. by rewrite drop_app_length. Qed.

Lemma remove_agent_handlers (e : SimulatorEngine.t) (rt : Runtime.t) (id : string) :
  EventManager._handlers (SimulatorEngine.event_manager (SimulatorEngine.remove_agent e rt id).1)
  = EventManager._handlers (SimulatorEngine.event_manager e).
Proof.
  unfold SimulatorEngine.remove_agent. case_bool_decide; [|done].
  unfold EventManager.publish. reflexivity.
Qed.

Lemma dict_del_not_elem (id : string) (keys : list string) : id ∉ dict_del id keys.
Proof. unfold dict_del. rewrite list_elem_of_filter. tauto. Qed.

Lemma dict_del_absent (id : string) (keys : list string) :
  id ∉ keys → dict_del id keys = keys.
Proof.
  unfold dict_del. induction keys as [|k keys IH]; [done|].
  intros Hn. apply not_elem_of_cons in Hn as [Hk Hn].
  rewrite filter_cons_True by done. f_equal. by apply IH.
Qed.

Lemma remove_agent_agents (e : SimulatorEngine.t) (rt : Runtime.t) (id : string) :
  SimulatorEngine.agents (SimulatorEngine.remove_agent e rt id).1
  = dict_del id (SimulatorEngine.agents e).
Proof.
  unfold SimulatorEngine.remove_agent. case_bool_decide as Hin.
  - unfold EventManager.publish. reflexivity.
  - cbn. symmetry. by apply dict_del_absent.
Qed.

Lemma add_agent_subscribes (e : SimulatorEngine.t) (rt : Runtime.t) (a : Agent.t) :
  ¬ at_capacity e →
  ∀ ty, ty = AGENT_SPAWN ∨ ty = ENVIRONMENT_CHANGE →
    ∃ hs, EventManager._handlers
            (SimulatorEngine.event_manager (SimulatorEngine.add_agent e rt a).1.1) !! ty
          = Some hs ∧ Agent.agent_id a ∈ hs.
Proof.
  intros Hroom ty Hty. unfold SimulatorEngine.add_agent.
  destruct (Z.leb_spec (SimulationConfig.max_agents (SimulatorEngine.config e))
              (Z.of_nat (length (SimulatorEngine.agents e)))) as [Hfull|_];
    [by destruct Hroom|].
  destruct (World.add_agent _ _ _) as [w rt1]. cbn.
  destruct Hty as [-> | ->]; cbn.
  - rewrite lookup_insert_ne by done. rewrite lookup_insert_eq.
    eexists. split; [done|]. set_solver.
  - rewrite lookup_insert_eq. eexists. split; [done|].
    rewrite lookup_insert_ne by done. set_solver.
Qed.

(** C8 (amended). When the registry already holds [max_agents] agents,
    [add_agent] returns normally and leaves the engine (registry, world,
    event manager and history) and the store as they were; the value it
    returns is [None], as on acceptance. *)
Theorem add_agent_at_capacity (e : SimulatorEngine.t) (rt : Runtime.t) (a : Agent.t) :
  at_capacity e → SimulatorEngine.add_agent e rt a = (e, rt, tt).
Proof.
  unfold at_capacity, SimulatorEngine.add_agent. intros H.
  by destruct (Z.leb_spec (SimulationConfig.max_agents (SimulatorEngine.config e))
                 (Z.of_nat (length (SimulatorEngine.agents e)))); [|lia].
Qed.

Lemma add_agent_at_capacity_witness :
  let full := engine_with tiny_config empty_runtime [make_agent "a" 50 50 0 0] in
  SimulatorEngine.add_agent full.1 full.2 (make_agent "b" 10 10 0 0) = (full.1, full.2, tt).
Proof.
  intros full. apply (add_agent_at_capacity full.1 full.2 (make_agent "b" 10 10 0 0)).
  vm_compute. discriminate.
Defined.

(** ** What the physics pass changes *)

Lemma kept_refl {B} (f : Agent.t → B) (o : gmap string Agent.t) : kept f o o.
Proof. by intros id. Qed.

Lemma kept_trans {B} (f : Agent.t → B) (o1 o2 o3 : gmap string Agent.t) :
  kept f o1 o2 → kept f o2 o3 → kept f o1 o3.
Proof. intros H1 H2 id. by rewrite H2, H1. Qed.

Lemma kept_insert {B} (f : Agent.t → B) (o : gmap string Agent.t) (id : string)
    (a a' : Agent.t) :
  o !! id = Some a → f a' = f a → kept f o (<[id := a']> o).
Proof.
  intros Ho Hf k. destruct (decide (id = k)) as [<-|Hne].
  - rewrite lookup_insert_eq, Ho. cbn. by rewrite Hf.
  - by rewrite lookup_insert_ne.
Qed.

Lemma kept_lookup {B} (f : Agent.t → B) (o o' : gmap string Agent.t) (id : string) (a : Agent.t) :
  kept f o o' → o !! id = Some a → ∃ a', o' !! id = Some a' ∧ f a' = f a.
Proof.
  intros H Ho. specialize (H id). rewrite Ho in H.
  destruct (o' !! id) as [a'|]; [|done]. exists a'. split; [done|]. by injection H.
Qed.

Lemma kept_lookup_inv {B} (f : Agent.t → B) (o o' : gmap string Agent.t) (id : string)
    (a' : Agent.t) :
  kept f o o' → o' !! id = Some a' → ∃ a, o !! id = Some a ∧ f a' = f a.
Proof.
  intros H Ho. specialize (H id). rewrite Ho in H.
  destruct (o !! id) as [a|]; [|done]. exists a. split; [done|]. by injection H.
Qed.


Lemma cleanup_forces_constants (ph : PhysicsEngine.t) (id : string) :
  physics_constants (PhysicsEngine._cleanup_forces ph id) = physics_constants ph.
Proof. unfold PhysicsEngine._cleanup_forces. by destruct (_ !! id). Qed.

Lemma handle_boundaries_outside (ph : PhysicsEngine.t) (a : Agent.t) (nx ny : Q) :
  outside_physics (PhysicsEngine._handle_boundaries ph a nx ny).1 = outside_physics a.
Proof.
  unfold PhysicsEngine._handle_boundaries.
  destruct (AgentState.velocity (Agent.state a)) as [vx vy].
  by repeat (destruct (Qltb _ _)).
Qed.

Lemma integrate_agent_spec (ph : PhysicsEngine.t) (dt : Q) (id : string) (a : Agent.t) :
  physics_constants (PhysicsEngine.integrate_agent ph dt id a).1.1 = physics_constants ph
  ∧ outside_physics (PhysicsEngine.integrate_agent ph dt id a).1.2 = outside_physics a.
Proof.
  unfold PhysicsEngine.integrate_agent.
  destruct (PhysicsEngine._calculate_total_forces ph id) as [fx fy].
  destruct (AgentState.velocity (Agent.state a)) as [vx vy].
  pose proof (handle_boundaries_outside ph a
    (Position.x (Agent.position a) + (vx + fx * dt) * PhysicsEngine.friction ph * dt)
    (Position.y (Agent.position a) + (vy + fy * dt) * PhysicsEngine.friction ph * dt)) as Hb.
  destruct (PhysicsEngine._handle_boundaries _ _ _ _) as [a1 ev]. cbn [fst] in Hb.
  destruct ev as [ev|]; [destruct (AgentState.velocity (Agent.state a1))|];
    cbn [fst snd]; (split; [apply cleanup_forces_constants | by rewrite <- Hb]).
Qed.

(** The integration loop: calls and generator untouched, objects only
    moved. *)
Lemma integrate_all_frame (dt : Q) (ids : list string) (ph : PhysicsEngine.t) (rt : Runtime.t)
    (evs : list Event.t) :
  let r := fold_left
      (λ '(self, rt, events) agent_id,
         match Runtime.objects rt !! agent_id with
         | Some agent =>
             let '(self, agent, collision_event) :=
               PhysicsEngine.integrate_agent self dt agent_id agent in
             (self,
              Runtime.set_objects (<[agent_id := agent]> (Runtime.objects rt)) rt,
              events ++ option_list collision_event)
         | None => (self, rt, events)
         end)
      ids (ph, rt, evs) in
  physics_constants r.1.1 = physics_constants ph
  ∧ Runtime.calls r.1.2 = Runtime.calls rt
  ∧ Runtime.rng r.1.2 = Runtime.rng rt
  ∧ kept outside_physics (Runtime.objects rt) (Runtime.objects r.1.2).
Proof.
  revert ph rt evs. induction ids as [|id ids IH]; intros ph rt evs; cbn [fold_left].
  - split_and!; try done; apply kept_refl.
  - destruct (Runtime.objects rt !! id) as [a|] eqn:Ha; [|apply IH].
    destruct (integrate_agent_spec ph dt id a) as [Hc Ho].
    destruct (PhysicsEngine.integrate_agent ph dt id a) as [[ph1 a1] ev].
    cbn [fst snd] in Hc, Ho.
    destruct (IH ph1 (Runtime.set_objects (<[id := a1]> (Runtime.objects rt)) rt)
                (evs ++ option_list ev)) as (H1 & H2 & H3 & H4).
    split_and!; [congruence|done|done|].
    eapply kept_trans; [|exact H4]. by eapply kept_insert.
Qed.

Section Collisions.
Variable sqrt : Q → Q.

Lemma resolve_collision_outside (ph : PhysicsEngine.t) (a1 a2 : Agent.t) :
  outside_physics (PhysicsEngine._resolve_collision sqrt ph a1 a2).1 = outside_physics a1
  ∧ outside_physics (PhysicsEngine._resolve_collision sqrt ph a1 a2).2 = outside_physics a2.
Proof.
  unfold PhysicsEngine._resolve_collision.
  destruct (Qeqb _ 0); [done|].
  by destruct (AgentState.velocity (Agent.state a1)), (AgentState.velocity (Agent.state a2)).
Qed.

Lemma check_pair_frame (ph : PhysicsEngine.t) (id1 id2 : string) (rt : Runtime.t)
    (evs : list Event.t) :
  let r := PhysicsEngine.check_pair sqrt ph id1 (rt, evs) id2 in
  Runtime.calls r.1 = Runtime.calls rt
  ∧ Runtime.rng r.1 = Runtime.rng rt
  ∧ kept outside_physics (Runtime.objects rt) (Runtime.objects r.1).
Proof.
  unfold PhysicsEngine.check_pair.
  destruct (Runtime.objects rt !! id1) as [a1|] eqn:H1;
    [|split_and!; try done; apply kept_refl].
  destruct (Runtime.objects rt !! id2) as [a2|] eqn:H2;
    [|split_and!; try done; apply kept_refl].
  destruct (Position.distance_lt _ _ _); [|split_and!; try done; apply kept_refl].
  destruct (resolve_collision_outside ph a1 a2) as [Ho1 Ho2].
  destruct (PhysicsEngine._resolve_collision sqrt ph a1 a2) as [b1 b2].
  cbn [fst snd Runtime.objects Runtime.set_objects Runtime.calls Runtime.rng] in *.
  split_and!; try done.
  eapply kept_trans; [by eapply (kept_insert _ _ id1 a1 b1)|].
  destruct (decide (id1 = id2)) as [<-|Hne].
  - eapply kept_insert; [apply lookup_insert_eq|]. congruence.
  - eapply kept_insert; [by rewrite lookup_insert_ne|done].
Qed.

Lemma check_pairs_frame (ph : PhysicsEngine.t) (id1 : string) (ids : list string)
    (acc : Runtime.t * list Event.t) :
  let r := fold_left (PhysicsEngine.check_pair sqrt ph id1) ids acc in
  Runtime.calls r.1 = Runtime.calls acc.1
  ∧ Runtime.rng r.1 = Runtime.rng acc.1
  ∧ kept outside_physics (Runtime.objects acc.1) (Runtime.objects r.1).
Proof.
  revert acc. induction ids as [|id2 ids IH]; intros [rt evs]; cbn [fold_left].
  - split_and!; try done; apply kept_refl.
  - destruct (check_pair_frame ph id1 id2 rt evs) as (H1 & H2 & H3).
    destruct (IH (PhysicsEngine.check_pair sqrt ph id1 (rt, evs) id2)) as (I1 & I2 & I3).
    cbn [fst] in *. split_and!; [congruence|congruence|by eapply kept_trans].
Qed.

Lemma check_agent_collisions_frame (ph : PhysicsEngine.t) (ids : list string)
    (acc : Runtime.t * list Event.t) :
  let r := PhysicsEngine._check_agent_collisions sqrt ph ids acc in
  Runtime.calls r.1 = Runtime.calls acc.1
  ∧ Runtime.rng r.1 = Runtime.rng acc.1
  ∧ kept outside_physics (Runtime.objects acc.1) (Runtime.objects r.1).
Proof.
  revert acc. induction ids as [|id1 ids IH]; intros acc; cbn [PhysicsEngine._check_agent_collisions].
  - split_and!; try done; apply kept_refl.
  - destruct (check_pairs_frame ph id1 ids acc) as (H1 & H2 & H3).
    destruct (IH (fold_left (PhysicsEngine.check_pair sqrt ph id1) ids acc)) as (I1 & I2 & I3).
    split_and!; [congruence|congruence|by eapply kept_trans].
Qed.

(** [PhysicsEngine.update] logs one call, leaves the generator alone and
    changes nothing of an agent but its position, velocity and health. *)
Lemma physics_update_frame (ph : PhysicsEngine.t) (ids : list string) (rt : Runtime.t) (dt : Q) :
  let r := PhysicsEngine.update sqrt ph ids rt dt in
  physics_constants r.1.1 = physics_constants ph
  ∧ Runtime.calls r.1.2 = Runtime.calls rt ++ [CallPhysicsUpdate]
  ∧ Runtime.rng r.1.2 = Runtime.rng rt
  ∧ kept outside_physics (Runtime.objects rt) (Runtime.objects r.1.2).
Proof.
  unfold PhysicsEngine.update, PhysicsEngine.integrate_all.
  destruct (integrate_all_frame dt ids ph (Runtime.log CallPhysicsUpdate rt) [])
    as (H1 & H2 & H3 & H4).
  destruct (fold_left _ ids _) as [[ph1 rt1] evs].
  destruct (check_agent_collisions_frame ph1 ids (rt1, [])) as (I1 & I2 & I3).
  destruct (PhysicsEngine._check_agent_collisions sqrt ph1 ids (rt1, [])) as [rt2 cev].
  cbn [fst snd Runtime.calls Runtime.log Runtime.rng Runtime.objects] in *.
  split_and!; [done|congruence|congruence|by eapply kept_trans].
Qed.
End Collisions.

(** ** What the world update changes *)

Section WorldFrame.
Variables sqrt cos sin : Q → Q.

Lemma update_environment_frame (w : World.t) (rt : Runtime.t) (dt : Q) :
  let r := World.update_environment cos sin w rt dt in
  World.spatial_grid r.1 = World.spatial_grid w
  ∧ World.agents r.1 = World.agents w
  ∧ physics_constants (World.physics r.1) = physics_constants (World.physics w)
  ∧ Runtime.objects r.2 = Runtime.objects rt
  ∧ Runtime.calls r.2 = Runtime.calls rt ++ [CallUpdateEnvironment].
Proof.
  unfold World.update_environment, Rng.uniform, Rng.random.
  cbn [Runtime.rng Runtime.log Rng.draws Rng.cursor].
  by repeat (destruct (Qltb _ _)).
Qed.

Lemma update_physics_frame (w : World.t) (rt : Runtime.t) (dt : Q) :
  let r := World.update_physics sqrt w rt dt in
  World.spatial_grid r.1.1 = World.refresh_grid w rt
  ∧ World.agents r.1.1 = World.agents w
  ∧ physics_constants (World.physics r.1.1) = physics_constants (World.physics w)
  ∧ Runtime.calls r.1.2 = Runtime.calls rt ++ [CallWorldUpdatePhysics; CallPhysicsUpdate]
  ∧ Runtime.rng r.1.2 = Runtime.rng rt
  ∧ kept outside_physics (Runtime.objects rt) (Runtime.objects r.1.2).
Proof.
  unfold World.update_physics.
  destruct (physics_update_frame sqrt
    (World.physics (World.set_spatial_grid
       (World.refresh_grid w (Runtime.log CallWorldUpdatePhysics rt)) w))
    (World.agents (World.set_spatial_grid
       (World.refresh_grid w (Runtime.log CallWorldUpdatePhysics rt)) w))
    (Runtime.log CallWorldUpdatePhysics rt) dt) as (H1 & H2 & H3 & H4).
  destruct (PhysicsEngine.update sqrt _ _ _ dt) as [[ph rt1] evs].
  cbn [fst snd Runtime.calls Runtime.log Runtime.rng Runtime.objects] in *.
  split_and!; try done. by rewrite H2, <- app_assoc.
Qed.

Lemma update_frame (w : World.t) (rt : Runtime.t) (dt : Q) :
  let r := World.update sqrt cos sin w rt dt in
  World.spatial_grid r.1.1 = World.refresh_grid w rt
  ∧ World.agents r.1.1 = World.agents w
  ∧ physics_constants (World.physics r.1.1) = physics_constants (World.physics w)
  ∧ Runtime.calls r.1.2
    = Runtime.calls rt
      ++ [CallWorldUpdate; CallUpdateEnvironment; CallWorldUpdatePhysics; CallPhysicsUpdate]
  ∧ kept outside_physics (Runtime.objects rt) (Runtime.objects r.1.2).
Proof.
  unfold World.update.
  destruct (update_environment_frame w (Runtime.log CallWorldUpdate rt) dt)
    as (E1 & E2 & E3 & E4 & E5).
  destruct (World.update_environment cos sin w _ dt) as [w1 rt1].
  destruct (update_physics_frame w1 rt1 dt) as (P1 & P2 & P3 & P4 & P5 & P6).
  destruct (World.update_physics sqrt w1 rt1 dt) as [[w2 rt2] evs].
  cbn [fst snd Runtime.calls Runtime.log Runtime.rng Runtime.objects] in *.
  split_and!; [|congruence|congruence| |by rewrite <- E4].
  - rewrite P1. unfold World.refresh_grid. by rewrite E1, E2, E4.
  - rewrite P4, E5. by rewrite <- !app_assoc.
Qed.
End WorldFrame.

(** ** The grid invariant *)

Lemma cell_insert (g : gmap (Z * Z) (gset string)) (c c' : Z * Z) (s : gset string) :
  SpatialGrid.cell (<[c := s]> g) c' = if decide (c = c') then s else SpatialGrid.cell g c'.
Proof.
  unfold SpatialGrid.cell. destruct (decide (c = c')) as [<-|Hne].
  - by rewrite lookup_insert_eq.
  - by rewrite lookup_insert_ne.
Qed.

Lemma grid_wf_init (width height cell_size : Q) :
  grid_wf (SpatialGrid.__init__ width height cell_size).
Proof.
  intros id c. unfold SpatialGrid.cell. cbn. rewrite !lookup_empty. cbn. set_solver.
Qed.

Lemma grid_wf_add_agent (g : SpatialGrid.t) (a : Agent.t) :
  grid_wf g → SpatialGrid.agent_positions g !! Agent.agent_id a = None →
  grid_wf (SpatialGrid.add_agent g a).
Proof.
  unfold grid_wf. intros Hwf Hnew id c. unfold SpatialGrid.add_agent. cbn. rewrite cell_insert.
  destruct (decide (Agent.agent_id a = id)) as [<-|Hid].
  - rewrite lookup_insert_eq. destruct (decide _) as [<-|Hc].
    + set_solver.
    + rewrite Hwf, Hnew. split; [done|]. intros [=]. done.
  - rewrite lookup_insert_ne by done. destruct (decide _) as [<-|Hc]; [|apply Hwf].
    rewrite <- Hwf. set_solver.
Qed.

Lemma grid_wf_remove_agent (g : SpatialGrid.t) (id0 : string) :
  grid_wf g → grid_wf (SpatialGrid.remove_agent g id0).
Proof.
  unfold grid_wf. intros Hwf id c. unfold SpatialGrid.remove_agent.
  destruct (SpatialGrid.agent_positions g !! id0) as [old|] eqn:Hold; [|apply Hwf].
  cbn. rewrite cell_insert.
  destruct (decide (id0 = id)) as [<-|Hid].
  - rewrite lookup_delete_eq. destruct (decide _) as [<-|Hc].
    + set_solver.
    + rewrite Hwf, Hold. split; [|done]. intros [=]. done.
  - rewrite lookup_delete_ne by done. destruct (decide _) as [<-|Hc]; [|apply Hwf].
    rewrite <- Hwf. set_solver.
Qed.

Lemma grid_wf_update_agent (g : SpatialGrid.t) (a : Agent.t) :
  grid_wf g → grid_wf (SpatialGrid.update_agent g a).
Proof.
  intros Hwf. unfold SpatialGrid.update_agent.
  destruct (SpatialGrid.agent_positions g !! Agent.agent_id a) as [old|] eqn:Hold;
    [|by apply grid_wf_add_agent].
  case_bool_decide as Hmoved; [|done].
  set (new := SpatialGrid._get_cell_coords g (Agent.position a)) in *.
  unfold grid_wf in *. intros id c. cbn. rewrite !cell_insert.
  destruct (decide (old = new)) as [?|_]; [done|].
  destruct (decide (Agent.agent_id a = id)) as [<-|Hid].
  - rewrite lookup_insert_eq. destruct (decide (new = c)) as [<-|Hc].
    + set_solver.
    + destruct (decide (old = c)) as [<-|Hc'].
      * split; [set_solver|]. intros [=]. done.
      * rewrite Hwf, Hold. split; intros [=]; done.
  - rewrite lookup_insert_ne by done. destruct (decide (new = c)) as [<-|Hc].
    + rewrite <- Hwf. set_solver.
    + destruct (decide (old = c)) as [<-|Hc']; [|apply Hwf].
      rewrite <- Hwf. set_solver.
Qed.

Lemma update_agent_coords (g : SpatialGrid.t) (a : Agent.t) (p : Position.t) :
  SpatialGrid._get_cell_coords (SpatialGrid.update_agent g a) p
  = SpatialGrid._get_cell_coords g p.
Proof.
  unfold SpatialGrid.update_agent.
  destruct (SpatialGrid.agent_positions g !! Agent.agent_id a); [|done].
  by case_bool_decide.
Qed.

Lemma update_agent_position (g : SpatialGrid.t) (a : Agent.t) :
  SpatialGrid.agent_positions (SpatialGrid.update_agent g a) !! Agent.agent_id a
  = Some (SpatialGrid._get_cell_coords g (Agent.position a)).
Proof.
  unfold SpatialGrid.update_agent.
  destruct (SpatialGrid.agent_positions g !! Agent.agent_id a) as [old|] eqn:Hold.
  - case_bool_decide as Hmoved.
    + cbn. apply lookup_insert_eq.
    + rewrite Hold. f_equal. by destruct (decide (old = SpatialGrid._get_cell_coords g (Agent.position a))).
  - cbn. apply lookup_insert_eq.
Qed.

Lemma update_agent_other (g : SpatialGrid.t) (a : Agent.t) (id : string) :
  Agent.agent_id a ≠ id →
  SpatialGrid.agent_positions (SpatialGrid.update_agent g a) !! id
  = SpatialGrid.agent_positions g !! id.
Proof.
  intros Hne. unfold SpatialGrid.update_agent.
  destruct (SpatialGrid.agent_positions g !! Agent.agent_id a) as [old|] eqn:Hold.
  - case_bool_decide; [|done]. cbn. by rewrite lookup_insert_ne.
  - cbn. by rewrite lookup_insert_ne.
Qed.


Lemma refresh_spec (rt : Runtime.t) (ids : list string) (g : SpatialGrid.t) :
  store_wf rt → grid_wf g →
  grid_wf (refresh rt ids g)
  ∧ (∀ p, SpatialGrid._get_cell_coords (refresh rt ids g) p = SpatialGrid._get_cell_coords g p)
  ∧ (∀ id a, Runtime.objects rt !! id = Some a →
       (id ∈ ids ∨ SpatialGrid.agent_positions g !! id
                   = Some (SpatialGrid._get_cell_coords g (Agent.position a))) →
       SpatialGrid.agent_positions (refresh rt ids g) !! id
       = Some (SpatialGrid._get_cell_coords g (Agent.position a))).
Proof.
  intros Hst. revert g. induction ids as [|k ids IH]; intros g Hwf; cbn [refresh fold_left].
  - split_and!; [done..|]. intros id a Ha [Hin|H]; [by apply elem_of_nil in Hin|done].
  - destruct (Runtime.objects rt !! k) as [b|] eqn:Hb.
    + destruct (IH (SpatialGrid.update_agent g b) (grid_wf_update_agent g b Hwf))
        as (I1 & I2 & I3).
      fold (refresh rt ids (SpatialGrid.update_agent g b)).
      split_and!; [done| |].
      * intros p. by rewrite I2, update_agent_coords.
      * intros id a Ha Hor. rewrite <- (update_agent_coords g b). apply I3; [done|].
        rewrite update_agent_coords.
        destruct (decide (k = id)) as [->|Hne].
        -- right. assert (b = a) as -> by congruence.
           rewrite <- (Hst id a Ha) at 1. apply update_agent_position.
        -- destruct Hor as [Hin|Hpos].
           ++ left. apply elem_of_cons in Hin as [?|?]; [congruence|done].
           ++ right. rewrite update_agent_other; [done|]. rewrite (Hst k b Hb). done.
    + fold (refresh rt ids g). destruct (IH g Hwf) as (I1 & I2 & I3).
      split_and!; [done..|]. intros id a Ha Hor. apply I3; [done|].
      destruct Hor as [Hin|?]; [|by right]. left.
      apply elem_of_cons in Hin as [->|?]; [congruence|done].
Qed.

(** C2 (amended). Take a world whose grid is consistent (an id is in a
    cell exactly when [agent_positions] records that cell for it, which is
    the case as long as no id is added twice) and whose agents are
    registered under their own ids.  After [World.update] every registered
    agent is in exactly one cell of the grid, the cell of the position it
    had when the update began: the grid is refreshed before the physics
    pass moves the agents, not after.  The grid is consistent again after
    the update. *)
Theorem grid_indexes_positions_before_physics
    (sqrt cos sin : Q → Q) (w : World.t) (rt : Runtime.t) (dt : Q) :
  store_wf rt → grid_wf (World.spatial_grid w) →
  indexed_by (World.update sqrt cos sin w rt dt).1.1 rt
  ∧ grid_wf (World.spatial_grid (World.update sqrt cos sin w rt dt).1.1).
Proof.
  intros Hst Hwf.
  destruct (update_frame sqrt cos sin w rt dt) as (Hg & Hag & _).
  destruct (refresh_spec rt (World.agents w) (World.spatial_grid w) Hst Hwf) as (R1 & R2 & R3).
  change (refresh rt (World.agents w) (World.spatial_grid w)) with (World.refresh_grid w rt)
    in R1, R2, R3.
  split; [|by rewrite Hg].
  intros id a Hin Ha c. rewrite Hag in Hin. rewrite Hg.
  unfold grid_wf in R1. rewrite R1, R2, (R3 id a Ha (or_introl Hin)). split; congruence.
Qed.

Lemma grid_indexes_positions_before_physics_witness :
  let w := small_world [make_agent "a" 45 50 100 0] in
  indexed_by (World.update Qsqrt Qcos Qsin w.1 w.2 (1 # 10)).1.1 w.2
  ∧ grid_wf (World.spatial_grid (World.update Qsqrt Qcos Qsin w.1 w.2 (1 # 10)).1.1).
Proof.
  intros w. apply (grid_indexes_positions_before_physics Qsqrt Qcos Qsin w.1 w.2 (1 # 10)).
  - intros id a Ha.
    destruct (decide (id = "a"%string)) as [->|Hne].
    + vm_compute in Ha. by injection Ha as <-.
    + change (Runtime.objects w.2) with (<["a"%string := Agent.set_state
        (AgentState.set_position (Position.mk 45 50) (Agent.state (make_agent "a" 45 50 100 0)))
        (make_agent "a" 45 50 100 0)]> (∅ : gmap string Agent.t)) in Ha.
      rewrite lookup_insert_ne, lookup_empty in Ha by done. done.
  - unfold w, small_world. cbn [fold_left]. unfold World.add_agent. cbn [fst World.spatial_grid World.set_counters World.set_spatial_grid].
    apply grid_wf_add_agent; [apply grid_wf_init|]. reflexivity.
Defined.

(** ** The update with dt = 0 *)

Lemma Qltb_comp (a a' b b' : Q) : (a == a')%Q → (b == b')%Q → Qltb a b = Qltb a' b'.
Proof. intros Ha Hb. unfold Qltb. by rewrite Ha, Hb. Qed.

Lemma distance_lt_comp (p p' q q' : Position.t) (r : Q) :
  same_position p p' → same_position q q' →
  Position.distance_lt p q r = Position.distance_lt p' q' r.
Proof.
  intros [Hx Hy] [Hx' Hy']. unfold Position.distance_lt, Position.dist2. f_equal.
  apply Qltb_comp; [|reflexivity]. by rewrite Hx, Hy, Hx', Hy'.
Qed.

Lemma integrate_agent_zero (ph : PhysicsEngine.t) (id : string) (a : Agent.t) :
  within_world ph (Agent.position a) →
  damped_in_place ph a (PhysicsEngine.integrate_agent ph 0 id a).1.2.
Proof.
  intros [[Hx0 Hx1] [Hy0 Hy1]].
  unfold PhysicsEngine.integrate_agent, PhysicsEngine._handle_boundaries, Agent.position in *.
  destruct (PhysicsEngine._calculate_total_forces ph id) as [fx fy].
  destruct (AgentState.velocity (Agent.state a)) as [vx vy] eqn:Hv.
  set (x := Position.x (AgentState.position (Agent.state a))) in *.
  set (y := Position.y (AgentState.position (Agent.state a))) in *.
  set (f := PhysicsEngine.friction ph).
  assert (Ex : (x + (vx + fx * 0) * f * 0 == x)%Q) by ring.
  assert (Ey : (y + (vy + fy * 0) * f * 0 == y)%Q) by ring.
  rewrite (proj2 (Qltb_ge (x + (vx + fx * 0) * f * 0) 0)) by (rewrite Ex; exact Hx0).
  rewrite (proj2 (Qltb_ge (PhysicsEngine.world_width ph) (x + (vx + fx * 0) * f * 0)))
    by (rewrite Ex; exact Hx1).
  rewrite (proj2 (Qltb_ge (y + (vy + fy * 0) * f * 0) 0)) by (rewrite Ey; exact Hy0).
  rewrite (proj2 (Qltb_ge (PhysicsEngine.world_height ph) (y + (vy + fy * 0) * f * 0)))
    by (rewrite Ey; exact Hy1).
  unfold damped_in_place, same_position, same_velocity, Agent.position. rewrite Hv.
  cbn. subst f. split_and!; try done; ring.
Qed.

Lemma within_world_constants (ph ph' : PhysicsEngine.t) (p : Position.t) :
  physics_constants ph' = physics_constants ph → within_world ph p → within_world ph' p.
Proof. unfold physics_constants, within_world. intros [= -> -> _ _ _]. done. Qed.

Lemma damped_in_place_constants (ph ph' : PhysicsEngine.t) (a a' : Agent.t) :
  physics_constants ph' = physics_constants ph → damped_in_place ph' a a' → damped_in_place ph a a'.
Proof. unfold physics_constants, damped_in_place. intros [= _ _ -> _ _]. done. Qed.

Lemma integrate_all_other (dt : Q) (ids : list string) (ph : PhysicsEngine.t) (rt : Runtime.t)
    (id : string) :
  id ∉ ids →
  Runtime.objects (PhysicsEngine.integrate_all dt ids ph rt).1.2 !! id = Runtime.objects rt !! id.
Proof.
  unfold PhysicsEngine.integrate_all. generalize (@nil Event.t).
  revert ph rt. induction ids as [|k ids IH]; intros ph rt evs Hn; cbn [fold_left]; [done|].
  apply not_elem_of_cons in Hn as [Hk Hn].
  destruct (Runtime.objects rt !! k) as [b|]; [|by apply IH].
  destruct (PhysicsEngine.integrate_agent ph dt k b) as [[ph1 b1] ev].
  rewrite IH by done. cbn. by rewrite lookup_insert_ne.
Qed.

Lemma integrate_all_cons (dt : Q) (k : string) (ids : list string) (ph : PhysicsEngine.t)
    (rt : Runtime.t) (b : Agent.t) :
  Runtime.objects rt !! k = Some b →
  ∃ evs,
    (fold_left
       (λ '(self, rt, events) agent_id,
          match Runtime.objects rt !! agent_id with
          | Some agent =>
              let '(self, agent, collision_event) :=
                PhysicsEngine.integrate_agent self dt agent_id agent in
              (self,
               Runtime.set_objects (<[agent_id := agent]> (Runtime.objects rt)) rt,
               events ++ option_list collision_event)
          | None => (self, rt, events)
          end)
       ids
       ((PhysicsEngine.integrate_agent ph dt k b).1.1,
        Runtime.set_objects
          (<[k := (PhysicsEngine.integrate_agent ph dt k b).1.2]> (Runtime.objects rt)) rt,
        evs)).1.2
    = (PhysicsEngine.integrate_all dt (k :: ids) ph rt).1.2.
Proof.
  intros Hb. unfold PhysicsEngine.integrate_all. cbn [fold_left]. rewrite Hb.
  destruct (PhysicsEngine.integrate_agent ph dt k b) as [[ph1 b1] ev]. by eexists.
Qed.

Lemma fold_integrate_events (dt : Q) (ids : list string) (ph : PhysicsEngine.t)
    (rt : Runtime.t) (evs evs' : list Event.t) :
  let step := λ '(self, rt, events) agent_id,
          match Runtime.objects rt !! agent_id with
          | Some agent =>
              let '(self, agent, collision_event) :=
                PhysicsEngine.integrate_agent self dt agent_id agent in
              (self,
               Runtime.set_objects (<[agent_id := agent]> (Runtime.objects rt)) rt,
               (events : list Event.t) ++ option_list collision_event)
          | None => (self, rt, events)
          end in
  (fold_left step ids (ph, rt, evs)).1.2 = (fold_left step ids (ph, rt, evs')).1.2.
Proof.
  cbn zeta. revert ph rt evs evs'. induction ids as [|k ids IH]; intros ph rt evs evs';
    cbn [fold_left]; [done|].
  destruct (Runtime.objects rt !! k) as [b|]; [|apply IH].
  destruct (PhysicsEngine.integrate_agent ph dt k b) as [[ph1 b1] ev]. apply IH.
Qed.

Lemma integrate_all_zero (ids : list string) (ph : PhysicsEngine.t) (rt : Runtime.t) :
  NoDup ids →
  ∀ id a, id ∈ ids → Runtime.objects rt !! id = Some a →
    within_world ph (Agent.position a) →
    ∃ a', Runtime.objects (PhysicsEngine.integrate_all 0 ids ph rt).1.2 !! id = Some a'
          ∧ damped_in_place ph a a'.
Proof.
  intros Hnd. revert ph rt. induction Hnd as [|k ids Hk Hnd IH]; intros ph rt id a Hin Ha Hw.
  { by apply elem_of_nil in Hin. }
  destruct (Runtime.objects rt !! k) as [b|] eqn:Hb.
  - destruct (integrate_all_cons 0 k ids ph rt b Hb) as [evs <-].
    rewrite (fold_integrate_events 0 ids _ _ evs []).
    destruct (integrate_agent_spec ph 0 k b) as [Hc _].
    change (fold_left _ ids (?p, ?r, [])) with (PhysicsEngine.integrate_all 0 ids p r).
    destruct (decide (k = id)) as [->|Hne].
    + assert (b = a) as -> by congruence.
      rewrite integrate_all_other by done. cbn. rewrite lookup_insert_eq.
      eexists. split; [done|]. by apply integrate_agent_zero.
    + apply elem_of_cons in Hin as [?|Hin]; [congruence|].
      destruct (IH (PhysicsEngine.integrate_agent ph 0 k b).1.1
                  (Runtime.set_objects
                     (<[k := (PhysicsEngine.integrate_agent ph 0 k b).1.2]> (Runtime.objects rt)) rt)
                  id a Hin) as (a' & Ha' & Hd).
      * cbn. by rewrite lookup_insert_ne.
      * by eapply within_world_constants.
      * exists a'. split; [done|]. by eapply damped_in_place_constants.
  - apply elem_of_cons in Hin as [?|Hin]; [congruence|].
    unfold PhysicsEngine.integrate_all. cbn [fold_left]. rewrite Hb. by apply IH.
Qed.

Section ZeroDt.
Variables sqrt cos sin : Q → Q.

Lemma check_pair_apart (ph : PhysicsEngine.t) (id1 id2 : string) (rt : Runtime.t)
    (evs : list Event.t) :
  (∀ a1 a2, Runtime.objects rt !! id1 = Some a1 → Runtime.objects rt !! id2 = Some a2 →
     Position.distance_lt (Agent.position a1) (Agent.position a2)
       (PhysicsEngine.collision_radius ph * 2) = false) →
  PhysicsEngine.check_pair sqrt ph id1 (rt, evs) id2 = (rt, evs).
Proof.
  intros H. unfold PhysicsEngine.check_pair.
  destruct (Runtime.objects rt !! id1) as [a1|]; [|done].
  destruct (Runtime.objects rt !! id2) as [a2|]; [|done].
  by rewrite (H a1 a2).
Qed.

Lemma check_agent_collisions_apart (ph : PhysicsEngine.t) (ids : list string) (rt : Runtime.t)
    (evs : list Event.t) :
  NoDup ids → no_contact ph rt ids →
  PhysicsEngine._check_agent_collisions sqrt ph ids (rt, evs) = (rt, evs).
Proof.
  intros Hnd. induction Hnd as [|k ids Hk Hnd IH]; intros Hno; [done|].
  cbn [PhysicsEngine._check_agent_collisions].
  assert (Hrow : ∀ l, l ⊆ ids → fold_left (PhysicsEngine.check_pair sqrt ph k) l (rt, evs) = (rt, evs)).
  { induction l as [|j l IHl]; intros Hsub; cbn [fold_left]; [done|].
    rewrite check_pair_apart.
    - apply IHl. intros z Hz. apply Hsub. by right.
    - intros a1 a2 H1 H2. apply (Hno k j a1 a2); try done.
      + by left.
      + right. apply Hsub. by left.
      + intros ->. apply Hk, Hsub. by left. }
  rewrite Hrow by done. apply IH.
  intros id1 id2 a1 a2 H1 H2. apply Hno; by right.
Qed.

(** A physics pass with dt = 0 over agents inside the world, no two of
    them in contact. *)
Lemma physics_update_zero (ph : PhysicsEngine.t) (ids : list string) (rt : Runtime.t) :
  NoDup ids → positions_within_world ph rt ids → no_contact ph rt ids →
  ∀ id a, id ∈ ids → Runtime.objects rt !! id = Some a →
    ∃ a', Runtime.objects (PhysicsEngine.update sqrt ph ids rt 0).1.2 !! id = Some a'
          ∧ damped_in_place ph a a'.
Proof.
  intros Hnd Hin Hno id a Hid Ha. unfold PhysicsEngine.update.
  set (rt0 := Runtime.log CallPhysicsUpdate rt).
  assert (Hz : ∀ id a, id ∈ ids → Runtime.objects rt !! id = Some a →
            ∃ a', Runtime.objects (PhysicsEngine.integrate_all 0 ids ph rt0).1.2 !! id = Some a'
                  ∧ damped_in_place ph a a').
  { intros j b Hj Hb. apply integrate_all_zero; try done. by eapply Hin. }
  destruct (integrate_all_frame 0 ids ph rt0 []) as (Hc & _ & _ & Hk).
  fold (PhysicsEngine.integrate_all 0 ids ph rt0) in Hc, Hk |- *.
  destruct (PhysicsEngine.integrate_all 0 ids ph rt0) as [[ph1 rt1] evs] eqn:E.
  cbn [fst snd] in *.
  rewrite check_agent_collisions_apart; [by apply Hz|done|].
  intros id1 id2 b1 b2 H1 H2 Hne Hb1 Hb2.
  destruct (kept_lookup_inv _ _ _ _ _ Hk Hb1) as (a1 & Ha1 & _).
  destruct (kept_lookup_inv _ _ _ _ _ Hk Hb2) as (a2 & Ha2 & _).
  destruct (Hz id1 a1 H1 Ha1) as (b1' & Hb1' & [Hp1 _]).
  destruct (Hz id2 a2 H2 Ha2) as (b2' & Hb2' & [Hp2 _]).
  assert (b1' = b1) as -> by congruence. assert (b2' = b2) as -> by congruence.
  rewrite (distance_lt_comp _ _ _ _ _ Hp1 Hp2).
  replace (PhysicsEngine.collision_radius ph1) with (PhysicsEngine.collision_radius ph)
    by (unfold physics_constants in Hc; congruence).
  exact (Hno id1 id2 a1 a2 H1 H2 Hne Ha1 Ha2).
Qed.

(** [World.update] runs the physics pass on the store it was given. *)
Lemma update_objects (w : World.t) (rt : Runtime.t) (dt : Q) :
  ∃ ph' rt',
    physics_constants ph' = physics_constants (World.physics w)
    ∧ Runtime.objects rt' = Runtime.objects rt
    ∧ Runtime.objects (World.update sqrt cos sin w rt dt).1.2
      = Runtime.objects (PhysicsEngine.update sqrt ph' (World.agents w) rt' dt).1.2.
Proof.
  unfold World.update.
  destruct (update_environment_frame cos sin w (Runtime.log CallWorldUpdate rt) dt)
    as (_ & E2 & E3 & E4 & _).
  destruct (World.update_environment cos sin w _ dt) as [w1 rt1]. cbn [fst snd] in *.
  exists (World.physics w1), (Runtime.log CallWorldUpdatePhysics rt1).
  split_and!; [done|done|].
  unfold World.update_physics. cbn [World.physics World.agents World.set_spatial_grid].
  rewrite E2. by destruct (PhysicsEngine.update _ _ _ _ _) as [[? ?] ?].
Qed.

(** C4 (amended). [World.update] with dt = 0 leaves the energy of every
    agent as it was.  When the agents are inside the world and no two of
    them are in contact it also leaves every position as it was, and
    multiplies every velocity by the friction coefficient: friction is
    applied once per update, whatever dt is. *)
Theorem zero_dt_update_keeps_energy_and_place (w : World.t) (rt : Runtime.t) :
  NoDup (World.agents w) →
  ∀ id a, id ∈ World.agents w → Runtime.objects rt !! id = Some a →
    ∃ a', Runtime.objects (World.update sqrt cos sin w rt 0).1.2 !! id = Some a'
          ∧ AgentState.energy (Agent.state a') = AgentState.energy (Agent.state a)
          ∧ (positions_within_world (World.physics w) rt (World.agents w) →
             no_contact (World.physics w) rt (World.agents w) →
             damped_in_place (World.physics w) a a').
Proof.
  intros Hnd id a Hid Ha.
  destruct (update_frame sqrt cos sin w rt 0) as (_ & _ & _ & _ & Hk).
  destruct (kept_lookup _ _ _ _ _ Hk Ha) as (a' & Ha' & Hout).
  exists a'. split_and!; [done|unfold outside_physics in Hout; congruence|].
  intros Hin Hno.
  destruct (update_objects w rt 0) as (ph' & rt' & Hc & Ho & Hu).
  rewrite Hu in Ha'.
  destruct (physics_update_zero ph' (World.agents w) rt' Hnd) with (id := id) (a := a)
    as (a'' & Ha'' & Hd).
  - intros j b Hj Hb. rewrite Ho in Hb. eapply within_world_constants; [done|by eapply Hin].
  - intros id1 id2 a1 a2 H1 H2 Hne Hb1 Hb2. rewrite Ho in Hb1, Hb2.
    replace (PhysicsEngine.collision_radius ph') with (PhysicsEngine.collision_radius (World.physics w))
      by (unfold physics_constants in Hc; congruence).
    exact (Hno id1 id2 a1 a2 H1 H2 Hne Hb1 Hb2).
  - done.
  - by rewrite Ho.
  - assert (a'' = a') as -> by congruence. by eapply damped_in_place_constants.
Qed.
End ZeroDt.

Lemma zero_dt_update_keeps_energy_and_place_witness :
  let w := small_world [make_agent "a" 50 50 10 0] in
  ∃ a', Runtime.objects (World.update Qsqrt Qcos Qsin w.1 w.2 0).1.2 !! "a"%string = Some a'
        ∧ AgentState.energy (Agent.state a') = 100%Q
        ∧ damped_in_place (World.physics w.1) (make_agent "a" 50 50 10 0) a'.
Proof.
  intros w.
  destruct (zero_dt_update_keeps_energy_and_place Qsqrt Qcos Qsin w.1 w.2) with
    (id := "a"%string) (a := make_agent "a" 50 50 10 0) as (a' & Ha' & He & Hd).
  - vm_compute. apply NoDup_singleton.
  - vm_compute. set_solver.
  - vm_compute. reflexivity.
  - exists a'. split_and!; [done|done|]. apply Hd.
    + intros id a Hin Ha. change (World.agents w.1) with ["a"%string] in Hin.
      list_cases Hin. vm_compute in Ha. injection Ha as <-. vm_compute. intuition discriminate.
    + intros id1 id2 a1 a2 H1 H2 Hne. change (World.agents w.1) with ["a"%string] in H1, H2.
      list_cases H1. list_cases H2. done.
Defined.

(** ** One tick of the engine *)

Lemma run_callbacks_spec (phase : string) (index : nat) (callbacks : list Callback)
    (rt : Runtime.t) :
  let r := SimulatorEngine.run_callbacks phase index callbacks rt in
  (∃ new, Runtime.calls r.1 = Runtime.calls rt ++ new ∧ Forall (λ c, is_callback c = true) new)
  ∧ Runtime.objects r.1 = Runtime.objects rt
  ∧ (callbacks_return callbacks → r.2 = None).
Proof.
  revert index rt. induction callbacks as [|cb cbs IH]; intros index rt;
    cbn [SimulatorEngine.run_callbacks].
  - split_and!; [|done..]. exists []. by rewrite app_nil_r.
  - destruct cb.
    + destruct (IH (S index) (Runtime.log (CallCallback phase index) rt))
        as ((new & Hnew & Hall) & Ho & Hret).
      split_and!.
      * exists (CallCallback phase index :: new). rewrite Hnew. cbn.
        rewrite <- app_assoc. split; [done|]. by constructor.
      * by rewrite Ho.
      * intros Hcb. apply Hret. by inversion Hcb.
    + split_and!; [|done|].
      * exists [CallCallback phase index]. split; [done|]. by repeat constructor.
      * intros Hcb. by inversion Hcb.
Qed.

Lemma try_update_spec (e : SimulatorEngine.t) (rt : Runtime.t) (id : string) (a : Agent.t)
    (obs : Observations) :
  Runtime.objects rt !! id = Some a →
  match SimulatorEngine.try_update e rt id a obs with
  | Returns r =>
      Runtime.calls r.1
      = Runtime.calls rt ++ CallAgentUpdate id :: (if r.2 then [] else [CaughtAgentError id])
      ∧ kept Agent.behaviour (Runtime.objects rt) (Runtime.objects r.1)
      ∧ (∀ k, k ≠ id → Runtime.objects r.1 !! k = Runtime.objects rt !! k)
  | Raises x r =>
      x ≠ Exception
      ∧ (∃ s, Agent.update (Agent.behaviour a)
                (SimulationConfig.time_step (SimulatorEngine.config e)) obs
                (Agent.state a, Agent.memory a) = Raises x s)
      ∧ Runtime.calls r.1 = Runtime.calls rt ++ [CallAgentUpdate id]
      ∧ kept Agent.behaviour (Runtime.objects rt) (Runtime.objects r.1)
  end.
Proof.
  intros Ha. unfold SimulatorEngine.try_update.
  destruct (Agent.update _ _ _ _) as [[s m]|x [s m]] eqn:Hu; [|destruct x]; cbn.
  - split; [done|]. split; [by eapply kept_insert|].
    intros k Hk. by rewrite lookup_insert_ne.
  - split; [by rewrite <- app_assoc|]. split; [by eapply kept_insert|].
    intros k Hk. by rewrite lookup_insert_ne.
  - split; [done|]. split; [by eexists|]. split; [done|]. by eapply kept_insert.
  - split; [done|]. split; [by eexists|]. split; [done|]. by eapply kept_insert.
Qed.

Lemma updates_raise_exceptions_only_kept (rt rt' : Runtime.t) :
  kept Agent.behaviour (Runtime.objects rt) (Runtime.objects rt') →
  updates_raise_exceptions_only rt → updates_raise_exceptions_only rt'.
Proof.
  intros Hk Hu id a' Ha' dt obs s x s' Hraise.
  destruct (kept_lookup_inv _ _ _ _ _ Hk Ha') as (a & Ha & Hb).
  apply (Hu id a Ha dt obs s x s'). by rewrite <- Hb.
Qed.

Lemma sense_never_raises_kept (rt rt' : Runtime.t) :
  kept Agent.behaviour (Runtime.objects rt) (Runtime.objects rt') →
  sense_never_raises rt → sense_never_raises rt'.
Proof.
  intros Hk Hs id a' f Ha' Hf.
  destruct (kept_lookup_inv _ _ _ _ _ Hk Ha') as (a & Ha & Hb).
  apply (Hs id a f Ha). by rewrite <- Hb.
Qed.

Lemma kept_outside_behaviour (o o' : gmap string Agent.t) :
  kept outside_physics o o' → kept Agent.behaviour o o'.
Proof.
  intros H id. specialize (H id).
  destruct (o !! id), (o' !! id); cbn in *; try done.
  unfold outside_physics in H. congruence.
Qed.

Lemma kept_is_Some {B} (f : Agent.t → B) (o o' : gmap string Agent.t) (id : string) :
  kept f o o' → is_Some (o !! id) → is_Some (o' !! id).
Proof.
  intros H [a Ha]. destruct (kept_lookup _ _ _ _ _ H Ha) as (a' & Ha' & _). by exists a'.
Qed.

Section Step.
Variables sqrt cos sin : Q → Q.

(** The loop over the agents, when it runs to its end. *)
Lemma update_agents_spec (e : SimulatorEngine.t) (ids : list string) (rt : Runtime.t)
    (dead : list string) (rt' : Runtime.t) (dead' : list string) :
  SimulatorEngine.update_agents sqrt e ids rt dead = Returns (rt', dead') →
  ∃ turns more,
    Runtime.calls rt' = Runtime.calls rt ++ turns
    ∧ dead' = dead ++ more
    ∧ Forall (λ c, is_agent_turn c = true) turns
    ∧ kept Agent.behaviour (Runtime.objects rt) (Runtime.objects rt')
    ∧ (∀ id, CaughtAgentError id ∈ turns → id ∈ more)
    ∧ (∀ id, id ∈ ids → is_Some (Runtime.objects rt !! id) →
         CallAgentUpdate id ∈ turns ∨ id ∈ more).
Proof.
  revert rt dead. induction ids as [|k ids IH]; intros rt dead Hrun;
    cbn [SimulatorEngine.update_agents] in Hrun.
  { injection Hrun as <- <-. exists [], []. rewrite !app_nil_r.
    split_and!; try done.
    - intros id Hin. by apply elem_of_nil in Hin.
    - intros id Hin. by apply elem_of_nil in Hin. }
  destruct (Runtime.objects rt !! k) as [a|] eqn:Ha.
  - destruct (negb (Agent.is_alive a)).
    + destruct (IH _ _ Hrun) as (turns & more & H1 & H2 & H3 & H4 & H5 & H6).
      exists turns, (k :: more). split_and!; try done.
      * by rewrite H2, <- app_assoc.
      * intros id Hid. right. by apply H5.
      * intros id Hin Hsome. apply elem_of_cons in Hin as [->|Hin]; [right; by left|].
        destruct (H6 id Hin Hsome); [by left|right; by right].
    + destruct (Agent_sense sqrt a (SimulatorEngine.world e) _) as [x|obs]; [done|].
      pose proof (try_update_spec e (Runtime.log (CallSense k) rt) k a obs Ha) as T.
      destruct (SimulatorEngine.try_update e _ k a obs) as [[rt1 ok]|x [rt1 ok]]; [|done].
      destruct T as (T1 & T2 & _).
      cbn [fst snd Runtime.calls Runtime.log Runtime.objects] in T1, T2.
      destruct (IH _ _ Hrun) as (turns & more & H1 & H2 & H3 & H4 & H5 & H6).
      destruct ok.
      * exists (CallSense k :: CallAgentUpdate k :: turns), more.
        split_and!; try done.
        -- rewrite H1, T1. by rewrite <- !app_assoc.
        -- by repeat constructor.
        -- by eapply kept_trans.
        -- intros id Hid. apply H5.
           apply elem_of_cons in Hid as [?|Hid]; [done|].
           apply elem_of_cons in Hid as [?|Hid]; [done|]. done.
        -- intros id Hin Hsome. apply elem_of_cons in Hin as [->|Hin].
           ++ left. right. by left.
           ++ destruct (H6 id Hin (kept_is_Some _ _ _ _ T2 Hsome)); [|by right].
              left. right. by right.
      * exists (CallSense k :: CallAgentUpdate k :: CaughtAgentError k :: turns), (k :: more).
        split_and!; try done.
        -- rewrite H1, T1. by rewrite <- !app_assoc.
        -- by rewrite H2, <- app_assoc.
        -- by repeat constructor.
        -- by eapply kept_trans.
        -- intros id Hid.
           apply elem_of_cons in Hid as [?|Hid]; [done|].
           apply elem_of_cons in Hid as [?|Hid]; [done|].
           apply elem_of_cons in Hid as [[= ->]|Hid]; [by left|]. right. by apply H5.
        -- intros id Hin Hsome. apply elem_of_cons in Hin as [->|Hin]; [right; by left|].
           destruct (H6 id Hin (kept_is_Some _ _ _ _ T2 Hsome)); [|right; by right].
           left. do 3 right. done.
  - destruct (IH _ _ Hrun) as (turns & more & H1 & H2 & H3 & H4 & H5 & H6).
    exists turns, more. split_and!; try done.
    intros id Hin Hsome. apply elem_of_cons in Hin as [->|Hin]; [|by apply H6].
    rewrite Ha in Hsome. by destruct Hsome.
Qed.

(** The loop runs to its end when no [sense] raises and no [update]
    raises anything but an [Exception]. *)
Lemma update_agents_returns (e : SimulatorEngine.t) (ids : list string) (rt : Runtime.t)
    (dead : list string) :
  sense_never_raises rt → updates_raise_exceptions_only rt →
  ∃ s, SimulatorEngine.update_agents sqrt e ids rt dead = Returns s.
Proof.
  revert rt dead. induction ids as [|k ids IH]; intros rt dead Hs Hu;
    cbn [SimulatorEngine.update_agents]; [by eexists|].
  destruct (Runtime.objects rt !! k) as [a|] eqn:Ha; [|by apply IH].
  destruct (negb (Agent.is_alive a)); [by apply IH|].
  assert (Hobs : ∃ obs, Agent_sense sqrt a (SimulatorEngine.world e)
                          (Runtime.log (CallSense k) rt) = inr obs).
  { unfold Agent_sense. destruct (Agent.sense_override (Agent.behaviour a)) as [f|] eqn:Hf;
      [|by eexists]. by eapply Hs. }
  destruct Hobs as [obs ->].
  pose proof (try_update_spec e (Runtime.log (CallSense k) rt) k a obs Ha) as T.
  destruct (SimulatorEngine.try_update e _ k a obs) as [[rt1 ok]|x [rt1 ok]].
  - destruct T as (_ & T2 & _).
    apply IH; [by eapply sense_never_raises_kept|by eapply updates_raise_exceptions_only_kept].
  - destruct T as (Hx & (s & Hraise) & _). destruct Hx. by eapply Hu.
Qed.

(** Whatever way the loop ends, it logs turns only and keeps the objects
    and what they do. *)
Lemma update_agents_frame (e : SimulatorEngine.t) (ids : list string) (rt : Runtime.t)
    (dead : list string) :
  let r := outcome_state (SimulatorEngine.update_agents sqrt e ids rt dead) in
  kept Agent.behaviour (Runtime.objects rt) (Runtime.objects r.1)
  ∧ ∃ turns, Runtime.calls r.1 = Runtime.calls rt ++ turns
             ∧ Forall (λ c, is_agent_turn c = true) turns.
Proof.
  revert rt dead. induction ids as [|k ids IH]; intros rt dead;
    cbn [SimulatorEngine.update_agents].
  { split; [apply kept_refl|]. exists []. by rewrite app_nil_r. }
  destruct (Runtime.objects rt !! k) as [a|] eqn:Ha; [|apply IH].
  destruct (negb (Agent.is_alive a)); [apply IH|].
  destruct (Agent_sense sqrt a (SimulatorEngine.world e) _) as [x|obs].
  { cbn. split; [apply kept_refl|]. exists [CallSense k]. split; [done|]. by repeat constructor. }
  pose proof (try_update_spec e (Runtime.log (CallSense k) rt) k a obs Ha) as T.
  destruct (SimulatorEngine.try_update e _ k a obs) as [[rt1 ok]|x [rt1 ok]].
  - destruct T as (T1 & T2 & _).
    cbn [fst snd Runtime.calls Runtime.log Runtime.objects] in T1, T2.
    destruct (IH rt1 (if ok then dead else dead ++ [k])) as (K & turns & C & F).
    split; [by eapply kept_trans|].
    exists (CallSense k :: CallAgentUpdate k :: (if ok then [] else [CaughtAgentError k]) ++ turns).
    split.
    + rewrite C, T1. rewrite <- !app_assoc. done.
    + constructor; [done|]. constructor; [done|]. apply Forall_app. split; [|done].
      destruct ok; by repeat constructor.
  - destruct T as (_ & _ & T1 & T2).
    cbn [fst snd Runtime.calls Runtime.log Runtime.objects outcome_state] in *.
    split; [done|]. exists [CallSense k; CallAgentUpdate k].
    split; [by rewrite T1, <- app_assoc|]. by repeat constructor.
Qed.
End Step.


Lemma remove_agent_spec (e : SimulatorEngine.t) (rt : Runtime.t) (id : string) :
  let r := SimulatorEngine.remove_agent e rt id in
  engine_settings r.1 = engine_settings e
  ∧ ∃ new, Runtime.calls r.2 = Runtime.calls rt ++ new
           ∧ Forall (λ c, is_removal c = true) new.
Proof.
  unfold SimulatorEngine.remove_agent. case_bool_decide.
  - pose proof (publish_calls (SimulatorEngine.event_manager
        (SimulatorEngine.set_world (World.remove_agent (SimulatorEngine.world e) id) e))
      (Runtime.log (CallRemoveAgent id) rt)) as Hp.
    match goal with |- context [EventManager.publish ?em ?r ?ev] =>
      specialize (Hp ev); destruct (EventManager.publish em r ev) as [em' rt'] end.
    cbn [fst snd Runtime.calls Runtime.log] in *. split; [done|].
    eexists. rewrite Hp, <- app_assoc. split; [done|].
    constructor; [done|]. apply Forall_forall. intros c Hc.
    apply in_map_iff in Hc as (h & <- & _). done.
  - split; [done|]. exists [CallRemoveAgent id]. split; [done|]. by repeat constructor.
Qed.

Lemma remove_agents_spec (dead : list string) (e : SimulatorEngine.t) (rt : Runtime.t) :
  let r := SimulatorEngine.remove_agents e rt dead in
  engine_settings r.1 = engine_settings e
  ∧ (∃ new, Runtime.calls r.2 = Runtime.calls rt ++ new
            ∧ Forall (λ c, is_removal c = true) new)
  ∧ (∀ id, id ∈ SimulatorEngine.agents r.1 → id ∈ SimulatorEngine.agents e ∧ id ∉ dead).
Proof.
  unfold SimulatorEngine.remove_agents.
  revert e rt. induction dead as [|k dead IH]; intros e rt; cbn [fold_left].
  - split_and!; [done| |].
    + exists []. by rewrite app_nil_r.
    + intros id Hin. split; [done|]. apply not_elem_of_nil.
  - destruct (remove_agent_spec e rt k) as (S1 & new1 & C1 & F1).
    pose proof (remove_agent_agents e rt k) as A1.
    destruct (SimulatorEngine.remove_agent e rt k) as [e1 rt1]. cbn [fst snd] in *.
    destruct (IH e1 rt1) as (S2 & (new2 & C2 & F2) & A2).
    split_and!; [congruence| |].
    + exists (new1 ++ new2). rewrite C2, C1, <- app_assoc. split; [done|].
      by apply Forall_app.
    + intros id Hin. destruct (A2 id Hin) as [Hi Hn]. rewrite A1 in Hi.
      unfold dict_del in Hi. apply list_elem_of_filter in Hi as [Hne Hi].
      split; [done|]. apply not_elem_of_cons. done.
Qed.

Section StepWhole.
Variables sqrt cos sin : Q → Q.

(** The shape of a tick that returns. *)
Lemma step_spec (e : SimulatorEngine.t) (rt : Runtime.t) (e' : SimulatorEngine.t)
    (rt' : Runtime.t) :
  SimulatorEngine.paused e = false →
  SimulatorEngine.step sqrt cos sin e rt = Returns (e', rt') →
  ∃ (starts turns : list Call) (dead : list string) (removals ends : list Call),
    Runtime.calls rt'
    = Runtime.calls rt ++ starts ++ early_physics_calls e ++ turns ++ removals
      ++ world_update_calls ++ ends
    ∧ Forall (λ c, is_callback c = true) starts
    ∧ Forall (λ c, is_agent_turn c = true) turns
    ∧ Forall (λ c, is_removal c = true) removals
    ∧ Forall (λ c, is_callback c = true) ends
    ∧ (∀ id, CaughtAgentError id ∈ turns → id ∈ dead)
    ∧ (∀ id, id ∈ SimulatorEngine.agents e → is_Some (Runtime.objects rt !! id) →
         CallAgentUpdate id ∈ turns ∨ id ∈ dead)
    ∧ (∀ id, id ∈ SimulatorEngine.agents e' → id ∈ SimulatorEngine.agents e ∧ id ∉ dead)
    ∧ SimulatorEngine.current_step e' = SimulatorEngine.current_step e + 1.
Proof.
  intros Hp Hstep. unfold SimulatorEngine.step in Hstep. rewrite Hp in Hstep.
  destruct (run_callbacks_spec "step_start" 0 (SimulatorEngine.step_start e) rt)
    as ((starts & Cs & Fs) & Os & _).
  destruct (SimulatorEngine.run_callbacks "step_start" 0 _ rt) as [rt1 raised1].
  cbn [fst snd] in *. destruct raised1; [done|].
  set (dt := SimulationConfig.time_step (SimulatorEngine.config e)) in *.
  assert (∃ e2 rt2,
    (if SimulationConfig.enable_physics (SimulatorEngine.config e)
     then let '(w, rt, _) := World.update_physics sqrt (SimulatorEngine.world e) rt1 dt in
          (SimulatorEngine.set_world w e, rt)
     else (e, rt1)) = (e2, rt2)
    ∧ engine_settings e2 = engine_settings e
    ∧ SimulatorEngine.agents e2 = SimulatorEngine.agents e
    ∧ Runtime.calls rt2 = Runtime.calls rt1 ++ early_physics_calls e
    ∧ kept Agent.behaviour (Runtime.objects rt1) (Runtime.objects rt2)) as
    (e2 & rt2 & E2 & S2 & A2 & C2 & K2).
  { unfold early_physics_calls.
    destruct (SimulationConfig.enable_physics (SimulatorEngine.config e)).
    - destruct (update_physics_frame sqrt (SimulatorEngine.world e) rt1 dt)
        as (_ & _ & _ & Hc & _ & Hk).
      destruct (World.update_physics sqrt (SimulatorEngine.world e) rt1 dt) as [[w rtp] evs].
      cbn [fst snd] in *. eexists _, _. split; [done|].
      split_and!; try done. by apply kept_outside_behaviour.
    - exists e, rt1. rewrite app_nil_r. split_and!; try done. }
  rewrite E2 in Hstep.
  destruct (SimulatorEngine.update_agents sqrt e2 (SimulatorEngine.agents e2) rt2 [])
    as [[rt3 dead]|x [rt3 dead]] eqn:Hloop; [|done].
  destruct (update_agents_spec sqrt _ _ _ _ _ _ Hloop)
    as (turns & more & C3 & D3 & F3 & K3 & G3 & T3).
  cbn [app] in D3. subst more.
  destruct (remove_agents_spec dead e2 rt3) as (S4 & (removals & C4 & F4) & A4).
  destruct (SimulatorEngine.remove_agents e2 rt3 dead) as [e4 rt4]. cbn [fst snd] in *.
  destruct (update_frame sqrt cos sin (SimulatorEngine.world e4) rt4 dt)
    as (_ & _ & _ & C5 & _).
  destruct (World.update sqrt cos sin (SimulatorEngine.world e4) rt4 _) as [[w5 rt5] evs5].
  cbn [fst snd] in *.
  match type of Hstep with context [SimulatorEngine.run_callbacks ?p ?i ?cbs ?r] =>
    destruct (run_callbacks_spec p i cbs r) as ((ends & C6 & F6) & _ & _);
    destruct (SimulatorEngine.run_callbacks p i cbs r) as [rt6 raised6] end.
  cbn [fst snd] in *. destruct raised6; [done|]. injection Hstep as <- <-.
  exists starts, turns, dead, removals, ends. split_and!; try done.
  - rewrite C6, C5, C4, C3, C2, Cs. unfold world_update_calls. by rewrite <- !app_assoc.
  - intros id Hin Hsome. apply T3; [by rewrite A2|].
    eapply kept_is_Some; [exact K2|]. by rewrite Os.
  - intros id Hin. cbn in Hin. destruct (A4 id Hin) as [Hi Hn]. by rewrite <- A2.
  - cbn. unfold engine_settings in S2, S4. congruence.
Qed.

(** A tick returns when no callback and no [sense] raises and no [update]
    raises anything but an [Exception]. *)
Lemma step_returns (e : SimulatorEngine.t) (rt : Runtime.t) :
  callbacks_return (SimulatorEngine.step_start e) →
  callbacks_return (SimulatorEngine.step_end e) →
  sense_never_raises rt →
  updates_raise_exceptions_only rt →
  ∃ s, SimulatorEngine.step sqrt cos sin e rt = Returns s.
Proof.
  intros Hs He Hsense Hupd. unfold SimulatorEngine.step.
  destruct (SimulatorEngine.paused e); [by eexists|].
  destruct (run_callbacks_spec "step_start" 0 (SimulatorEngine.step_start e) rt)
    as (_ & Os & Hok).
  destruct (SimulatorEngine.run_callbacks "step_start" 0 _ rt) as [rt1 raised1].
  cbn [fst snd] in *. rewrite (Hok Hs).
  set (dt := SimulationConfig.time_step (SimulatorEngine.config e)) in *.
  assert (∃ e2 rt2,
    (if SimulationConfig.enable_physics (SimulatorEngine.config e)
     then let '(w, rt, _) := World.update_physics sqrt (SimulatorEngine.world e) rt1 dt in
          (SimulatorEngine.set_world w e, rt)
     else (e, rt1)) = (e2, rt2)
    ∧ engine_settings e2 = engine_settings e
    ∧ kept Agent.behaviour (Runtime.objects rt1) (Runtime.objects rt2)) as
    (e2 & rt2 & E2 & S2 & K2).
  { destruct (SimulationConfig.enable_physics (SimulatorEngine.config e)).
    - destruct (update_physics_frame sqrt (SimulatorEngine.world e) rt1 dt)
        as (_ & _ & _ & _ & _ & Hk).
      destruct (World.update_physics sqrt (SimulatorEngine.world e) rt1 dt) as [[w rtp] evs].
      cbn [fst snd] in *. eexists _, _. split; [done|].
      split; [done|]. by apply kept_outside_behaviour.
    - exists e, rt1. split_and!; try done. }
  rewrite E2.
  destruct (update_agents_returns sqrt e2 (SimulatorEngine.agents e2) rt2 [])
    as [[rt3 dead] ->].
  { eapply sense_never_raises_kept; [exact K2|].
    intros id a f Ha. rewrite Os in Ha. by eapply Hsense. }
  { eapply updates_raise_exceptions_only_kept; [exact K2|].
    intros id a Ha. rewrite Os in Ha. by eapply Hupd. }
  destruct (remove_agents_spec dead e2 rt3) as (S4 & _ & _).
  destruct (SimulatorEngine.remove_agents e2 rt3 dead) as [e4 rt4]. cbn [fst snd] in *.
  destruct (World.update sqrt cos sin (SimulatorEngine.world e4) rt4 _) as [[w5 rt5] evs5].
  match goal with |- context [SimulatorEngine.run_callbacks ?p ?i ?cbs ?r] =>
    destruct (run_callbacks_spec p i cbs r) as (_ & _ & Hok6);
    destruct (SimulatorEngine.run_callbacks p i cbs r) as [rt6 raised6] end.
  cbn [fst snd] in *. rewrite Hok6; [by eexists|].
  cbn. unfold engine_settings in S2, S4.
  replace (SimulatorEngine.step_end e4) with (SimulatorEngine.step_end e) by congruence. done.
Qed.
End StepWhole.

(** ** The calls of a tick *)

Lemma filter_other_kind (P Q : Call → bool) (l : list Call) :
  (∀ c, P c = true → Q c = false) →
  Forall (λ c, P c = true) l → filter (λ c, Q c = true) l = [].
Proof.
  intros Hpq. induction 1 as [|c l Hc _ IH]; [done|].
  rewrite filter_cons_False; [done|]. rewrite (Hpq c Hc). done.
Qed.

Lemma kind_of_elem (P : Call → bool) (l : list Call) (c : Call) :
  Forall (λ c, P c = true) l → c ∈ l → P c = true.
Proof.
  induction 1 as [|d l Hd _ IH]; intros Hin; [by apply elem_of_nil in Hin|].
  apply elem_of_cons in Hin as [->|Hin]; [done|by apply IH].
Qed.

Section StepClaims.
Variables sqrt cos sin : Q → Q.

(** A tick that is not paused and returns makes its calls in this order:
    the step-start callbacks; when [enable_physics] is set, a first physics
    pass ([World.update_physics]); the turns of the agents ([sense], then
    [update]); the removals; then [World.update], which updates the
    environment and runs the physics pass; the step-end callbacks.  So the
    environment is updated once, after the agents' turns, and the physics
    pass runs once after the agents' turns whatever [enable_physics] says
    and, with [enable_physics] set, once more before them. *)
Lemma step_call_order (e : SimulatorEngine.t) (rt : Runtime.t) (e' : SimulatorEngine.t)
    (rt' : Runtime.t) :
  SimulatorEngine.paused e = false →
  SimulatorEngine.step sqrt cos sin e rt = Returns (e', rt') →
  (∃ starts turns removals ends,
     calls_since rt rt'
     = starts ++ early_physics_calls e ++ turns ++ removals ++ world_update_calls ++ ends
     ∧ Forall (λ c, is_callback c = true) starts
     ∧ Forall (λ c, is_agent_turn c = true) turns
     ∧ Forall (λ c, is_removal c = true) removals
     ∧ Forall (λ c, is_callback c = true) ends)
  ∧ length (filter (λ c, is_physics_pass c = true) (calls_since rt rt'))
    = (if SimulationConfig.enable_physics (SimulatorEngine.config e) then 2 else 1)%nat
  ∧ length (filter (λ c, is_environment_update c = true) (calls_since rt rt')) = 1%nat.
Proof.
  intros Hp Hstep.
  destruct (step_spec sqrt cos sin e rt e' rt' Hp Hstep)
    as (starts & turns & dead & removals & ends & Hc & Fs & Ft & Fr & Fe & _).
  apply calls_since_app in Hc. rewrite Hc.
  split; [by exists starts, turns, removals, ends|].
  rewrite !list.filter_app, !length_app.
  rewrite (filter_other_kind is_callback is_physics_pass starts) by (done || by intros []).
  rewrite (filter_other_kind is_callback is_physics_pass ends) by (done || by intros []).
  rewrite (filter_other_kind is_agent_turn is_physics_pass turns) by (done || by intros []).
  rewrite (filter_other_kind is_removal is_physics_pass removals) by (done || by intros []).
  rewrite (filter_other_kind is_callback is_environment_update starts) by (done || by intros []).
  rewrite (filter_other_kind is_callback is_environment_update ends) by (done || by intros []).
  rewrite (filter_other_kind is_agent_turn is_environment_update turns) by (done || by intros []).
  rewrite (filter_other_kind is_removal is_environment_update removals) by (done || by intros []).
  unfold early_physics_calls.
  by destruct (SimulationConfig.enable_physics (SimulatorEngine.config e)).
Qed.

(** When no callback raises, no agent's [sense] raises and no [update]
    raises anything but an [Exception], a tick returns and advances the
    step counter: an agent whose [update] raised is out of the registry
    when the tick returns, and every registered agent either had its
    [update] called or is out of the registry. *)
Lemma step_contains_update_failures (e : SimulatorEngine.t) (rt : Runtime.t) :
  SimulatorEngine.paused e = false →
  callbacks_return (SimulatorEngine.step_start e) →
  callbacks_return (SimulatorEngine.step_end e) →
  sense_never_raises rt →
  updates_raise_exceptions_only rt →
  ∃ e' rt',
    SimulatorEngine.step sqrt cos sin e rt = Returns (e', rt')
    ∧ SimulatorEngine.current_step e' = SimulatorEngine.current_step e + 1
    ∧ (∀ id, CaughtAgentError id ∈ calls_since rt rt' → id ∉ SimulatorEngine.agents e')
    ∧ (∀ id, id ∈ SimulatorEngine.agents e → is_Some (Runtime.objects rt !! id) →
         CallAgentUpdate id ∈ calls_since rt rt' ∨ id ∉ SimulatorEngine.agents e').
Proof.
  intros Hp Hs He Hsense Hupd.
  destruct (step_returns sqrt cos sin e rt Hs He Hsense Hupd) as [[e' rt'] Hstep].
  exists e', rt'. split; [done|].
  destruct (step_spec sqrt cos sin e rt e' rt' Hp Hstep)
    as (starts & turns & dead & removals & ends & Hc & Fs & Ft & Fr & Fe & Hcaught & Hturn
        & Hleft & Hstepno).
  apply calls_since_app in Hc. rewrite Hc. split_and!; [done| |].
  - intros id Hin Hreg. destruct (Hleft id Hreg) as [_ Hnd]. apply Hnd, Hcaught.
    rewrite !elem_of_app in Hin.
    destruct Hin as [Hin|[Hin|[Hin|[Hin|[Hin|Hin]]]]]; [| |done| | |].
    + by apply (kind_of_elem _ _ _ Fs) in Hin.
    + unfold early_physics_calls in Hin.
      destruct (SimulationConfig.enable_physics _); set_solver.
    + by apply (kind_of_elem _ _ _ Fr) in Hin.
    + unfold world_update_calls in Hin. set_solver.
    + by apply (kind_of_elem _ _ _ Fe) in Hin.
  - intros id Hreg Hsome. destruct (Hturn id Hreg Hsome) as [Hin|Hdead].
    + left. rewrite !elem_of_app. auto.
    + right. intros Hreg'. by destruct (Hleft id Hreg').
Qed.
End StepClaims.

Lemma sense_never_raises_inherited (rt : Runtime.t) :
  map_Forall (λ _ a, ¬ is_Some (Agent.sense_override (Agent.behaviour a))) (Runtime.objects rt) →
  sense_never_raises rt.
Proof. intros H id a f Ha Hf. specialize (H id a Ha). cbn in H. destruct H. by eexists. Qed.

(** The objects of the store, one by one. *)
Lemma updates_raise_exceptions_only_listed (rt : Runtime.t) (l : list (string * Agent.t)) :
  map_to_list (Runtime.objects rt) = l →
  Forall (λ p, ∀ dt obs s x s',
            Agent.update (Agent.behaviour p.2) dt obs s = Raises x s' → x = Exception) l →
  updates_raise_exceptions_only rt.
Proof.
  intros <- Hall id a Ha. rewrite List.Forall_forall in Hall.
  apply (Hall (id, a)). apply list_elem_of_In. by apply elem_of_map_to_list.
Qed.

(** ** What the engine leaves alone *)

Lemma handle_event_behaviour (a : Agent.t) (ev : Event.t) :
  Agent.behaviour (Agent.handle_event a ev) = Agent.behaviour a.
Proof.
  unfold Agent.handle_event.
  destruct (Event.target_id ev) as [tid|]; [destruct (String.eqb tid _)|]; done.
Qed.

Lemma notify_all_kept (ev : Event.t) (hs : list string) (rt : Runtime.t) :
  kept Agent.behaviour (Runtime.objects rt)
    (Runtime.objects (fold_left (EventManager.notify ev) hs rt)).
Proof.
  revert rt. induction hs as [|h hs IH]; intros rt; cbn [fold_left]; [apply kept_refl|].
  eapply kept_trans; [|apply IH].
  unfold EventManager.notify, Runtime.modify. cbn.
  destruct (Runtime.objects rt !! h) as [a|] eqn:Ha; cbn; [|apply kept_refl].
  eapply kept_insert; [done|]. apply handle_event_behaviour.
Qed.

Lemma publish_kept (em : EventManager.t) (rt : Runtime.t) (ev : Event.t) :
  kept Agent.behaviour (Runtime.objects rt)
    (Runtime.objects (EventManager.publish em rt ev).2).
Proof.
  unfold EventManager.publish. cbn [snd].
  destruct (EventManager._handlers em !! Event.event_type ev); [|apply kept_refl].
  apply notify_all_kept.
Qed.

Lemma remove_agent_frame (e : SimulatorEngine.t) (rt : Runtime.t) (id : string) :
  let r := SimulatorEngine.remove_agent e rt id in
  engine_controls r.1 = engine_controls e
  ∧ SimulatorEngine.current_step r.1 = SimulatorEngine.current_step e
  ∧ kept Agent.behaviour (Runtime.objects rt) (Runtime.objects r.2).
Proof.
  unfold SimulatorEngine.remove_agent. case_bool_decide.
  - match goal with |- context [EventManager.publish ?em ?r ?ev] =>
      pose proof (publish_kept em r ev) as Hk;
      destruct (EventManager.publish em r ev) as [em' rt'] end.
    done.
  - split; [done|]. split; [done|]. apply kept_refl.
Qed.

Lemma remove_agents_frame (dead : list string) (e : SimulatorEngine.t) (rt : Runtime.t) :
  let r := SimulatorEngine.remove_agents e rt dead in
  engine_controls r.1 = engine_controls e
  ∧ SimulatorEngine.current_step r.1 = SimulatorEngine.current_step e
  ∧ kept Agent.behaviour (Runtime.objects rt) (Runtime.objects r.2).
Proof.
  unfold SimulatorEngine.remove_agents.
  revert e rt. induction dead as [|k dead IH]; intros e rt; cbn [fold_left].
  - split; [done|]. split; [done|]. apply kept_refl.
  - destruct (remove_agent_frame e rt k) as (S1 & C1 & K1).
    destruct (SimulatorEngine.remove_agent e rt k) as [e1 rt1]. cbn [fst snd] in *.
    destruct (IH e1 rt1) as (S2 & C2 & K2).
    split; [congruence|]. split; [congruence|]. by eapply kept_trans.
Qed.

Lemma run_callbacks_raises (phase : string) (index : nat) (callbacks : list Callback)
    (rt : Runtime.t) :
  ¬ callbacks_return callbacks →
  ∃ x, (SimulatorEngine.run_callbacks phase index callbacks rt).2 = Some x.
Proof.
  revert index rt. induction callbacks as [|cb cbs IH]; intros index rt Hn.
  - destruct Hn. apply List.Forall_nil.
  - cbn [SimulatorEngine.run_callbacks]. destruct cb as [|x]; [|by exists x].
    apply IH. intros Hall. apply Hn. by apply List.Forall_cons.
Qed.


Lemma handle_event_state (a : Agent.t) (ev : Event.t) :
  (Agent.agent_id (Agent.handle_event a ev), Agent.state (Agent.handle_event a ev))
  = (Agent.agent_id a, Agent.state a).
Proof.
  unfold Agent.handle_event.
  destruct (Event.target_id ev) as [tid|]; [destruct (String.eqb tid _)|]; done.
Qed.

Lemma remove_agents_handlers (dead : list string) (e : SimulatorEngine.t) (rt : Runtime.t) :
  EventManager._handlers
    (SimulatorEngine.event_manager (SimulatorEngine.remove_agents e rt dead).1)
  = EventManager._handlers (SimulatorEngine.event_manager e).
Proof.
  unfold SimulatorEngine.remove_agents.
  revert e rt. induction dead as [|k dead IH]; intros e rt; cbn [fold_left]; [done|].
  pose proof (remove_agent_handlers e rt k) as H1.
  destruct (SimulatorEngine.remove_agent e rt k) as [e1 rt1]. cbn [fst snd] in *.
  by rewrite IH.
Qed.

Lemma add_agent_memory_last (a : Agent.t) (item : MemoryItem) :
  list.last (Agent.memory (Agent.add_memory a item)) = Some item.
Proof.
  unfold Agent.add_memory. cbn [Agent.memory Agent.set_memory].
  destruct (_ <? _)%nat; [|apply last_snoc].
  unfold Agent.last_n. rewrite length_app. cbn [length].
  rewrite drop_app_le by (unfold Agent.max_memory; lia). apply last_snoc.
Qed.

Section Frames.
Variables sqrt cos sin : Q → Q.

(** A tick that is not paused and returns. *)
Lemma step_frame (e : SimulatorEngine.t) (rt : Runtime.t) (e' : SimulatorEngine.t)
    (rt' : Runtime.t) :
  SimulatorEngine.paused e = false →
  SimulatorEngine.step sqrt cos sin e rt = Returns (e', rt') →
  engine_controls e' = engine_controls e
  ∧ SimulatorEngine.current_step e' = SimulatorEngine.current_step e + 1
  ∧ kept Agent.behaviour (Runtime.objects rt) (Runtime.objects rt').
Proof.
  intros Hp Hstep. unfold SimulatorEngine.step in Hstep. rewrite Hp in Hstep.
  destruct (run_callbacks_spec "step_start" 0 (SimulatorEngine.step_start e) rt)
    as (_ & Os & _).
  destruct (SimulatorEngine.run_callbacks "step_start" 0 _ rt) as [rt1 raised1].
  cbn [fst snd] in *. destruct raised1; [done|].
  set (dt := SimulationConfig.time_step (SimulatorEngine.config e)) in *.
  assert (∃ e2 rt2,
    (if SimulationConfig.enable_physics (SimulatorEngine.config e)
     then let '(w, rt, _) := World.update_physics sqrt (SimulatorEngine.world e) rt1 dt in
          (SimulatorEngine.set_world w e, rt)
     else (e, rt1)) = (e2, rt2)
    ∧ engine_controls e2 = engine_controls e
    ∧ SimulatorEngine.current_step e2 = SimulatorEngine.current_step e
    ∧ kept Agent.behaviour (Runtime.objects rt1) (Runtime.objects rt2)) as
    (e2 & rt2 & E2 & S2 & C2 & K2).
  { destruct (SimulationConfig.enable_physics (SimulatorEngine.config e)).
    - destruct (update_physics_frame sqrt (SimulatorEngine.world e) rt1 dt)
        as (_ & _ & _ & _ & _ & Hk).
      destruct (World.update_physics sqrt (SimulatorEngine.world e) rt1 dt) as [[w rtp] evs].
      cbn [fst snd] in *. eexists _, _. split; [done|].
      split; [done|]. split; [done|]. by apply kept_outside_behaviour.
    - exists e, rt1. split; [done|]. split; [done|]. split; [done|]. apply kept_refl. }
  rewrite E2 in Hstep.
  destruct (SimulatorEngine.update_agents sqrt e2 (SimulatorEngine.agents e2) rt2 [])
    as [[rt3 dead]|x [rt3 dead]] eqn:Hloop; [|done].
  destruct (update_agents_spec sqrt _ _ _ _ _ _ Hloop)
    as (turns & more & _ & _ & _ & K3 & _).
  destruct (remove_agents_frame dead e2 rt3) as (S4 & C4 & K4).
  destruct (SimulatorEngine.remove_agents e2 rt3 dead) as [e4 rt4]. cbn [fst snd] in *.
  destruct (update_frame sqrt cos sin (SimulatorEngine.world e4) rt4 dt)
    as (_ & _ & _ & _ & K5).
  destruct (World.update sqrt cos sin (SimulatorEngine.world e4) rt4 _) as [[w5 rt5] evs5].
  cbn [fst snd] in *.
  match type of Hstep with context [SimulatorEngine.run_callbacks ?p ?i ?cbs ?r] =>
    destruct (run_callbacks_spec p i cbs r) as (_ & O6 & _);
    destruct (SimulatorEngine.run_callbacks p i cbs r) as [rt6 raised6] end.
  cbn [fst snd] in *. destruct raised6; [done|]. injection Hstep as <- <-.
  split; [|split].
  - unfold engine_controls in *. cbn. congruence.
  - cbn. congruence.
  - rewrite O6, <- Os.
    eapply kept_trans; [exact K2|]. eapply kept_trans; [exact K3|].
    eapply kept_trans; [exact K4|]. by apply kept_outside_behaviour.
Qed.


(** A tick, however it ends: the subscriptions are those from before and
    the store holds the same objects, doing the same things. *)
Lemma step_outcome_frame (e : SimulatorEngine.t) (rt : Runtime.t) :
  let s := outcome_state (SimulatorEngine.step sqrt cos sin e rt) in
  EventManager._handlers (SimulatorEngine.event_manager s.1)
  = EventManager._handlers (SimulatorEngine.event_manager e)
  ∧ kept Agent.behaviour (Runtime.objects rt) (Runtime.objects s.2).
Proof.
  unfold SimulatorEngine.step.
  destruct (SimulatorEngine.paused e); [split; [done|apply kept_refl]|].
  destruct (run_callbacks_spec "step_start" 0 (SimulatorEngine.step_start e) rt)
    as (_ & Os & _).
  destruct (SimulatorEngine.run_callbacks "step_start" 0 _ rt) as [rt1 raised1].
  cbn [fst snd] in *.
  destruct raised1; [cbn; split; [done|rewrite Os; apply kept_refl]|].
  set (dt := SimulationConfig.time_step (SimulatorEngine.config e)) in *.
  assert (∃ e2 rt2,
    (if SimulationConfig.enable_physics (SimulatorEngine.config e)
     then let '(w, rt, _) := World.update_physics sqrt (SimulatorEngine.world e) rt1 dt in
          (SimulatorEngine.set_world w e, rt)
     else (e, rt1)) = (e2, rt2)
    ∧ SimulatorEngine.event_manager e2 = SimulatorEngine.event_manager e
    ∧ SimulatorEngine.config e2 = SimulatorEngine.config e
    ∧ kept Agent.behaviour (Runtime.objects rt1) (Runtime.objects rt2)) as
    (e2 & rt2 & -> & M2 & C2 & K2).
  { destruct (SimulationConfig.enable_physics (SimulatorEngine.config e)).
    - destruct (update_physics_frame sqrt (SimulatorEngine.world e) rt1 dt)
        as (_ & _ & _ & _ & _ & Hk).
      destruct (World.update_physics sqrt (SimulatorEngine.world e) rt1 dt) as [[w rtp] evs].
      cbn [fst snd] in *. eexists _, _. split; [done|].
      split; [done|]. split; [done|]. by apply kept_outside_behaviour.
    - exists e, rt1. split; [done|]. split; [done|]. split; [done|]. apply kept_refl. }
  rewrite Os in K2.
  destruct (update_agents_frame sqrt e2 (SimulatorEngine.agents e2) rt2 []) as [K3 _].
  destruct (SimulatorEngine.update_agents sqrt e2 (SimulatorEngine.agents e2) rt2 [])
    as [[rt3 dead]|x [rt3 dead]]; cbn [outcome_state fst snd] in K3.
  2:{ cbn. split; [by rewrite M2|]. by eapply kept_trans. }
  pose proof (remove_agents_handlers dead e2 rt3) as M4.
  destruct (remove_agents_frame dead e2 rt3) as (_ & _ & K4).
  destruct (SimulatorEngine.remove_agents e2 rt3 dead) as [e4 rt4]. cbn [fst snd] in *.
  destruct (update_frame sqrt cos sin (SimulatorEngine.world e4) rt4 dt)
    as (_ & _ & _ & _ & K5).
  destruct (World.update sqrt cos sin (SimulatorEngine.world e4) rt4 _) as [[w5 rt5] evs5].
  cbn [fst snd] in *.
  match goal with |- context [SimulatorEngine.run_callbacks ?p ?i ?cbs ?r] =>
    destruct (run_callbacks_spec p i cbs r) as (_ & O6 & _);
    destruct (SimulatorEngine.run_callbacks p i cbs r) as [rt6 raised6] end.
  cbn [fst snd] in *.
  assert (Hk : kept Agent.behaviour (Runtime.objects rt) (Runtime.objects rt6)).
  { rewrite O6. eapply kept_trans; [exact K2|]. eapply kept_trans; [exact K3|].
    eapply kept_trans; [exact K4|]. by apply kept_outside_behaviour. }
  destruct raised6; cbn; (split; [by rewrite M4, M2|done]).
Qed.
End Frames.

(** ** Subscriptions outlive the removal of an agent *)

(** What the handlers of an event do to one object of the store: its
    [handle_event] is applied once for every time it is subscribed. *)
Lemma notify_all_at (ev : Event.t) (id : string) (hs : list string) (rt : Runtime.t)
    (b : Agent.t) :
  Runtime.objects rt !! id = Some b →
  ∃ n, Runtime.objects (fold_left (EventManager.notify ev) hs rt) !! id
       = Some (Nat.iter n (λ a, Agent.handle_event a ev) b)
       ∧ (id ∈ hs → (0 < n)%nat).
Proof.
  revert rt b. induction hs as [|h hs IH]; intros rt b Hb; cbn [fold_left].
  { exists 0%nat. split; [done|]. intros Hin. by apply elem_of_nil in Hin. }
  destruct (decide (h = id)) as [->|Hne].
  - destruct (IH (EventManager.notify ev rt id) (Agent.handle_event b ev)) as (n & Hn & _).
    { unfold EventManager.notify, Runtime.modify. cbn. rewrite Hb. cbn.
      by rewrite lookup_insert_eq. }
    exists (S n). split; [|lia]. by rewrite Hn, Nat.iter_succ_r.
  - destruct (IH (EventManager.notify ev rt h) b) as (n & Hn & Hpos).
    { unfold EventManager.notify, Runtime.modify. cbn.
      destruct (Runtime.objects rt !! h); cbn; [|done]. by rewrite lookup_insert_ne. }
    exists n. split; [done|]. intros Hin. apply Hpos.
    apply elem_of_cons in Hin as [?|?]; [congruence|done].
Qed.

Lemma handle_event_iter (ev : Event.t) (n : nat) (b : Agent.t) :
  (0 < n)%nat →
  let b' := Nat.iter n (λ a, Agent.handle_event a ev) b in
  Agent.state b' = Agent.state b
  ∧ Agent.agent_id b' = Agent.agent_id b
  ∧ (Event.target_id ev = None ∨ Event.target_id ev = Some (Agent.agent_id b) →
     list.last (Agent.memory b')
     = Some (MemEvent (Event.event_type ev) (Event.source_id ev) (Event.data ev))).
Proof.
  intros Hn.
  assert (Hkeep : ∀ k, Agent.state (Nat.iter k (λ a, Agent.handle_event a ev) b) = Agent.state b
                       ∧ Agent.agent_id (Nat.iter k (λ a, Agent.handle_event a ev) b)
                         = Agent.agent_id b).
  { induction k as [|k [IH1 IH2]]; [done|]. rewrite Nat.iter_succ.
    pose proof (handle_event_state (Nat.iter k (λ a, Agent.handle_event a ev) b) ev) as H.
    injection H as H1 H2. split; [by rewrite H2|by rewrite H1]. }
  destruct n as [|n]; [lia|]. split; [apply Hkeep|]. split; [apply Hkeep|].
  intros Htarget. rewrite Nat.iter_succ. unfold Agent.handle_event at 1.
  destruct (Hkeep n) as [_ Hid]. rewrite Hid.
  destruct Htarget as [-> | ->]; [|rewrite String.eqb_refl]; apply add_agent_memory_last.
Qed.

Lemma subscribe_keeps (em : EventManager.t) (ty ty' : EventType) (h id : string) :
  (∃ hs, EventManager._handlers em !! ty = Some hs ∧ id ∈ hs) →
  ∃ hs, EventManager._handlers (EventManager.subscribe em ty' h) !! ty = Some hs ∧ id ∈ hs.
Proof.
  intros (hs & Hhs & Hin). unfold EventManager.subscribe. cbn.
  destruct (decide (ty' = ty)) as [->|Hne].
  - rewrite lookup_insert_eq, Hhs. eexists. split; [done|]. cbn. set_solver.
  - rewrite lookup_insert_ne by done. eauto.
Qed.

Section Subscriptions.
Variables sqrt cos sin : Q → Q.

(** No call of the engine takes a subscription or an object away. *)
Lemma perform_keeps_subscription (s : SimulatorEngine.t * Runtime.t) (c : EngineCall)
    (ty : EventType) (id : string) :
  (∃ hs, EventManager._handlers (SimulatorEngine.event_manager s.1) !! ty = Some hs ∧ id ∈ hs)
  ∧ is_Some (Runtime.objects s.2 !! id) →
  (∃ hs, EventManager._handlers
           (SimulatorEngine.event_manager (perform sqrt cos sin s c).1) !! ty = Some hs
         ∧ id ∈ hs)
  ∧ is_Some (Runtime.objects (perform sqrt cos sin s c).2 !! id).
Proof.
  intros [Hsub Hobj]. destruct c as [a|k|]; cbn [perform].
  - unfold SimulatorEngine.add_agent.
    destruct (_ <=? _); [done|]. unfold World.add_agent.
    match goal with |- context [EventManager.publish ?em ?r ?ev] =>
      pose proof (publish_kept em r ev) as Hk;
      pose proof (publish_handlers em r ev) as Hh;
      destruct (EventManager.publish em r ev) as [em' rt'] end.
    cbn [fst snd SimulatorEngine.event_manager SimulatorEngine.set_event_manager] in *.
    split.
    + rewrite Hh. by do 2 apply subscribe_keeps.
    + eapply kept_is_Some; [exact Hk|]. cbn.
      destruct (decide (Agent.agent_id a = id)) as [->|Hne].
      * by rewrite lookup_insert_eq.
      * by rewrite lookup_insert_ne.
  - pose proof (remove_agent_handlers s.1 s.2 k) as Hh.
    destruct (remove_agent_frame s.1 s.2 k) as (_ & _ & Hk).
    split; [by rewrite Hh|]. by eapply kept_is_Some.
  - destruct (step_outcome_frame sqrt cos sin s.1 s.2) as [Hh Hk].
    split; [by rewrite Hh|]. by eapply kept_is_Some.
Qed.

(** C10. An agent added by [add_agent] and removed by [remove_agent],
    whatever calls of [add_agent], [remove_agent] and [step] are made in
    between: the removal leaves the handler lists as they are, so the agent
    is out of the registry and still subscribed to AGENT_SPAWN and
    ENVIRONMENT_CHANGE, and its object is still there.  An event of either
    type published at any time after that is delivered to it: its
    [handle_event] is called and acts on the object, whose memory then ends
    with the event when the event is addressed to it or to nobody. *)
Theorem removed_agent_stays_subscribed
    (e : SimulatorEngine.t) (rt : Runtime.t) (a : Agent.t) (calls : list EngineCall) :
  ¬ at_capacity e →
  let id := Agent.agent_id a in
  let later := fold_left (perform sqrt cos sin) calls (SimulatorEngine.add_agent e rt a).1 in
  let removed := SimulatorEngine.remove_agent later.1 later.2 id in
(id ∉ SimulatorEngine.agents (removed.1))
  ∧ EventManager._handlers (SimulatorEngine.event_manager removed.1)
    = EventManager._handlers (SimulatorEngine.event_manager later.1)
  ∧ is_Some (Runtime.objects removed.2 !! id)
  ∧ ∀ ty, ty = AGENT_SPAWN ∨ ty = ENVIRONMENT_CHANGE →
      (∃ hs, EventManager._handlers (SimulatorEngine.event_manager removed.1) !! ty = Some hs
             ∧ id ∈ hs)
      ∧ ∀ ev rt2 b, Event.event_type ev = ty → Runtime.objects rt2 !! id = Some b →
          let delivered :=
            (EventManager.publish (SimulatorEngine.event_manager removed.1) rt2 ev).2 in
          CallHandleEvent id ev ∈ calls_since rt2 delivered
          ∧ ∃ b', Runtime.objects delivered !! id = Some b'
                  ∧ Agent.state b' = Agent.state b
                  ∧ (Event.target_id ev = None ∨ Event.target_id ev = Some (Agent.agent_id b) →
                     list.last (Agent.memory b')
                     = Some (MemEvent (Event.event_type ev) (Event.source_id ev)
                               (Event.data ev))).
Proof.
  intros Hroom id later removed.
  assert (Hadded : ∀ ty, ty = AGENT_SPAWN ∨ ty = ENVIRONMENT_CHANGE →
    (∃ hs, EventManager._handlers
             (SimulatorEngine.event_manager (SimulatorEngine.add_agent e rt a).1.1) !! ty
           = Some hs ∧ id ∈ hs)
    ∧ is_Some (Runtime.objects (SimulatorEngine.add_agent e rt a).1.2 !! id)).
  { intros ty Hty. split; [by apply add_agent_subscribes|].
    unfold SimulatorEngine.add_agent.
    destruct (Z.leb_spec (SimulationConfig.max_agents (SimulatorEngine.config e))
                (Z.of_nat (length (SimulatorEngine.agents e)))) as [Hfull|_];
      [by destruct Hroom|].
    unfold World.add_agent.
    match goal with |- context [EventManager.publish ?em ?r ?ev] =>
      pose proof (publish_kept em r ev) as Hk;
      destruct (EventManager.publish em r ev) as [em' rt'] end.
    cbn [fst snd] in *. eapply kept_is_Some; [exact Hk|]. cbn.
    by rewrite lookup_insert_eq. }
  assert (Hlater : ∀ ty, ty = AGENT_SPAWN ∨ ty = ENVIRONMENT_CHANGE →
    (∃ hs, EventManager._handlers (SimulatorEngine.event_manager later.1) !! ty = Some hs
           ∧ id ∈ hs)
    ∧ is_Some (Runtime.objects later.2 !! id)).
  { intros ty Hty. subst later. specialize (Hadded ty Hty).
    revert Hadded. generalize (SimulatorEngine.add_agent e rt a).1.
    induction calls as [|c calls IH]; intros s Hs; cbn [fold_left]; [done|].
    apply IH. by apply perform_keeps_subscription. }
  assert (Hh : EventManager._handlers (SimulatorEngine.event_manager removed.1)
               = EventManager._handlers (SimulatorEngine.event_manager later.1))
    by apply remove_agent_handlers.
  split; [subst removed; rewrite remove_agent_agents; apply dict_del_not_elem|].
  split; [done|]. split.
  { destruct (remove_agent_frame later.1 later.2 id) as (_ & _ & Hk).
    eapply kept_is_Some; [exact Hk|]. exact (proj2 (Hlater AGENT_SPAWN (or_introl eq_refl))). }
  intros ty Hty. destruct (Hlater ty Hty) as [(hs & Hhs & Hin) _].
  rewrite <- Hh in Hhs. split; [eauto|].
  intros ev rt2 b Hev Hb delivered. subst delivered. split.
  - rewrite (calls_since_app _ _ _ (publish_calls _ _ ev)).
    rewrite Hev, Hhs. cbn [default].
    apply list_elem_of_In, in_map_iff. exists id. split; [done|]. by apply list_elem_of_In.
  - unfold EventManager.publish. cbn [snd]. rewrite Hev, Hhs.
    destruct (notify_all_at ev id hs rt2 b Hb) as (n & Hn & Hpos).
    destruct (handle_event_iter ev n b (Hpos Hin)) as (Hstate & _ & Hmem).
    rewrite Hev in Hmem. eexists. split; [exact Hn|]. split; [exact Hstate|exact Hmem].
Qed.
End Subscriptions.

Lemma removed_agent_stays_subscribed_witness :
  let e := SimulatorEngine.__init__ small_config empty_runtime in
  let a := make_agent "a" 50 50 0 0 in
  let later :=
    fold_left (perform Qsqrt Qcos Qsin) [DoAddAgent (make_agent "b" 10 10 0 0); DoStep]
      (SimulatorEngine.add_agent e.1 e.2 a).1 in
  let removed := SimulatorEngine.remove_agent later.1 later.2 "a" in
  let ev := Event.mk ENVIRONMENT_CHANGE "world" None DataEmpty in
  let delivered :=
    (EventManager.publish (SimulatorEngine.event_manager removed.1) removed.2 ev).2 in
  ("a"%string ∉ SimulatorEngine.agents (removed.1))
  ∧ CallHandleEvent "a" ev ∈ calls_since removed.2 delivered
  ∧ ∃ b', Runtime.objects delivered !! "a"%string = Some b'
          ∧ list.last (Agent.memory b') = Some (MemEvent ENVIRONMENT_CHANGE "world" DataEmpty).
Proof.
  intros e a later removed ev delivered.
  assert (Hroom : ¬ at_capacity e.1) by (vm_compute; intros C; by apply C).
  destruct (removed_agent_stays_subscribed Qsqrt Qcos Qsin e.1 e.2 a
              [DoAddAgent (make_agent "b" 10 10 0 0); DoStep] Hroom)
    as (Hout & _ & [b Hb] & Hsub).
  destruct (proj2 (Hsub ENVIRONMENT_CHANGE (or_intror eq_refl)) ev removed.2 b eq_refl Hb)
    as (Hcall & b' & Hb' & _ & Hmem).
  split; [exact Hout|]. split; [exact Hcall|].
  exists b'. split; [exact Hb'|]. apply Hmem. by left.
Defined.

(** * Further properties of the code *)

(** ** core/events.py and core/agent.py *)

Lemma last_n_length {A} (n : nat) (l : list A) :
  length (Agent.last_n n l) = Nat.min n (length l).
Proof. unfold Agent.last_n. rewrite length_drop. lia. Qed.

Lemma last_n_last {A} (n : nat) (l : list A) (x : A) :
  (0 < n)%nat → list.last (Agent.last_n n (l ++ [x])) = Some x.
Proof.
  intros Hn. unfold Agent.last_n. rewrite length_app. cbn [length].
  destruct (decide (length l + 1 - n <= length l)%nat) as [Hle|Hgt]; [|lia].
  rewrite drop_app_le by done. apply last_snoc.
Qed.

(** X1. [publish] and the length of the history.  The history after it
    is a suffix of the old history followed by the event and ends with the
    event.  When [_max_history] is positive the history is at most
    [_max_history] long; when it is 0 nothing is ever dropped, the slice
    [[-0:]] being the whole list, and the history grows with every
    event. *)
Theorem publish_bounds_history (em : EventManager.t) (rt : Runtime.t) (ev : Event.t) :
  let history := EventManager._event_history (EventManager.publish em rt ev).1 in
  history `suffix_of` (EventManager._event_history em ++ [ev])
  ∧ list.last history = Some ev
  ∧ ((0 < EventManager._max_history em)%nat →
     (length history <= EventManager._max_history em)%nat)
  ∧ (EventManager._max_history em = 0%nat → history = EventManager._event_history em ++ [ev])
  ∧ EventManager._max_history (EventManager.publish em rt ev).1 = EventManager._max_history em.
Proof.
  unfold EventManager.publish. cbn [fst EventManager._event_history EventManager._max_history].
  destruct (EventManager._max_history em) as [|n] eqn:Hmax; cbn [Agent.slice_from_end].
  - split; [by destruct (_ <? _)%nat|]. split; [destruct (_ <? _)%nat; apply last_snoc|].
    split; [lia|]. split; [by destruct (_ <? _)%nat|done].
  - destruct (Nat.ltb_spec (S n) (length (EventManager._event_history em ++ [ev])))
      as [Hlt|Hge].
    + split; [apply suffix_drop|]. split; [apply last_n_last; lia|].
      split; [intros _; rewrite last_n_length; lia|]. split; [done|done].
    + split; [done|]. split; [apply last_snoc|]. split; [done|]. split; [done|done].
Qed.



Lemma list_remove_snoc (h : string) (l : list string) :
  h ∉ l → EventManager.list_remove h (l ++ [h]) = l.
Proof.
  induction l as [|k l IH]; intros Hn; cbn.
  - by rewrite String.eqb_refl.
  - apply not_elem_of_cons in Hn as [Hk Hn].
    destruct (String.eqb_spec k h) as [->|_]; [done|]. by rewrite IH.
Qed.

Lemma list_remove_absent (h : string) (l : list string) :
  h ∉ l → EventManager.list_remove h l = l.
Proof.
  induction l as [|k l IH]; intros Hn; cbn; [done|].
  apply not_elem_of_cons in Hn as [Hk Hn].
  destruct (String.eqb_spec k h) as [->|_]; [done|]. by rewrite IH.
Qed.

(** X3. For a handler that is not subscribed to an event type,
    [unsubscribe] changes nothing, and [subscribe] followed by
    [unsubscribe] gives back the handler list of that type and leaves the
    lists of the other types and the history as they were. *)
Theorem unsubscribe_undoes_subscribe
    (em : EventManager.t) (ty : EventType) (h : string) :
  h ∉ default [] (EventManager._handlers em !! ty) →
  let em' := EventManager.unsubscribe (EventManager.subscribe em ty h) ty h in
  default [] (EventManager._handlers em' !! ty) = default [] (EventManager._handlers em !! ty)
  ∧ (∀ ty', ty' ≠ ty → EventManager._handlers em' !! ty' = EventManager._handlers em !! ty')
  ∧ EventManager._event_history em' = EventManager._event_history em
  ∧ default [] (EventManager._handlers (EventManager.unsubscribe em ty h) !! ty)
    = default [] (EventManager._handlers em !! ty).
Proof.
  intros Hn. unfold EventManager.unsubscribe, EventManager.subscribe.
  cbn [EventManager._handlers EventManager._event_history EventManager._max_history].
  rewrite lookup_insert_eq. cbn [EventManager._handlers EventManager._event_history].
  split_and!.
  - rewrite lookup_insert_eq. cbn. by apply list_remove_snoc.
  - intros ty' Hne. by rewrite !lookup_insert_ne.
  - done.
  - destruct (EventManager._handlers em !! ty) as [hs|] eqn:Hhs; [|by rewrite Hhs].
    cbn. rewrite lookup_insert_eq. cbn. by apply list_remove_absent.
Qed.

Lemma unsubscribe_undoes_subscribe_witness :
  let em := EventManager.subscribe EventManager.__init__ COLLISION "a" in
  default [] (EventManager._handlers
                (EventManager.unsubscribe (EventManager.subscribe em COLLISION "b") COLLISION "b")
              !! COLLISION)
  = ["a"%string].
Proof.
  intros em.
  refine (proj1 (unsubscribe_undoes_subscribe em COLLISION "b" _)).
  vm_compute. intros H. apply list_elem_of_singleton in H. discriminate.
Defined.

(** X4. [add_memory] keeps the memory of an agent at most 1000 items long
    and always ends it with the item added; nothing else of the agent
    changes. *)
Theorem add_memory_bounded (a : Agent.t) (item : MemoryItem) :
  (length (Agent.memory (Agent.add_memory a item)) <= Agent.max_memory)%nat
  ∧ list.last (Agent.memory (Agent.add_memory a item)) = Some item
  ∧ Agent.memory (Agent.add_memory a item) `suffix_of` (Agent.memory a ++ [item])
  ∧ Agent.state (Agent.add_memory a item) = Agent.state a
  ∧ Agent.agent_id (Agent.add_memory a item) = Agent.agent_id a.
Proof.
  unfold Agent.add_memory. cbn [Agent.memory Agent.set_memory Agent.state Agent.agent_id].
  destruct (Nat.ltb_spec Agent.max_memory (length (Agent.memory a ++ [item]))) as [Hlt|Hge].
  - split_and!; [rewrite last_n_length; lia| |apply suffix_drop|done|done].
    apply last_n_last. unfold Agent.max_memory. lia.
  - split_and!; [done|apply last_snoc|done|done|done].
Qed.

(** X5. [consume_energy] never leaves the energy negative; an agent asked
    for at least the energy it has is left with none and is no longer
    alive. *)
Theorem consume_energy_exhausts (a : Agent.t) (amount : Q) :
  (AgentState.energy (Agent.state a) <= amount)%Q →
  (AgentState.energy (Agent.state (Agent.consume_energy a amount)) == 0)%Q
  ∧ Agent.is_alive (Agent.consume_energy a amount) = false
  ∧ ∀ amount', (0 <= AgentState.energy (Agent.state (Agent.consume_energy a amount')))%Q.
Proof.
  intros Hle. unfold Agent.consume_energy, Agent.is_alive.
  cbn [Agent.state Agent.set_state AgentState.energy AgentState.set_energy
       AgentState.active AgentState.health].
  assert (H0 : (Qmax 0 (AgentState.energy (Agent.state a) - amount) == 0)%Q).
  { apply Q.max_l. lra. }
  split_and!; [done| |intros; apply Q.le_max_l].
  rewrite (Qltb_comp _ 0 _ 0 ltac:(reflexivity) H0).
  rewrite andb_false_iff. right. apply Qltb_ge. lra.
Qed.

Lemma consume_energy_exhausts_witness :
  let a := Agent.mk "a" (AgentState.mk (Position.mk 0 0) (0, 0)%Q 1 100 0 true None) []
             idle_behaviour in
  Agent.is_alive (Agent.consume_energy a 5) = false.
Proof.
  intros a. refine (proj1 (proj2 (consume_energy_exhausts a 5 _))). vm_compute. discriminate.
Defined.

(** ** environment/spatial.py *)

(** X6. On a consistent grid, removing an agent that was just added (and
    was not indexed before) gives back the index as it was: the same
    [agent_positions] and the same content of every cell. *)
Theorem remove_agent_undoes_add_agent (g : SpatialGrid.t) (a : Agent.t) :
  grid_wf g → SpatialGrid.agent_positions g !! Agent.agent_id a = None →
  let g' := SpatialGrid.remove_agent (SpatialGrid.add_agent g a) (Agent.agent_id a) in
  SpatialGrid.agent_positions g' = SpatialGrid.agent_positions g
  ∧ ∀ c, SpatialGrid.cell (SpatialGrid.grid g') c = SpatialGrid.cell (SpatialGrid.grid g) c.
Proof.
  unfold grid_wf. intros Hwf Hnew. unfold SpatialGrid.remove_agent, SpatialGrid.add_agent.
  cbn [SpatialGrid.agent_positions SpatialGrid.grid SpatialGrid.set_index].
  rewrite lookup_insert_eq.
  cbn [SpatialGrid.agent_positions SpatialGrid.grid SpatialGrid.set_index].
  split.
  - by rewrite delete_insert_id.
  - intros c. rewrite !cell_insert.
    set (c0 := SpatialGrid._get_cell_coords g (Agent.position a)).
    destruct (decide (c0 = c)) as [<-|Hne]; [|done].
    rewrite decide_True by done.
    assert (Agent.agent_id a ∉ SpatialGrid.cell (SpatialGrid.grid g) c0).
    { rewrite Hwf, Hnew. done. }
    set_solver.
Qed.

Lemma remove_agent_undoes_add_agent_witness :
  let g := SpatialGrid.__init__ 100 100 50 in
  let a := make_agent "a" 10 10 0 0 in
  SpatialGrid.agent_positions (SpatialGrid.remove_agent (SpatialGrid.add_agent g a) "a")
  = SpatialGrid.agent_positions g.
Proof.
  intros g a.
  refine (proj1 (remove_agent_undoes_add_agent g a _ _)); [apply grid_wf_init|reflexivity].
Defined.

(** X7. [add_agent] does not look for an earlier entry: adding an agent
    that is already indexed, at a position in another cell, leaves its id
    in the old cell and in the new one, with [agent_positions] naming the
    new one only; a later [update_agent] or [remove_agent] does not clear
    the old cell. *)
Theorem add_agent_again_leaves_stale_entry (g : SpatialGrid.t) (a a' : Agent.t) :
  Agent.agent_id a' = Agent.agent_id a →
  SpatialGrid._get_cell_coords g (Agent.position a)
  ≠ SpatialGrid._get_cell_coords g (Agent.position a') →
  let id := Agent.agent_id a in
  let old := SpatialGrid._get_cell_coords g (Agent.position a) in
  let new := SpatialGrid._get_cell_coords g (Agent.position a') in
  let g2 := SpatialGrid.add_agent (SpatialGrid.add_agent g a) a' in
  id ∈ SpatialGrid.cell (SpatialGrid.grid g2) old
  ∧ id ∈ SpatialGrid.cell (SpatialGrid.grid g2) new
  ∧ SpatialGrid.agent_positions g2 !! id = Some new
  ∧ id ∈ SpatialGrid.cell (SpatialGrid.grid (SpatialGrid.update_agent g2 a')) old
  ∧ id ∈ SpatialGrid.cell (SpatialGrid.grid (SpatialGrid.remove_agent g2 id)) old.
Proof.
  intros Hid Hne id old new g2.
  assert (Hg2 : SpatialGrid.grid g2
    = <[new := SpatialGrid.cell (<[old := SpatialGrid.cell (SpatialGrid.grid g) old ∪ {[id]}]>
                                   (SpatialGrid.grid g)) new ∪ {[id]}]>
        (<[old := SpatialGrid.cell (SpatialGrid.grid g) old ∪ {[id]}]> (SpatialGrid.grid g))).
  { subst g2 id. unfold SpatialGrid.add_agent. cbn. by rewrite Hid. }
  assert (Hp2 : SpatialGrid.agent_positions g2 !! id = Some new).
  { subst g2 id. unfold SpatialGrid.add_agent. cbn. rewrite Hid. apply lookup_insert_eq. }
  assert (Hold : id ∈ SpatialGrid.cell (SpatialGrid.grid g2) old).
  { rewrite Hg2, !cell_insert. rewrite decide_False by done. rewrite decide_True by done.
    set_solver. }
  assert (Hnew : id ∈ SpatialGrid.cell (SpatialGrid.grid g2) new).
  { rewrite Hg2, !cell_insert. rewrite decide_True by done. set_solver. }
  split_and!; try done.
  - unfold SpatialGrid.update_agent. rewrite Hid. fold id. rewrite Hp2.
    assert (Hc : SpatialGrid._get_cell_coords g2 (Agent.position a') = new) by done.
    rewrite Hc. rewrite bool_decide_eq_false_2 by (intros C; by apply C). done.
  - unfold SpatialGrid.remove_agent. rewrite Hp2. cbn. rewrite cell_insert.
    rewrite decide_False by done. done.
Qed.

Lemma add_agent_again_leaves_stale_entry_witness :
  let g := SpatialGrid.__init__ 100 100 50 in
  let g2 := SpatialGrid.add_agent (SpatialGrid.add_agent g (make_agent "a" 10 10 0 0))
              (make_agent "a" 60 10 0 0) in
  "a"%string ∈ SpatialGrid.cell (SpatialGrid.grid g2) (0, 0)
  ∧ "a"%string ∈ SpatialGrid.cell (SpatialGrid.grid g2) (1, 0).
Proof.
  intros g g2.
  destruct (add_agent_again_leaves_stale_entry g (make_agent "a" 10 10 0 0)
              (make_agent "a" 60 10 0 0)) as (H1 & H2 & _).
  - reflexivity.
  - vm_compute. discriminate.
  - split; [exact H1|exact H2].
Defined.

Lemma NoDup_flat_map {A B} (f : A → list B) (l : list A) :
  NoDup l → (∀ x, x ∈ l → NoDup (f x)) →
  (∀ x y b, x ∈ l → y ∈ l → b ∈ f x → b ∈ f y → x = y) →
  NoDup (flat_map f l).
Proof.
  induction 1 as [|x l Hx Hnd IH]; intros Hf Hdisj; cbn [flat_map]; [constructor|].
  apply list.NoDup_app. split_and!.
  - apply Hf. by left.
  - intros b Hb Hin. apply list_elem_of_In, in_flat_map in Hin as (y & Hy & Hby).
    apply list_elem_of_In in Hy, Hby.
    assert (x = y) by (eapply Hdisj; [by left|by right|done..]). by subst.
  - apply IH.
    + intros y Hy. apply Hf. by right.
    + intros y z b Hy Hz. apply Hdisj; by right.
Qed.

Lemma NoDup_range (lo hi : Z) : NoDup (range lo hi).
Proof. apply NoDup_seqZ. Qed.

Lemma NoDup_cell_block (g : SpatialGrid.t) (rows cols : list Z) :
  grid_wf g → NoDup rows → NoDup cols →
  NoDup (flat_map (λ row,
           flat_map (λ col, elements (SpatialGrid.cell (SpatialGrid.grid g) (col, row))) cols)
         rows).
Proof.
  unfold grid_wf. intros Hwf Hr Hc.
  assert (Hsame : ∀ id c c', id ∈ SpatialGrid.cell (SpatialGrid.grid g) c →
                    id ∈ SpatialGrid.cell (SpatialGrid.grid g) c' → c = c').
  { intros id c c' H1 H2. apply Hwf in H1, H2. congruence. }
  apply NoDup_flat_map; [done| |].
  - intros row _. apply NoDup_flat_map; [done| |].
    + intros col _. apply NoDup_elements.
    + intros c1 c2 id _ _ H1 H2. apply elem_of_elements in H1, H2.
      by injection (Hsame _ _ _ H1 H2).
  - intros r1 r2 id _ _ H1 H2.
    apply list_elem_of_In, in_flat_map in H1 as (c1 & _ & H1).
    apply list_elem_of_In, in_flat_map in H2 as (c2 & _ & H2).
    apply list_elem_of_In, elem_of_elements in H1.
    apply list_elem_of_In, elem_of_elements in H2.
    by injection (Hsame _ _ _ H1 H2).
Qed.

(** X8. On a consistent grid [get_nearby_agents] lists no agent twice, and
    never lists the agent named by [exclude_id]. *)
Theorem get_nearby_agents_no_duplicates
    (g : SpatialGrid.t) (p : Position.t) (r : Q) (exclude_id : option string) :
  grid_wf g →
  NoDup (SpatialGrid.get_nearby_agents g p r exclude_id)
  ∧ ∀ id, exclude_id = Some id → id ∉ SpatialGrid.get_nearby_agents g p r exclude_id.
Proof.
  intros Hwf. unfold SpatialGrid.get_nearby_agents.
  destruct (SpatialGrid._get_cell_coords g p) as [cc cr]. split.
  - apply list.NoDup_filter, NoDup_cell_block; [done|apply NoDup_range..].
  - intros id ->. rewrite list_elem_of_filter. intros [Hne _]. done.
Qed.

Lemma world_add_agent_grid_wf (w : World.t) (rt : Runtime.t) (a : Agent.t) :
  grid_wf (World.spatial_grid w) →
  SpatialGrid.agent_positions (World.spatial_grid w) !! Agent.agent_id a = None →
  grid_wf (World.spatial_grid (World.add_agent w rt a).1).
Proof.
  intros Hwf Hnew. unfold World.add_agent.
  cbn [fst World.spatial_grid World.set_counters World.set_spatial_grid World.set_agents].
  by apply grid_wf_add_agent.
Qed.

Lemma world_init_grid_wf (width height cell_size : Q) (rt : Runtime.t) :
  grid_wf (World.spatial_grid (World.__init__ width height cell_size rt).1).
Proof.
  unfold World.__init__, World._initialize_environment.
  destruct (World.add_obstacles _ _ _ _ _) as [fs g].
  destruct (World.add_resources _ _ _ _ _) as [fs' g'].
  apply grid_wf_init.
Qed.

Lemma three_agents_grid_wf : grid_wf (World.spatial_grid three_agents.1).
Proof.
  pose (w0 := World.__init__ 100 100 50 empty_runtime).
  pose (w1 := World.add_agent w0.1 w0.2 (make_agent "a" 10 10 0 0)).
  pose (w2 := World.add_agent w1.1 w1.2 (make_agent "b" 60 10 0 0)).
  change three_agents with (World.add_agent w2.1 w2.2 (make_agent "c" 90 90 0 0)).
  apply world_add_agent_grid_wf; [|reflexivity].
  apply world_add_agent_grid_wf; [|reflexivity].
  apply world_add_agent_grid_wf; [|reflexivity].
  apply world_init_grid_wf.
Qed.

Lemma get_nearby_agents_no_duplicates_witness :
  NoDup (SpatialGrid.get_nearby_agents (World.spatial_grid three_agents.1)
           (Position.mk 20 10) 45 (Some "a"%string)).
Proof.
  exact (proj1 (get_nearby_agents_no_duplicates _ _ _ _ three_agents_grid_wf)).
Defined.

Lemma int_nonneg (q : Q) : (0 <= q)%Q → int q = Qfloor q.
Proof. intros H. unfold int. by rewrite (proj2 (Qltb_ge q 0)). Qed.

Lemma Qdiv_nonneg (a b : Q) : (0 <= a)%Q → (0 < b)%Q → (0 <= a / b)%Q.
Proof.
  intros Ha Hb. unfold Qdiv. apply Qmult_le_0_compat; [done|].
  by apply Qlt_le_weak, Qinv_lt_0_compat.
Qed.

Lemma Qdiv_le_compat (a b c : Q) : (0 < c)%Q → (a <= b)%Q → (a / c <= b / c)%Q.
Proof.
  intros Hc Hab. unfold Qdiv. apply Qmult_le_compat_r; [done|].
  by apply Qlt_le_weak, Qinv_lt_0_compat.
Qed.

Lemma Qfloor_nonneg (q : Q) : (0 <= q)%Q → 0 <= Qfloor q.
Proof. intros H. change 0 with (Qfloor 0). by apply Qfloor_resp_le. Qed.

(** The cell index of a coordinate inside the grid, and the bounds that
    [get_agents_in_region] puts around it. *)
Lemma region_bounds (cs lo x hi : Q) (n : Z) :
  (0 < cs)%Q → (0 <= x)%Q → (x < inject_Z n * cs)%Q → (lo <= x)%Q → (x <= hi)%Q →
  Z.max 0 (Z.min (n - 1) (int (x / cs))) = Qfloor (x / cs)
  ∧ Z.max 0 (int (lo / cs)) <= Qfloor (x / cs) <= Z.min (n - 1) (int (hi / cs)).
Proof.
  intros Hcs Hx0 Hxn Hlo Hhi.
  assert (Hq : (0 <= x / cs)%Q) by (by apply Qdiv_nonneg).
  assert (Hf0 : 0 <= Qfloor (x / cs)) by (by apply Qfloor_nonneg).
  assert (Hfn : Qfloor (x / cs) < n).
  { apply Qfloor_lt_Z. apply Qlt_shift_div_r; [done|]. done. }
  assert (Hh : (0 <= hi / cs)%Q) by (apply Qdiv_nonneg; [lra|done]).
  assert (Hfh : Qfloor (x / cs) <= Qfloor (hi / cs))
    by (by apply Qfloor_resp_le, Qdiv_le_compat).
  rewrite (int_nonneg (x / cs)), (int_nonneg (hi / cs)) by done.
  assert (Hl : int (lo / cs) <= Qfloor (x / cs)).
  { unfold int. destruct (Qltb (lo / cs) 0) eqn:E.
    - apply Qltb_lt in E. pose proof (Qceiling_nonpos _ E). lia.
    - by apply Qfloor_resp_le, Qdiv_le_compat. }
  lia.
Qed.

Lemma elem_of_get_agents_in_region (g : SpatialGrid.t) (min_x min_y max_x max_y : Q)
    (id : string) :
  id ∈ SpatialGrid.get_agents_in_region g min_x min_y max_x max_y ↔
  ∃ col row,
    Z.max 0 (int (min_x / SpatialGrid.cell_size g)) <= col
      <= Z.min (SpatialGrid.cols g - 1) (int (max_x / SpatialGrid.cell_size g))
    ∧ Z.max 0 (int (min_y / SpatialGrid.cell_size g)) <= row
      <= Z.min (SpatialGrid.rows g - 1) (int (max_y / SpatialGrid.cell_size g))
    ∧ id ∈ SpatialGrid.cell (SpatialGrid.grid g) (col, row).
Proof.
  unfold SpatialGrid.get_agents_in_region.
  rewrite elem_of_elements, elem_of_list_to_set, list_elem_of_In, in_flat_map. split.
  - intros (row & Hrow & Hin). apply in_flat_map in Hin as (col & Hcol & Hin).
    apply list_elem_of_In, elem_of_range in Hrow.
    apply list_elem_of_In, elem_of_range in Hcol.
    apply list_elem_of_In, elem_of_elements in Hin.
    exists col, row. split_and!; [lia..|done].
  - intros (col & row & Hcol & Hrow & Hin).
    exists row. split; [apply list_elem_of_In, elem_of_range; lia|].
    apply in_flat_map. exists col. split; [apply list_elem_of_In, elem_of_range; lia|].
    by apply list_elem_of_In, elem_of_elements.
Qed.

(** X9. [get_agents_in_region] lists no agent twice, and it lists every
    indexed agent whose position lies in the rectangle asked for and inside
    the grid proper (at or right of 0 and strictly left of cols * cell_size,
    and the same vertically). *)
Theorem get_agents_in_region_covers
    (g : SpatialGrid.t) (a : Agent.t) (min_x min_y max_x max_y : Q) :
  (0 < SpatialGrid.cell_size g)%Q →
  indexed_at_position g a →
  (0 <= Position.x (Agent.position a))%Q →
  (Position.x (Agent.position a) < inject_Z (SpatialGrid.cols g) * SpatialGrid.cell_size g)%Q →
  (0 <= Position.y (Agent.position a))%Q →
  (Position.y (Agent.position a) < inject_Z (SpatialGrid.rows g) * SpatialGrid.cell_size g)%Q →
  (min_x <= Position.x (Agent.position a) <= max_x)%Q →
  (min_y <= Position.y (Agent.position a) <= max_y)%Q →
  Agent.agent_id a ∈ SpatialGrid.get_agents_in_region g min_x min_y max_x max_y
  ∧ NoDup (SpatialGrid.get_agents_in_region g min_x min_y max_x max_y).
Proof.
  intros Hcs Hidx Hx0 Hxn Hy0 Hyn [Hx1 Hx2] [Hy1 Hy2].
  split; [|apply NoDup_elements].
  apply elem_of_get_agents_in_region.
  destruct (region_bounds _ min_x _ max_x _ Hcs Hx0 Hxn Hx1 Hx2) as [Ec Hc].
  destruct (region_bounds _ min_y _ max_y _ Hcs Hy0 Hyn Hy1 Hy2) as [Er Hr].
  unfold indexed_at_position, SpatialGrid._get_cell_coords in Hidx. rewrite Ec, Er in Hidx.
  eauto.
Qed.

Lemma get_agents_in_region_covers_witness :
  let g := World.spatial_grid three_agents.1 in
  "b"%string ∈ SpatialGrid.get_agents_in_region g 55 0 70 20
  ∧ NoDup (SpatialGrid.get_agents_in_region g 55 0 70 20).
Proof.
  intros g.
  apply (get_agents_in_region_covers g (make_agent "b" 60 10 0 0) 55 0 70 20).
  - reflexivity.
  - unfold indexed_at_position. decide_by_computation.
  - vm_compute. discriminate.
  - reflexivity.
  - vm_compute. discriminate.
  - reflexivity.
  - split; vm_compute; discriminate.
  - split; vm_compute; discriminate.
Defined.

Lemma flat_map_all_nil {A B} (f : A → list B) (l : list A) :
  (∀ x, f x = []) → flat_map f l = [].
Proof. intros H. induction l as [|x l IH]; cbn; [done|]. by rewrite H, IH. Qed.

Lemma range_empty (lo hi : Z) : hi <= lo → range lo hi = [].
Proof. intros H. unfold range. apply seqZ_nil. lia. Qed.

Lemma int_beyond (cs x : Q) (n : Z) :
  (0 < cs)%Q → 1 <= n → (inject_Z n * cs <= x)%Q → n <= int (x / cs).
Proof.
  intros Hcs Hn Hx.
  assert (Hq : (inject_Z n <= x / cs)%Q) by (by apply Qle_shift_div_l).
  assert (H1 : (inject_Z 1 <= inject_Z n)%Q) by (by rewrite <- Zle_Qle).
  rewrite int_nonneg.
  - rewrite <- (Qfloor_Z n). by apply Qfloor_resp_le.
  - change (inject_Z 1) with 1%Q in H1. lra.
Qed.

(** X10. A region query whose rectangle starts at or beyond the right edge
    of the grid (cols * cell_size) or at or beyond its top edge returns
    nothing, although the agents at those positions are indexed, clamped,
    in the last column or row. *)
Theorem get_agents_in_region_beyond_edge
    (g : SpatialGrid.t) (min_x min_y max_x max_y : Q) :
  (0 < SpatialGrid.cell_size g)%Q →
  1 <= SpatialGrid.cols g → 1 <= SpatialGrid.rows g →
  (inject_Z (SpatialGrid.cols g) * SpatialGrid.cell_size g <= min_x)%Q
  ∨ (inject_Z (SpatialGrid.rows g) * SpatialGrid.cell_size g <= min_y)%Q →
  SpatialGrid.get_agents_in_region g min_x min_y max_x max_y = [].
Proof.
  intros Hcs Hcols Hrows Hbeyond. unfold SpatialGrid.get_agents_in_region.
  match goal with |- elements (list_to_set ?l) = _ => assert (Hl : l = []) end.
  { destruct Hbeyond as [Hx|Hy].
    - apply flat_map_all_nil. intros row. rewrite range_empty; [done|].
      pose proof (int_beyond _ _ _ Hcs Hcols Hx). lia.
    - rewrite (range_empty (Z.max 0 (int (min_y / SpatialGrid.cell_size g)))).
      + reflexivity.
      + pose proof (int_beyond _ _ _ Hcs Hrows Hy). lia. }
  rewrite Hl. rewrite list_to_set_nil. apply elements_empty.
Qed.

Lemma get_agents_in_region_beyond_edge_witness :
  let w := small_world [make_agent "a" 100 50 0 0] in
  indexed_at_position (World.spatial_grid w.1) (make_agent "a" 100 50 0 0)
  ∧ SpatialGrid.get_agents_in_region (World.spatial_grid w.1) 100 0 200 100 = [].
Proof.
  intros w. split; [unfold indexed_at_position; decide_by_computation|].
  apply (get_agents_in_region_beyond_edge (World.spatial_grid w.1) 100 0 200 100).
  - reflexivity.
  - vm_compute. discriminate.
  - vm_compute. discriminate.
  - left. vm_compute. discriminate.
Defined.

Lemma cell_sizes_sum (grid : gmap (Z * Z) (gset string)) :
  ∀ positions : gmap string (Z * Z),
    (∀ id c, id ∈ SpatialGrid.cell grid c ↔ positions !! id = Some c) →
    sum_list (map size (map snd (map_to_list grid))) = size positions.
Proof.
  induction grid as [|c0 s m Hm IH] using map_ind; intros positions Hwf.
  - rewrite map_to_list_empty. cbn.
    assert (positions = ∅) as ->; [|by rewrite map_size_empty].
    apply map_empty. intros id. destruct (positions !! id) as [c|] eqn:E; [|done].
    apply Hwf in E. unfold SpatialGrid.cell in E. rewrite lookup_empty in E. set_solver.
  - rewrite (map_to_list_insert m c0 s Hm). cbn [map snd sum_list_with id].
    pose (P := λ kv : string * (Z * Z), kv.2 = c0).
    rewrite <- (map_filter_union_complement P positions).
    rewrite map_size_disj_union by apply map_disjoint_filter_complement.
    f_equal.
    + rewrite <- (size_dom (D := gset string)). f_equal. apply set_eq. intros id.
      rewrite elem_of_dom. unfold is_Some. setoid_rewrite map_lookup_filter_Some.
      specialize (Hwf id c0). rewrite cell_insert, decide_True in Hwf by done.
      rewrite Hwf. unfold P. cbn. split.
      * intros H. exists c0. done.
      * intros (c & H & ->). done.
    + apply IH. intros id c. rewrite map_lookup_filter_Some. unfold P. cbn.
      specialize (Hwf id c). rewrite cell_insert in Hwf.
      destruct (decide (c0 = c)) as [<-|Hne].
      * unfold SpatialGrid.cell. rewrite Hm. cbn. split; [set_solver|]. intros [_ H]. done.
      * rewrite Hwf. split; [|tauto]. intros H. split; [done|]. congruence.
Qed.

Lemma occupied_cells_le_sum (cells : list (gset string)) :
  (length (filter (λ agents, agents ≠ ∅) cells) <= sum_list (map size cells))%nat.
Proof.
  induction cells as [|s cells IH]; [done|].
  rewrite filter_cons. cbn [map sum_list_with id].
  destruct (decide (s ≠ ∅)) as [Hs|Hs]; cbn [length]; [|lia].
  assert (size s ≠ 0%nat) by (by rewrite size_empty_iff; intros ?%leibniz_equiv).
  lia.
Qed.

(** X11. On a consistent grid the [total_agents] count of [get_stats] is
    the number of agents indexed, and [occupied_cells] is at most that
    number. *)
Theorem get_stats_counts_indexed_agents (g : SpatialGrid.t) :
  grid_wf g →
  (SpatialGrid.get_stats g).1.1 = size (SpatialGrid.agent_positions g)
  ∧ ((SpatialGrid.get_stats g).1.2 <= size (SpatialGrid.agent_positions g))%nat
  ∧ (SpatialGrid.get_stats g).2 = SpatialGrid.cols g * SpatialGrid.rows g.
Proof.
  intros Hwf. unfold SpatialGrid.get_stats. cbn [fst snd].
  rewrite <- (cell_sizes_sum (SpatialGrid.grid g) (SpatialGrid.agent_positions g) Hwf).
  split_and!; [done|apply occupied_cells_le_sum|done].
Qed.

Lemma get_stats_counts_indexed_agents_witness :
  (SpatialGrid.get_stats (World.spatial_grid three_agents.1)).1.1 = 3%nat.
Proof.
  rewrite (proj1 (get_stats_counts_indexed_agents _ three_agents_grid_wf)).
  vm_compute. reflexivity.
Defined.

(** ** environment/physics.py *)

Lemma Qltb_shift (d : Q) : Qltb 0 (d - 1) = Qltb 1 d.
Proof.
  destruct (Qltb 1 d) eqn:E.
  - apply Qltb_lt in E. apply Qltb_lt. lra.
  - apply Qltb_ge in E. apply Qltb_ge. lra.
Qed.

Lemma cleanup_filter (forces : list Force.t) :
  filter (λ force, Qltb 0 (Force.duration force) = true)
    (map (λ force, Force.mk (Force.fx force) (Force.fy force) (Force.duration force - 1)%Q) forces)
  = map (λ force, Force.mk (Force.fx force) (Force.fy force) (Force.duration force - 1)%Q)
      (filter (λ force, Qltb 1 (Force.duration force) = true) forces).
Proof.
  induction forces as [|f forces IH]; [done|]. cbn [map]. rewrite !filter_cons.
  cbn [Force.duration]. rewrite Qltb_shift.
  destruct (decide (Qltb 1 (Force.duration f) = true)); cbn [map]; by rewrite IH.
Qed.

(** The forces held by value: [_cleanup_forces] keeps, with its duration
    lowered by one, every force of the agent whose duration was above 1
    and drops the others. *)
Lemma cleanup_forces_by_value (ph : PhysicsEngine.t) (id : string) (forces : list Force.t) :
  PhysicsEngine.agent_forces ph !! id = Some forces →
  PhysicsEngine.agent_forces (PhysicsEngine._cleanup_forces ph id) !! id
  = Some (map lowered (filter (λ force, Qltb 1 (Force.duration force) = true) forces)).
Proof.
  intros Hf. unfold PhysicsEngine._cleanup_forces. rewrite Hf.
  cbn [PhysicsEngine.agent_forces PhysicsEngine.set_agent_forces].
  by rewrite lookup_insert_eq, cleanup_filter.
Qed.

Lemma outlasts_cleanup_insert (objects : gmap nat Force.t) (r : nat) (f : Force.t)
    (refs : list nat) :
  r ∉ refs →
  filter (λ force, outlasts_cleanup (<[r := f]> objects) force = true) refs
  = filter (λ force, outlasts_cleanup objects force = true) refs.
Proof.
  induction refs as [|k refs IH]; intros Hr; [done|].
  apply not_elem_of_cons in Hr as [Hne Hr]. rewrite !filter_cons.
  assert (Hk : outlasts_cleanup (<[r := f]> objects) k = outlasts_cleanup objects k).
  { unfold outlasts_cleanup. by rewrite (lookup_insert_ne objects r k f Hne). }
  rewrite Hk, (IH Hr). done.
Qed.

Lemma omap_ext_in {A B} (f g : A → option B) (l : list A) :
  (∀ x, x ∈ l → f x = g x) → omap f l = omap g l.
Proof.
  induction l as [|k l IH]; intros H; [done|]. cbn.
  rewrite (H k) by (by left). rewrite IH; [done|]. intros x Hx. apply H. by right.
Qed.

Lemma omap_cons_Some {A B} (f : A → option B) (k : A) (l : list A) (y : B) :
  f k = Some y → omap f (k :: l) = y :: omap f l.
Proof. intros H. cbn. by rewrite H. Qed.

Lemma omap_cons_None {A B} (f : A → option B) (k : A) (l : list A) :
  f k = None → omap f (k :: l) = omap f l.
Proof. intros H. cbn. by rewrite H. Qed.

Lemma expire_some (objects : gmap nat Force.t) (active : list nat) (k : nat) (f : Force.t) :
  objects !! k = Some f →
  ForceStore.expire (objects, active) k
  = (<[k := lowered f]> objects, if Qltb 1 (Force.duration f) then active ++ [k] else active).
Proof.
  intros Hf. unfold ForceStore.expire. rewrite Hf. cbn [Force.duration].
  by rewrite Qltb_shift.
Qed.

Lemma expire_none (objects : gmap nat Force.t) (active : list nat) (k : nat) :
  objects !! k = None → ForceStore.expire (objects, active) k = (objects, active).
Proof. intros Hf. unfold ForceStore.expire. by rewrite Hf. Qed.

(** The loop of [_cleanup_forces] over a list that holds no address
    twice. *)
Lemma expire_fold (refs : list nat) (objects : gmap nat Force.t) (active : list nat) :
  NoDup refs →
  let r := fold_left ForceStore.expire refs (objects, active) in
  r.2 = active ++ filter (λ force, outlasts_cleanup objects force = true) refs
  ∧ ∀ force, r.1 !! force
             = if bool_decide (force ∈ refs) then lowered <$> objects !! force
               else objects !! force.
Proof.
  intros Hnd. revert objects active.
  induction Hnd as [|k refs Hk Hnd IH]; intros objects active; cbn [fold_left].
  { split; [by rewrite app_nil_r|]. intros force.
    by rewrite bool_decide_eq_false_2 by set_solver. }
  destruct (objects !! k) as [f|] eqn:Hf.
  - rewrite (expire_some objects active k f Hf).
    assert (Ho : outlasts_cleanup objects k = Qltb 1 (Force.duration f))
      by (unfold outlasts_cleanup; by rewrite Hf).
    destruct (IH (<[k := lowered f]> objects)
                (if Qltb 1 (Force.duration f) then active ++ [k] else active)) as [I1 I2].
    split.
    + rewrite I1, outlasts_cleanup_insert by done.
      destruct (Qltb 1 (Force.duration f)) eqn:Hd.
      * rewrite filter_cons_True by done. by rewrite <- app_assoc.
      * rewrite filter_cons_False by (by rewrite Ho). done.
    + intros force. rewrite I2. destruct (decide (force = k)) as [->|Hne].
      * rewrite bool_decide_eq_false_2 by done. rewrite bool_decide_eq_true_2 by set_solver.
        by rewrite lookup_insert_eq, Hf.
      * rewrite (lookup_insert_ne objects k force (lowered f)) by done.
        destruct (decide (force ∈ refs)) as [Hin|Hout].
        -- rewrite !bool_decide_eq_true_2 by set_solver. done.
        -- rewrite !bool_decide_eq_false_2 by set_solver. done.
  - rewrite (expire_none objects active k Hf).
    assert (Ho : outlasts_cleanup objects k = false)
      by (unfold outlasts_cleanup; by rewrite Hf).
    destruct (IH objects active) as [I1 I2].
    split; [rewrite filter_cons_False by (by rewrite Ho); done|].
    intros force. rewrite I2. destruct (decide (force = k)) as [->|Hne].
    + rewrite bool_decide_eq_false_2 by done. rewrite bool_decide_eq_true_2 by set_solver.
      by rewrite Hf.
    + destruct (decide (force ∈ refs)) as [Hin|Hout].
      * rewrite !bool_decide_eq_true_2 by set_solver. done.
      * rewrite !bool_decide_eq_false_2 by set_solver. done.
Qed.

Lemma cleanup_forces_store (s : ForceStore.t) (id : string) (refs : list nat) :
  ForceStore.agent_forces s !! id = Some refs → NoDup refs →
  ForceStore.agent_forces (ForceStore._cleanup_forces s id)
  = <[id := filter (λ force, outlasts_cleanup (ForceStore.objects s) force = true) refs]>
      (ForceStore.agent_forces s)
  ∧ ∀ force, ForceStore.objects (ForceStore._cleanup_forces s id) !! force
             = if bool_decide (force ∈ refs) then lowered <$> ForceStore.objects s !! force
               else ForceStore.objects s !! force.
Proof.
  intros Hrefs Hnd. unfold ForceStore._cleanup_forces. rewrite Hrefs.
  destruct (expire_fold refs (ForceStore.objects s) [] Hnd) as [E1 E2].
  destruct (fold_left ForceStore.expire refs (ForceStore.objects s, [])) as [objects active].
  cbn [fst snd app ForceStore.agent_forces ForceStore.objects] in *. by subst active.
Qed.

(** The two ways of holding the forces agree on the forces of an agent
    whose list holds no [Force] object twice. *)
Lemma cleanup_by_value_agrees (s : ForceStore.t) (ph : PhysicsEngine.t) (id : string)
    (refs : list nat) :
  ForceStore.agent_forces s !! id = Some refs → NoDup refs →
  PhysicsEngine.agent_forces ph !! id = Some (ForceStore.forces_of s id) →
  PhysicsEngine.agent_forces (PhysicsEngine._cleanup_forces ph id) !! id
  = Some (ForceStore.forces_of (ForceStore._cleanup_forces s id) id).
Proof.
  intros Hrefs Hnd Hph. rewrite (cleanup_forces_by_value ph id _ Hph). f_equal.
  destruct (cleanup_forces_store s id refs Hrefs Hnd) as [Hlists Hobjs].
  unfold ForceStore.forces_of. rewrite Hlists, lookup_insert_eq, Hrefs. cbn [default].
  assert (Hgen : ∀ l, (∀ r, r ∈ l → r ∈ refs) →
    map lowered (filter (λ force, Qltb 1 (Force.duration force) = true)
                   (omap (λ force, ForceStore.objects s !! force) l))
    = omap (λ force, ForceStore.objects (ForceStore._cleanup_forces s id) !! force)
        (filter (λ force, outlasts_cleanup (ForceStore.objects s) force = true) l)).
  { induction l as [|k l IH]; intros Hsub; [done|].
    destruct (ForceStore.objects s !! k) as [f|] eqn:Hf.
    - assert (Ho : outlasts_cleanup (ForceStore.objects s) k = Qltb 1 (Force.duration f))
        by (unfold outlasts_cleanup; by rewrite Hf).
      rewrite (omap_cons_Some _ k l f Hf).
      destruct (Qltb 1 (Force.duration f)) eqn:Hd.
      + rewrite !filter_cons_True by done. cbn [map].
        rewrite (omap_cons_Some _ k _ (lowered f)).
        * f_equal. apply IH. set_solver.
        * rewrite Hobjs, bool_decide_eq_true_2, Hf by set_solver. done.
      + rewrite !filter_cons_False by (by rewrite ?Ho, ?Hd). apply IH. set_solver.
    - assert (Ho : outlasts_cleanup (ForceStore.objects s) k = false)
        by (unfold outlasts_cleanup; by rewrite Hf).
      rewrite (omap_cons_None _ k l Hf).
      rewrite filter_cons_False by (by rewrite Ho). apply IH. set_solver. }
  by apply Hgen.
Qed.

(** X12. [_cleanup_forces], with the [Force] objects held by address as
    the code holds them.  For an agent whose list holds no [Force] object
    twice: the forces kept are those whose duration was above 1; every
    [Force] object of the list has its duration lowered by one, in place,
    and no other object changes; no other agent's list changes.  So the
    forces of another agent read as before when it shares no object with
    this one, and a [Force] object that it does share has lost duration
    for it too. *)
Theorem cleanup_forces_expires (s : ForceStore.t) (id : string) (refs : list nat) :
  ForceStore.agent_forces s !! id = Some refs → NoDup refs →
  let s' := ForceStore._cleanup_forces s id in
  ForceStore.agent_forces s' !! id
  = Some (filter (λ force, outlasts_cleanup (ForceStore.objects s) force = true) refs)
  ∧ (∀ force, ForceStore.objects s' !! force
              = if bool_decide (force ∈ refs) then lowered <$> ForceStore.objects s !! force
                else ForceStore.objects s !! force)
  ∧ Forall (λ f, (0 < Force.duration f)%Q) (ForceStore.forces_of s' id)
  ∧ ∀ id', id' ≠ id →
      ForceStore.agent_forces s' !! id' = ForceStore.agent_forces s !! id'
      ∧ ((∀ force, force ∈ default [] (ForceStore.agent_forces s !! id') → force ∉ refs) →
         ForceStore.forces_of s' id' = ForceStore.forces_of s id')
      ∧ ∀ force f, force ∈ default [] (ForceStore.agent_forces s !! id') → force ∈ refs →
          ForceStore.objects s !! force = Some f →
          lowered f ∈ ForceStore.forces_of s' id'.
Proof.
  intros Hrefs Hnd s'. subst s'.
  destruct (cleanup_forces_store s id refs Hrefs Hnd) as [Hlists Hobjs].
  split; [by rewrite Hlists, lookup_insert_eq|]. split; [done|]. split.
  - unfold ForceStore.forces_of. rewrite Hlists, lookup_insert_eq. cbn [default].
    apply List.Forall_forall. intros f Hin. apply list_elem_of_In, list_elem_of_omap in Hin
      as (force & Hforce & Hf).
    apply list_elem_of_filter in Hforce as [Hlast Hforce].
    cbv beta in Hf. rewrite Hobjs, bool_decide_eq_true_2 in Hf by done.
    unfold outlasts_cleanup in Hlast.
    destruct (ForceStore.objects s !! force) as [f0|]; [|done].
    injection Hf as <-. apply Qltb_lt in Hlast. cbn. lra.
  - intros id' Hne.
    assert (Hl : ForceStore.agent_forces (ForceStore._cleanup_forces s id) !! id'
                 = ForceStore.agent_forces s !! id')
      by (by rewrite Hlists, lookup_insert_ne).
    split; [done|]. split.
    + intros Hapart. unfold ForceStore.forces_of. rewrite Hl.
      apply omap_ext_in. intros force Hin.
      by rewrite Hobjs, bool_decide_eq_false_2 by (by apply Hapart).
    + intros force f Hin Hshared Hf. unfold ForceStore.forces_of. rewrite Hl.
      apply list_elem_of_omap. exists force. split; [done|]. cbv beta.
      by rewrite Hobjs, bool_decide_eq_true_2, Hf.
Qed.

Lemma cleanup_forces_expires_witness :
  ForceStore.forces_of shared_force "b" = [Force.mk 1 0 2]
  ∧ ForceStore.agent_forces (ForceStore._cleanup_forces shared_force "a") !! "b"%string
    = Some [0%nat]
  ∧ lowered (Force.mk 1 0 2)
    ∈ ForceStore.forces_of (ForceStore._cleanup_forces shared_force "a") "b".
Proof.
  assert (Hrefs : ForceStore.agent_forces shared_force !! "a"%string = Some [0%nat])
    by (vm_compute; reflexivity).
  assert (Hnd : NoDup [0%nat]) by (apply NoDup_singleton).
  destruct (cleanup_forces_expires shared_force "a" [0%nat] Hrefs Hnd) as (_ & _ & _ & Hother).
  destruct (Hother "b"%string ltac:(done)) as (Hlist & _ & Hshared).
  split; [vm_compute; reflexivity|]. split; [rewrite Hlist; vm_compute; reflexivity|].
  apply (Hshared 0%nat).
  - vm_compute. set_solver.
  - set_solver.
  - vm_compute. reflexivity.
Defined.

(** X13. [apply_force] adds the components of the force to the total
    force on that agent and leaves the total force on every other agent as
    it was. *)
Theorem apply_force_adds_to_total (ph : PhysicsEngine.t) (id : string) (force : Force.t) :
  PhysicsEngine._calculate_total_forces (PhysicsEngine.apply_force ph id force) id
  = ((PhysicsEngine._calculate_total_forces ph id).1 + Force.fx force,
     (PhysicsEngine._calculate_total_forces ph id).2 + Force.fy force)%Q
  ∧ ∀ id', id' ≠ id →
      PhysicsEngine._calculate_total_forces (PhysicsEngine.apply_force ph id force) id'
      = PhysicsEngine._calculate_total_forces ph id'.
Proof.
  unfold PhysicsEngine._calculate_total_forces, PhysicsEngine.apply_force.
  cbn [PhysicsEngine.agent_forces PhysicsEngine.set_agent_forces PhysicsEngine.gravity
       PhysicsEngine.wind].
  split.
  - rewrite lookup_insert_eq, fold_left_app. cbn [fold_left].
    destruct (PhysicsEngine.agent_forces ph !! id) as [forces|]; cbn [default fold_left].
    + by destruct (fold_left _ forces _).
    + done.
  - intros id' Hne. by rewrite lookup_insert_ne.
Qed.

Lemma handle_boundaries_spec (ph : PhysicsEngine.t) (a : Agent.t) (new_x new_y : Q) :
  (0 <= PhysicsEngine.world_width ph)%Q → (0 <= PhysicsEngine.world_height ph)%Q →
  within_world ph (Agent.position (PhysicsEngine._handle_boundaries ph a new_x new_y).1)
  ∧ ((PhysicsEngine._handle_boundaries ph a new_x new_y).2 = None
     ↔ within_world ph (Position.mk new_x new_y)).
Proof.
  intros Hw Hh. unfold PhysicsEngine._handle_boundaries, within_world, Agent.position.
  destruct (AgentState.velocity (Agent.state a)) as [vx vy].
  destruct (Qltb new_x 0) eqn:X0; [|destruct (Qltb (PhysicsEngine.world_width ph) new_x) eqn:X1];
    (destruct (Qltb new_y 0) eqn:Y0;
       [|destruct (Qltb (PhysicsEngine.world_height ph) new_y) eqn:Y1]);
    cbn;
    repeat match goal with
           | H : Qltb _ _ = true |- _ => apply Qltb_lt in H
           | H : Qltb _ _ = false |- _ => apply Qltb_ge in H
           end;
    (split; [lra|]); split; intros H; try discriminate; try done; lra.
Qed.

(** X14. [_handle_boundaries] always leaves the agent inside the world
    (the world having non-negative width and height), and it reports a
    collision exactly when the candidate position was outside. *)
Theorem handle_boundaries_clamps (ph : PhysicsEngine.t) (a : Agent.t) (new_x new_y : Q) :
  (0 <= PhysicsEngine.world_width ph)%Q → (0 <= PhysicsEngine.world_height ph)%Q →
  within_world ph (Agent.position (PhysicsEngine._handle_boundaries ph a new_x new_y).1)
  ∧ ((PhysicsEngine._handle_boundaries ph a new_x new_y).2 = None
     ↔ within_world ph (Position.mk new_x new_y)).
Proof. apply handle_boundaries_spec. Qed.

Lemma handle_boundaries_clamps_witness :
  within_world (PhysicsEngine.__init__ 100 100)
    (Agent.position
       (PhysicsEngine._handle_boundaries (PhysicsEngine.__init__ 100 100)
          (make_agent "a" 95 50 10 0) 105 (-3)).1).
Proof.
  refine (proj1 (handle_boundaries_clamps _ _ _ _ _ _)); vm_compute; discriminate.
Defined.

Lemma integrate_agent_within (ph : PhysicsEngine.t) (dt : Q) (id : string) (a : Agent.t) :
  (0 <= PhysicsEngine.world_width ph)%Q → (0 <= PhysicsEngine.world_height ph)%Q →
  within_world ph (Agent.position (PhysicsEngine.integrate_agent ph dt id a).1.2).
Proof.
  intros Hw Hh. unfold PhysicsEngine.integrate_agent.
  destruct (PhysicsEngine._calculate_total_forces ph id) as [fx fy].
  destruct (AgentState.velocity (Agent.state a)) as [vx vy].
  match goal with |- context [PhysicsEngine._handle_boundaries ph a ?x ?y] =>
    pose proof (proj1 (handle_boundaries_spec ph a x y Hw Hh)) as Hb;
    destruct (PhysicsEngine._handle_boundaries ph a x y) as [a1 ev] end.
  cbn [fst] in Hb.
  by destruct ev as [ev|]; [destruct (AgentState.velocity (Agent.state a1))|].
Qed.

Lemma within_world_constants_iff (ph ph' : PhysicsEngine.t) (p : Position.t) :
  physics_constants ph' = physics_constants ph → within_world ph' p ↔ within_world ph p.
Proof. intros H. split; apply within_world_constants; done. Qed.

(** After the integration loop of [update] every agent of the dict is
    inside the world. *)
Lemma integrate_all_within (dt : Q) (ids : list string) :
  ∀ (ph : PhysicsEngine.t) (rt : Runtime.t),
    (0 <= PhysicsEngine.world_width ph)%Q → (0 <= PhysicsEngine.world_height ph)%Q →
    ∀ id a', id ∈ ids →
      Runtime.objects (PhysicsEngine.integrate_all dt ids ph rt).1.2 !! id = Some a' →
      within_world ph (Agent.position a').
Proof.
  induction ids as [|k ids IH]; intros ph rt Hw Hh id a' Hin Ha'.
  { by apply elem_of_nil in Hin. }
  destruct (Runtime.objects rt !! k) as [b|] eqn:Hb.
  - destruct (integrate_all_cons dt k ids ph rt b Hb) as [evs Hcons].
    rewrite <- Hcons in Ha'. rewrite (fold_integrate_events dt ids _ _ evs []) in Ha'.
    change (fold_left _ ids (?p, ?r, [])) with (PhysicsEngine.integrate_all dt ids p r) in Ha'.
    destruct (integrate_agent_spec ph dt k b) as [Hc _].
    assert (Hc' : PhysicsEngine.world_width (PhysicsEngine.integrate_agent ph dt k b).1.1
                  = PhysicsEngine.world_width ph
                  ∧ PhysicsEngine.world_height (PhysicsEngine.integrate_agent ph dt k b).1.1
                    = PhysicsEngine.world_height ph)
      by (unfold physics_constants in Hc; split; congruence).
    destruct Hc' as [Hcw Hch].
    destruct (decide (id ∈ ids)) as [Hids|Hids].
    + apply (within_world_constants_iff _ _ _ Hc).
      eapply IH; [by rewrite Hcw|by rewrite Hch|exact Hids|exact Ha'].
    + apply elem_of_cons in Hin as [->|Hin]; [|done].
      rewrite integrate_all_other in Ha' by done. cbn in Ha'.
      rewrite lookup_insert_eq in Ha'. injection Ha' as <-.
      by apply integrate_agent_within.
  - assert (Hskip : PhysicsEngine.integrate_all dt (k :: ids) ph rt
                    = PhysicsEngine.integrate_all dt ids ph rt).
    { unfold PhysicsEngine.integrate_all. cbn [fold_left]. by rewrite Hb. }
    rewrite Hskip in Ha'.
    destruct (decide (id ∈ ids)) as [Hids|Hids]; [by eapply IH|].
    apply elem_of_cons in Hin as [->|Hin]; [|done].
    rewrite integrate_all_other in Ha' by done. congruence.
Qed.

Section CollisionEvents.
Variable sqrt : Q → Q.

Lemma check_pair_events (ph : PhysicsEngine.t) (id1 id2 : string) (rt : Runtime.t)
    (evs : list Event.t) :
  ∃ new, (PhysicsEngine.check_pair sqrt ph id1 (rt, evs) id2).2 = evs ++ new
         ∧ Forall (λ ev, is_Some (Event.target_id ev)) new
         ∧ (new = [] → (PhysicsEngine.check_pair sqrt ph id1 (rt, evs) id2).1 = rt).
Proof.
  unfold PhysicsEngine.check_pair.
  destruct (Runtime.objects rt !! id1) as [a1|];
    [|exists []; by rewrite app_nil_r].
  destruct (Runtime.objects rt !! id2) as [a2|];
    [|exists []; by rewrite app_nil_r].
  destruct (Position.distance_lt _ _ _); [|exists []; by rewrite app_nil_r].
  destruct (PhysicsEngine._resolve_collision sqrt ph a1 a2) as [b1 b2].
  eexists [Event.mk COLLISION id1 (Some id2) _]. cbn [fst snd]. split_and!; [done| |done].
  apply List.Forall_cons; [by eexists|apply List.Forall_nil].
Qed.

Lemma check_pairs_events (ph : PhysicsEngine.t) (id1 : string) (ids : list string)
    (acc : Runtime.t * list Event.t) :
  ∃ new, (fold_left (PhysicsEngine.check_pair sqrt ph id1) ids acc).2 = acc.2 ++ new
         ∧ Forall (λ ev, is_Some (Event.target_id ev)) new
         ∧ (new = [] → (fold_left (PhysicsEngine.check_pair sqrt ph id1) ids acc).1 = acc.1).
Proof.
  revert acc. induction ids as [|id2 ids IH]; intros [rt evs]; cbn [fold_left].
  - exists []. by rewrite app_nil_r.
  - destruct (check_pair_events ph id1 id2 rt evs) as (new1 & E1 & F1 & U1).
    destruct (IH (PhysicsEngine.check_pair sqrt ph id1 (rt, evs) id2)) as (new2 & E2 & F2 & U2).
    exists (new1 ++ new2). cbn [fst snd] in *. split_and!.
    + by rewrite E2, E1, <- app_assoc.
    + by apply Forall_app.
    + intros Hnil. apply app_eq_nil in Hnil as [-> ->]. by rewrite U2, U1.
Qed.

Lemma check_agent_collisions_events (ph : PhysicsEngine.t) (ids : list string)
    (acc : Runtime.t * list Event.t) :
  ∃ new, (PhysicsEngine._check_agent_collisions sqrt ph ids acc).2 = acc.2 ++ new
         ∧ Forall (λ ev, is_Some (Event.target_id ev)) new
         ∧ (new = [] → (PhysicsEngine._check_agent_collisions sqrt ph ids acc).1 = acc.1).
Proof.
  revert acc. induction ids as [|id1 ids IH]; intros acc;
    cbn [PhysicsEngine._check_agent_collisions].
  - exists []. by rewrite app_nil_r.
  - destruct (check_pairs_events ph id1 ids acc) as (new1 & E1 & F1 & U1).
    destruct (IH (fold_left (PhysicsEngine.check_pair sqrt ph id1) ids acc))
      as (new2 & E2 & F2 & U2).
    exists (new1 ++ new2). split_and!.
    + by rewrite E2, E1, <- app_assoc.
    + by apply Forall_app.
    + intros Hnil. apply app_eq_nil in Hnil as [-> ->]. by rewrite U2, U1.
Qed.

(** X15. After [PhysicsEngine.update] every agent of the dict is inside
    the world unless the update reports a collision between two agents:
    the pairwise resolution is the only step that can move an agent out of
    bounds. *)
Theorem update_within_world_unless_agents_collide
    (ph : PhysicsEngine.t) (ids : list string) (rt : Runtime.t) (dt : Q) :
  (0 <= PhysicsEngine.world_width ph)%Q → (0 <= PhysicsEngine.world_height ph)%Q →
  Forall (λ ev, Event.target_id ev = None) (PhysicsEngine.update sqrt ph ids rt dt).2 →
  positions_within_world ph (PhysicsEngine.update sqrt ph ids rt dt).1.2 ids.
Proof.
  intros Hw Hh. unfold PhysicsEngine.update.
  pose proof (integrate_all_within dt ids ph (Runtime.log CallPhysicsUpdate rt) Hw Hh) as Hin.
  destruct (PhysicsEngine.integrate_all dt ids ph (Runtime.log CallPhysicsUpdate rt))
    as [[ph1 rt1] evs].
  destruct (check_agent_collisions_events ph1 ids (rt1, [])) as (new & E & F & U).
  destruct (PhysicsEngine._check_agent_collisions sqrt ph1 ids (rt1, [])) as [rt2 cev].
  cbn [fst snd app] in *. subst cev. intros Hnone.
  apply Forall_app in Hnone as [_ Hnone].
  assert (new = []) as ->.
  { destruct new as [|ev new]; [done|].
    inversion Hnone as [|? ? Hev _]. inversion F as [|? ? [t Ht] _]. congruence. }
  rewrite (U eq_refl). intros id a' Hid Ha'. by eapply Hin.
Qed.
End CollisionEvents.

Lemma update_within_world_unless_agents_collide_witness :
  let ph := PhysicsEngine.__init__ 100 100 in
  let rt := Runtime.mk {[ "a"%string := make_agent "a" 95 50 10 0 ]} calm_rng [] in
  positions_within_world ph (PhysicsEngine.update Qsqrt ph ["a"%string] rt 1).1.2 ["a"%string].
Proof.
  intros ph rt.
  apply (update_within_world_unless_agents_collide Qsqrt ph ["a"%string] rt 1).
  - vm_compute. discriminate.
  - vm_compute. discriminate.
  - vm_compute. repeat constructor.
Defined.

Section Resolve.
Variable sqrt : Q → Q.





(** X17. Two agents in contact at the same place, where the square root
    of their squared distance is 0: the collision check emits a collision
    event for the pair and changes neither agent, so that they are never
    separated. *)
Theorem coincident_agents_stay_together
    (ph : PhysicsEngine.t) (id1 id2 : string) (a1 a2 : Agent.t) (rt : Runtime.t)
    (evs : list Event.t) :
  Runtime.objects rt !! id1 = Some a1 → Runtime.objects rt !! id2 = Some a2 →
  (0 < PhysicsEngine.collision_radius ph)%Q →
  same_position (Agent.position a1) (Agent.position a2) →
  (sqrt ((Position.x (Agent.position a2) - Position.x (Agent.position a1))
         * (Position.x (Agent.position a2) - Position.x (Agent.position a1))
         + (Position.y (Agent.position a2) - Position.y (Agent.position a1))
           * (Position.y (Agent.position a2) - Position.y (Agent.position a1))) == 0)%Q →
  let r := PhysicsEngine.check_pair sqrt ph id1 (rt, evs) id2 in
  Runtime.objects r.1 = Runtime.objects rt
  ∧ ∃ ev, r.2 = evs ++ [ev] ∧ Event.source_id ev = id1 ∧ Event.target_id ev = Some id2.
Proof.
  intros H1 H2 Hr [Hx Hy] Hs. unfold PhysicsEngine.check_pair. rewrite H1, H2.
  assert (Hlt : Position.distance_lt (Agent.position a1) (Agent.position a2)
                  (PhysicsEngine.collision_radius ph * 2) = true).
  { unfold Position.distance_lt, Position.dist2. apply andb_true_iff.
    split; apply Qltb_lt; [lra|]. rewrite Hx, Hy.
    assert (0 < PhysicsEngine.collision_radius ph * PhysicsEngine.collision_radius ph)%Q
      by (by apply Qmult_lt_0_compat).
    ring_simplify. lra. }
  rewrite Hlt. unfold PhysicsEngine._resolve_collision, Agent.position in *.
  unfold Qeqb. rewrite (proj2 (Qeq_bool_iff _ 0) Hs).
  cbn [fst snd Runtime.objects Runtime.set_objects]. split.
  - rewrite (insert_id _ id1 a1) by done. by rewrite insert_id.
  - eexists. split; [done|]. done.
Qed.
End Resolve.


Lemma coincident_agents_stay_together_witness :
  let rt := Runtime.mk (<["b"%string := make_agent "b" 50 50 0 0]>
                          (<["a"%string := make_agent "a" 50 50 0 0]> ∅)) calm_rng [] in
  Runtime.objects (PhysicsEngine.check_pair Qsqrt (PhysicsEngine.__init__ 100 100) "a"
                     (rt, []) "b").1
  = Runtime.objects rt.
Proof.
  intros rt.
  refine (proj1 (coincident_agents_stay_together Qsqrt (PhysicsEngine.__init__ 100 100)
                   "a" "b" (make_agent "a" 50 50 0 0) (make_agent "b" 50 50 0 0) rt []
                   _ _ _ _ _)).
  - reflexivity.
  - reflexivity.
  - reflexivity.
  - split; reflexivity.
  - vm_compute. reflexivity.
Defined.

Section Explosion.
Variable sqrt : Q → Q.

Lemma explode_agent_other (center : Position.t) (radius strength : Q) (ph : PhysicsEngine.t)
    (b : Agent.t) (id : string) :
  Agent.agent_id b ≠ id →
  PhysicsEngine.agent_forces (PhysicsEngine.explode_agent sqrt center radius strength ph b) !! id
  = PhysicsEngine.agent_forces ph !! id.
Proof.
  intros Hne. unfold PhysicsEngine.explode_agent.
  destruct (_ && _); [|done]. unfold PhysicsEngine.apply_force. cbn.
  by rewrite lookup_insert_ne.
Qed.

Lemma add_explosion_other (center : Position.t) (radius strength : Q) (ids : list string)
    (rt : Runtime.t) (id : string) :
  store_wf rt → id ∉ ids →
  ∀ ph, PhysicsEngine.agent_forces
          (PhysicsEngine.add_explosion sqrt ph center radius strength ids rt) !! id
        = PhysicsEngine.agent_forces ph !! id.
Proof.
  intros Hst. unfold PhysicsEngine.add_explosion.
  induction ids as [|k ids IH]; intros Hn ph; cbn [fold_left]; [done|].
  apply not_elem_of_cons in Hn as [Hk Hn]. rewrite IH by done.
  destruct (Runtime.objects rt !! k) as [b|] eqn:Hb; [|done].
  apply explode_agent_other. rewrite (Hst k b Hb). done.
Qed.

(** X18. [add_explosion] gives one force, lasting five updates, to every
    agent of the dict that is strictly inside the radius and not at the
    centre, and no force to the agents at the centre or at or beyond the
    radius. *)
Theorem add_explosion_pushes_agents_in_range
    (ph : PhysicsEngine.t) (center : Position.t) (radius strength : Q) (ids : list string)
    (rt : Runtime.t) (id : string) (a : Agent.t) :
  store_wf rt → NoDup ids → id ∈ ids → Runtime.objects rt !! id = Some a →
  let ph' := PhysicsEngine.add_explosion sqrt ph center radius strength ids rt in
  let in_range :=
    Position.distance_lt center (Agent.position a) radius
    && Qltb 0 (Position.dist2 center (Agent.position a)) in
  (in_range = false →
   PhysicsEngine.agent_forces ph' !! id = PhysicsEngine.agent_forces ph !! id)
  ∧ (in_range = true →
     ∃ force, default [] (PhysicsEngine.agent_forces ph' !! id)
              = default [] (PhysicsEngine.agent_forces ph !! id) ++ [force]
              ∧ Force.duration force = 5%Q).
Proof.
  intros Hst Hnd. revert ph. induction Hnd as [|k ids Hk Hnd IH]; intros ph Hin Ha.
  { by apply elem_of_nil in Hin. }
  unfold PhysicsEngine.add_explosion. cbn [fold_left].
  fold (PhysicsEngine.add_explosion sqrt).
  destruct (decide (k = id)) as [->|Hne].
  - rewrite Ha.
    change (fold_left _ ids ?p) with (PhysicsEngine.add_explosion sqrt p center radius strength ids rt).
    cbn zeta. rewrite add_explosion_other by done.
    unfold PhysicsEngine.explode_agent.
    destruct (_ && _); split; intros Hr; try done.
    unfold PhysicsEngine.apply_force. rewrite (Hst id a Ha).
    cbn [PhysicsEngine.agent_forces PhysicsEngine.set_agent_forces].
    rewrite lookup_insert_eq. cbn [default]. eexists. split; [done|]. done.
  - apply elem_of_cons in Hin as [?|Hin]; [congruence|].
    change (fold_left _ ids ?p) with (PhysicsEngine.add_explosion sqrt p center radius strength ids rt).
    destruct (Runtime.objects rt !! k) as [b|] eqn:Hb; [|by apply IH].
    specialize (IH (PhysicsEngine.explode_agent sqrt center radius strength ph b) Hin Ha).
    cbn zeta in IH. rewrite explode_agent_other in IH; [exact IH|].
    rewrite (Hst k b Hb). done.
Qed.
End Explosion.

Lemma add_explosion_pushes_agents_in_range_witness :
  let rt := edge_pair in
  let ph := PhysicsEngine.add_explosion Qsqrt (PhysicsEngine.__init__ 100 100)
              (Position.mk 0 50) 10 100 ["a"; "b"]%string rt in
  PhysicsEngine.agent_forces ph !! "a"%string = None.
Proof.
  intros rt ph.
  refine (proj1 (add_explosion_pushes_agents_in_range Qsqrt (PhysicsEngine.__init__ 100 100)
                   (Position.mk 0 50) 10 100 ["a"; "b"]%string rt "a"
                   (make_agent "a" 0 50 0 0) _ _ _ _) _).
  - intros id a Ha. unfold rt, edge_pair in Ha. cbn in Ha.
    apply lookup_insert_Some in Ha as [[<- <-]|[_ Ha]]; [done|].
    apply lookup_insert_Some in Ha as [[<- <-]|[_ Ha]]; [done|].
    by rewrite lookup_empty in Ha.
  - apply (bool_decide_unpack _). vm_compute. exact I.
  - apply list_elem_of_here.
  - reflexivity.
  - vm_compute. reflexivity.
Defined.

(** ** environment/world.py *)






Lemma dict_del_length (id : string) (keys : list string) :
  NoDup keys → id ∈ keys → S (length (dict_del id keys)) = length keys.
Proof.
  unfold dict_del. induction 1 as [|k keys Hk Hnd IH]; intros Hin.
  { by apply elem_of_nil in Hin. }
  destruct (decide (k = id)) as [->|Hne].
  - rewrite filter_cons_False by (intros C; by apply C).
    fold (dict_del id keys). rewrite dict_del_absent by done. done.
  - rewrite filter_cons_True by done. cbn. f_equal. apply IH.
    apply elem_of_cons in Hin as [?|?]; [congruence|done].
Qed.

(** X20. The agent counts of [get_statistics]: adding an agent with a new
    id raises [active] and [total_created] by one; adding one whose id is
    already registered raises [total_created] only; removing a registered
    agent lowers [active] and raises [total_removed] by one; removing an
    unknown one changes nothing. *)
Theorem statistics_follow_registry (w : World.t) (rt : Runtime.t) (a : Agent.t) (id : string) :
  let '(active, created, removed) := World.get_statistics_agents w in
  (Agent.agent_id a ∉ World.agents w →
   World.get_statistics_agents (World.add_agent w rt a).1 = (active + 1, created + 1, removed))
  ∧ (Agent.agent_id a ∈ World.agents w →
     World.get_statistics_agents (World.add_agent w rt a).1 = (active, created + 1, removed))
  ∧ (NoDup (World.agents w) → id ∈ World.agents w →
     World.get_statistics_agents (World.remove_agent w id) = (active - 1, created, removed + 1))
  ∧ (id ∉ World.agents w →
     World.get_statistics_agents (World.remove_agent w id) = (active, created, removed)).
Proof.
  unfold World.get_statistics_agents, World.add_agent, World.remove_agent.
  split_and!.
  - intros Hn. cbn. unfold dict_set. rewrite bool_decide_eq_false_2 by done.
    rewrite length_app. cbn. repeat f_equal. lia.
  - intros Hin. cbn. unfold dict_set. by rewrite bool_decide_eq_true_2.
  - intros Hnd Hin. rewrite bool_decide_eq_true_2 by done. cbn.
    pose proof (dict_del_length id _ Hnd Hin). repeat f_equal. lia.
  - intros Hn. by rewrite bool_decide_eq_false_2.
Qed.

Lemma is_position_valid_margins (w : World.t) (p : Position.t) (radius : Q) :
  World.is_position_valid w p radius = true →
  (radius <= Position.x p <= World.width w - radius)%Q
  ∧ (radius <= Position.y p <= World.height w - radius)%Q
  ∧ ∀ f, f ∈ World.features w →
      EnvironmentFeature.feature_type f = "obstacle"%string →
      EnvironmentFeature.active f = true →
      Position.distance_lt p (EnvironmentFeature.position f)
        (EnvironmentFeature.radius f + radius) = false.
Proof.
  unfold World.is_position_valid.
  destruct (Qltb (Position.x p) radius) eqn:E1; [done|].
  destruct (Qltb (World.width w - radius) (Position.x p)) eqn:E2; [done|].
  destruct (Qltb (Position.y p) radius) eqn:E3; [done|].
  destruct (Qltb (World.height w - radius) (Position.y p)) eqn:E4; [done|].
  cbn [orb]. intros Hall. apply Qltb_ge in E1, E2, E3, E4. split_and!; try done.
  intros f Hin Hty Hact. rewrite forallb_forall in Hall.
  specialize (Hall f (proj1 (list_elem_of_In _ _) Hin)).
  rewrite Hty, Hact in Hall. cbn in Hall. by apply negb_true_iff in Hall.
Qed.

Lemma sample_position_spec (attempts : nat) (w : World.t) (radius : Q) (g : Rng.t) :
  (World.is_position_valid w (World.sample_position attempts w radius g).1 radius = true
   ∨ (World.sample_position attempts w radius g).1
     = Position.mk (World.width w / 2) (World.height w / 2))
  ∧ (Rng.cursor g <= Rng.cursor (World.sample_position attempts w radius g).2
     <= Rng.cursor g + 2 * attempts)%nat
  ∧ Rng.draws (World.sample_position attempts w radius g).2 = Rng.draws g.
Proof.
  revert g. induction attempts as [|n IH]; intros g; cbn [World.sample_position].
  - split; [by right|]. split; [cbn; lia|done].
  - unfold Rng.uniform, Rng.random. cbn [Rng.draws Rng.cursor].
    match goal with |- context [if ?c then _ else _] => destruct c eqn:Hv end.
    + cbn [fst snd Rng.cursor Rng.draws]. split; [by left|]. split; [lia|done].
    + destruct (IH (Rng.mk (Rng.draws g) (S (S (Rng.cursor g))))) as (H1 & H2 & H3).
      cbn [Rng.cursor Rng.draws] in *. split; [done|]. split; [lia|done].
Qed.

(** X21. [get_random_valid_position] returns a position that
    [is_position_valid] accepts (at least [agent_radius] from every edge
    and outside every active obstacle) or else the centre of the world,
    which is what it returns when [max_attempts] is not positive; it makes
    at most two draws per attempt and touches nothing else of the
    runtime. *)
Theorem random_valid_position_or_centre
    (w : World.t) (rt : Runtime.t) (radius : Q) (max_attempts : Z) :
  let r := World.get_random_valid_position w rt radius max_attempts in
  let centre := Position.mk (World.width w / 2) (World.height w / 2) in
  (r.1 = centre
   ∨ ((radius <= Position.x r.1 <= World.width w - radius)%Q
      ∧ (radius <= Position.y r.1 <= World.height w - radius)%Q
      ∧ ∀ f, f ∈ World.features w →
          EnvironmentFeature.feature_type f = "obstacle"%string →
          EnvironmentFeature.active f = true →
          Position.distance_lt r.1 (EnvironmentFeature.position f)
            (EnvironmentFeature.radius f + radius) = false))
  ∧ (max_attempts <= 0 → r = (centre, rt))
  ∧ (Rng.cursor (Runtime.rng r.2) <= Rng.cursor (Runtime.rng rt) + 2 * Z.to_nat max_attempts)%nat
  ∧ Runtime.objects r.2 = Runtime.objects rt
  ∧ Runtime.calls r.2 = Runtime.calls rt.
Proof.
  unfold World.get_random_valid_position.
  destruct (sample_position_spec (Z.to_nat max_attempts) w radius (Runtime.rng rt))
    as (Hv & Hc & _).
  split_and!.
  - destruct (World.sample_position _ w radius _) as [p g]. cbn [fst snd] in *.
    destruct Hv as [Hv| ->]; [right; by apply is_position_valid_margins|by left].
  - intros Hn. replace (Z.to_nat max_attempts) with 0%nat by lia.
    cbn [World.sample_position]. clear. destruct rt. reflexivity.
  - destruct (World.sample_position _ w radius _). cbn [fst snd Runtime.rng Runtime.set_rng] in *. lia.
  - by destruct (World.sample_position _ w radius _).
  - by destruct (World.sample_position _ w radius _).
Qed.

(** ** environment/world.py: update_environment; core/agent.py: sense *)

Section Environment.
Variables sqrt cos sin : Q -> Q.

Lemma update_environment_features (w : World.t) (rt : Runtime.t) (dt : Q) :
  World.features (World.update_environment cos sin w rt dt).1
  = map (World.regenerate dt) (World.features w).
Proof.
  unfold World.update_environment, Rng.uniform, Rng.random.
  cbn [Runtime.rng Runtime.log Rng.draws Rng.cursor].
  by repeat (destruct (Qltb _ _)).
Qed.

(** X22. [update_environment] advances the clock by [dt] and keeps the
    weather in range: a temperature in [[-20, 40]] stays there, a humidity
    in [[0, 1]] stays there, a non-negative wind speed stays non-negative;
    it makes between three and seven draws. *)
Theorem update_environment_keeps_weather_in_range (w : World.t) (rt : Runtime.t) (dt : Q) :
  let r := World.update_environment cos sin w rt dt in
  World.time r.1 = (World.time w + dt)%Q
  ∧ ((-20 <= World.temperature w <= 40)%Q → (-20 <= World.temperature r.1 <= 40)%Q)
  ∧ ((0 <= World.humidity w <= 1)%Q → (0 <= World.humidity r.1 <= 1)%Q)
  ∧ ((0 <= World.wind_speed w)%Q → (0 <= World.wind_speed r.1)%Q)
  ∧ (Rng.cursor (Runtime.rng rt) + 3 <= Rng.cursor (Runtime.rng r.2)
     <= Rng.cursor (Runtime.rng rt) + 7)%nat.
Proof.
  unfold World.update_environment, Rng.uniform, Rng.random.
  cbn [Runtime.rng Runtime.log Rng.draws Rng.cursor].
  repeat (destruct (Qltb _ _));
    cbn [fst snd World.time World.temperature World.humidity World.wind_speed
         World.set_time World.set_temperature World.set_humidity World.set_wind
         World.set_physics World.set_features Runtime.rng Runtime.set_rng Rng.cursor];
    (split; [done|]);
    (split; [intros ?; first [done | split; [apply Q.le_max_l | by apply Q.max_lub; [|apply Q.le_min_l]]]|]);
    (split; [intros ?; first [done | split; [apply Q.le_max_l | by apply Q.max_lub; [|apply Q.le_min_l]]]|]);
    (split; [intros ?; first [done | apply Q.le_max_l]|]);
    lia.
Qed.

(** X23. After [update_environment] every active resource holds an
    ["energy_value"] that is at most its ["max_energy_value"] (100 when it
    has none); inactive features and other kinds are left as they were and
    the number of features is unchanged. *)
Theorem update_environment_caps_resources (w : World.t) (rt : Runtime.t) (dt : Q) :
  let r := World.update_environment cos sin w rt dt in
  length (World.features r.1) = length (World.features w)
  ∧ ∀ i f, World.features w !! i = Some f →
      ∃ f', World.features r.1 !! i = Some f'
        ∧ EnvironmentFeature.feature_type f' = EnvironmentFeature.feature_type f
        ∧ EnvironmentFeature.active f' = EnvironmentFeature.active f
        ∧ if String.eqb (EnvironmentFeature.feature_type f) "resource"
             && EnvironmentFeature.active f
          then ∃ e, EnvironmentFeature.properties f' !! "energy_value"%string = Some e
                    ∧ (e <= default 100 (EnvironmentFeature.properties f !! "max_energy_value"%string))%Q
                    ∧ EnvironmentFeature.properties f' !! "max_energy_value"%string
                      = EnvironmentFeature.properties f !! "max_energy_value"%string
          else f' = f.
Proof.
  intros r. subst r. rewrite update_environment_features. split; [by rewrite length_map|].
  intros i f Hf. exists (World.regenerate dt f). split.
  { change (map (World.regenerate dt) (World.features w))
      with (World.regenerate dt <$> World.features w).
    by rewrite list_lookup_fmap, Hf. }
  unfold World.regenerate.
  destruct (String.eqb _ _ && EnvironmentFeature.active f) eqn:E.
  - split; [done|]. split; [done|]. eexists. split.
    + cbn. by rewrite lookup_insert_eq.
    + split; [apply Q.le_min_l|]. cbn. by rewrite lookup_insert_ne.
  - done.
Qed.

(** X24. The observations of the inherited [sense]: every entry of
    ["nearby_agents"] describes a registered agent other than the sensing
    one, at its current position and within distance 50 of the sensing
    agent; the remaining fields are read off the agent's state. *)
Theorem sense_lists_other_agents_in_range (self : Agent.t) (w : World.t) (rt : Runtime.t) :
  let obs := Agent_base_sense sqrt self w rt in
  obs_position obs = Agent.position self
  ∧ obs_energy obs = AgentState.energy (Agent.state self)
  ∧ obs_health obs = AgentState.health (Agent.state self)
  ∧ ∀ n, n ∈ obs_nearby_agents obs →
      nearby_id n ≠ Agent.agent_id self
      ∧ ∃ id agent, id ∈ World.agents w
          ∧ Runtime.objects rt !! id = Some agent
          ∧ nearby_id n = Agent.agent_id agent
          ∧ nearby_position n = Agent.position agent
          ∧ nearby_distance n
            = Position.distance_to sqrt (Agent.position self) (Agent.position agent)
          ∧ Position.distance_le (Agent.position self) (Agent.position agent) 50 = true.
Proof.
  intros obs. split; [done|]. split; [done|]. split; [done|].
  intros n Hn. subst obs. unfold Agent_base_sense in Hn. cbn [obs_nearby_agents] in Hn.
  apply list_elem_of_omap in Hn as (id & Hid & Hsome).
  unfold World.get_agents_in_radius in Hid. apply list_elem_of_filter in Hid as [Hr _].
  unfold World.in_radius, World.get_agent in Hr.
  case_bool_decide as Hreg; [|done].
  destruct (Runtime.objects rt !! id) as [agent|] eqn:Hobj; [|done].
  destruct (String.eqb (Agent.agent_id agent) (Agent.agent_id self)) eqn:Hself; [done|].
  injection Hsome as <-. cbn [nearby_id nearby_position nearby_distance].
  split; [by apply String.eqb_neq in Hself|].
  by exists id, agent.
Qed.
End Environment.

(** ** core/engine.py: add_agent *)



(** ** core/engine.py: the registries *)

Lemma dict_set_NoDup (id : string) (keys : list string) : NoDup keys → NoDup (dict_set id keys).
Proof.
  intros Hnd. unfold dict_set. case_bool_decide as Hin; [done|].
  apply list.NoDup_app. split; [done|]. split.
  - intros x Hx Hx'. apply list_elem_of_singleton in Hx'. by subst.
  - apply NoDup_singleton.
Qed.

Lemma dict_set_length (id : string) (keys : list string) :
  (length (dict_set id keys) <= S (length keys))%nat.
Proof. unfold dict_set. case_bool_decide; [lia|]. rewrite length_app. cbn. lia. Qed.

Lemma dict_del_sublist (id : string) (keys : list string) : sublist (dict_del id keys) keys.
Proof. apply sublist_filter. Qed.

Lemma world_init_agents (width height cell_size : Q) (rt : Runtime.t) :
  World.agents (World.__init__ width height cell_size rt).1 = [].
Proof.
  unfold World.__init__, World._initialize_environment.
  destruct (World.add_obstacles _ _ _ _ _) as [fs g].
  by destruct (World.add_resources _ _ _ _ _).
Qed.

Lemma engine_add_agent_registries (e : SimulatorEngine.t) (rt : Runtime.t) (a : Agent.t) :
  registries_consistent e →
  registries_consistent (SimulatorEngine.add_agent e rt a).1.1
  ∧ SimulatorEngine.config (SimulatorEngine.add_agent e rt a).1.1 = SimulatorEngine.config e.
Proof.
  intros (Hsync & Hnd & Hcap). unfold SimulatorEngine.add_agent.
  destruct (Z.leb_spec (SimulationConfig.max_agents (SimulatorEngine.config e))
              (Z.of_nat (length (SimulatorEngine.agents e)))) as [Hfull|Hroom]; [done|].
  unfold World.add_agent, EventManager.publish. cbn. split; [|done].
  unfold registries_consistent. cbn. split; [by rewrite Hsync|].
  split; [by apply dict_set_NoDup|].
  pose proof (dict_set_length (Agent.agent_id a) (SimulatorEngine.agents e)). lia.
Qed.

Lemma engine_remove_agent_registries (e : SimulatorEngine.t) (rt : Runtime.t) (id : string) :
  registries_consistent e →
  registries_consistent (SimulatorEngine.remove_agent e rt id).1
  ∧ SimulatorEngine.config (SimulatorEngine.remove_agent e rt id).1 = SimulatorEngine.config e.
Proof.
  intros (Hsync & Hnd & Hcap). unfold SimulatorEngine.remove_agent.
  case_bool_decide as Hin; [|done].
  unfold EventManager.publish, World.remove_agent. cbn. rewrite <- Hsync.
  rewrite bool_decide_eq_true_2 by done. split; [|done].
  unfold registries_consistent. cbn. split; [done|].
  pose proof (dict_del_sublist id (SimulatorEngine.agents e)) as Hsub.
  split; [by eapply sublist_NoDup|].
  apply sublist_length in Hsub. apply Nat2Z.inj_le in Hsub.
  eapply Z.le_trans; [exact Hsub|exact Hcap].
Qed.

Lemma engine_remove_agents_registries (dead : list string) (e : SimulatorEngine.t)
    (rt : Runtime.t) :
  registries_consistent e →
  registries_consistent (SimulatorEngine.remove_agents e rt dead).1
  ∧ SimulatorEngine.config (SimulatorEngine.remove_agents e rt dead).1
    = SimulatorEngine.config e.
Proof.
  unfold SimulatorEngine.remove_agents.
  revert e rt. induction dead as [|k dead IH]; intros e rt Hinv; cbn [fold_left]; [done|].
  destruct (engine_remove_agent_registries e rt k Hinv) as [H1 C1].
  destruct (SimulatorEngine.remove_agent e rt k) as [e1 rt1]. cbn [fst snd] in *.
  destruct (IH e1 rt1 H1) as [H2 C2]. split; [done|congruence].
Qed.

Lemma registries_consistent_set_world (e : SimulatorEngine.t) (w : World.t) :
  World.agents w = World.agents (SimulatorEngine.world e) →
  registries_consistent e → registries_consistent (SimulatorEngine.set_world w e).
Proof. intros Hw (Hsync & Hnd & Hcap). unfold registries_consistent. cbn. by rewrite Hw. Qed.

Section Registries.
Variables sqrt cos sin : Q → Q.

Lemma step_registries (e : SimulatorEngine.t) (rt : Runtime.t) :
  registries_consistent e →
  registries_consistent (outcome_state (SimulatorEngine.step sqrt cos sin e rt)).1
  ∧ SimulatorEngine.config (outcome_state (SimulatorEngine.step sqrt cos sin e rt)).1
    = SimulatorEngine.config e.
Proof.
  intros Hinv. unfold SimulatorEngine.step.
  destruct (SimulatorEngine.paused e); [done|].
  destruct (SimulatorEngine.run_callbacks "step_start" 0 _ rt) as [rt1 raised1].
  destruct raised1; [done|].
  set (dt := SimulationConfig.time_step (SimulatorEngine.config e)) in *.
  assert (∃ e2 rt2,
    (if SimulationConfig.enable_physics (SimulatorEngine.config e)
     then let '(w, rt, _) := World.update_physics sqrt (SimulatorEngine.world e) rt1 dt in
          (SimulatorEngine.set_world w e, rt)
     else (e, rt1)) = (e2, rt2)
    ∧ registries_consistent e2
    ∧ SimulatorEngine.config e2 = SimulatorEngine.config e) as (e2 & rt2 & -> & H2 & C2).
  { destruct (SimulationConfig.enable_physics (SimulatorEngine.config e)).
    - destruct (update_physics_frame sqrt (SimulatorEngine.world e) rt1 dt)
        as (_ & Ha & _).
      destruct (World.update_physics sqrt (SimulatorEngine.world e) rt1 dt) as [[w rtp] evs].
      cbn [fst snd] in *. eexists _, _. split; [done|].
      split; [by apply registries_consistent_set_world|done].
    - by exists e, rt1. }
  destruct (SimulatorEngine.update_agents sqrt e2 (SimulatorEngine.agents e2) rt2 [])
    as [[rt3 dead]|x [rt3 dead]]; [|done].
  destruct (engine_remove_agents_registries dead e2 rt3 H2) as [H4 C4].
  destruct (SimulatorEngine.remove_agents e2 rt3 dead) as [e4 rt4]. cbn [fst snd] in *.
  destruct (update_frame sqrt cos sin (SimulatorEngine.world e4) rt4 dt)
    as (_ & Ha & _).
  replace (SimulationConfig.time_step (SimulatorEngine.config e2)) with dt
    by (unfold dt; congruence).
  destruct (World.update sqrt cos sin (SimulatorEngine.world e4) rt4 dt) as [[w5 rt5] evs5].
  cbn [fst snd] in *.
  assert (registries_consistent
            (SimulatorEngine.set_clock (SimulatorEngine.current_step (SimulatorEngine.set_world w5 e4) + 1)
               (SimulatorEngine.simulation_time (SimulatorEngine.set_world w5 e4) + dt)
               (SimulatorEngine.set_world w5 e4))) as H5.
  { by apply (registries_consistent_set_world e4 w5) in H4. }
  destruct (SimulatorEngine.run_callbacks "step_end" 0 _ rt5) as [rt6 raised6].
  destruct raised6; cbn [outcome_state fst]; (split; [done|cbn; congruence]).
Qed.

(** X26. Whatever calls of [add_agent], [remove_agent] and [step] are made
    on a new engine, and whether they return or raise, the engine and its
    world register the same agents in the same order, each once, and at
    most [max_agents] of them; the configuration is the one given. *)
Theorem engine_registries_stay_consistent (config : SimulationConfig.t) (rt : Runtime.t)
    (calls : list EngineCall) :
  let s := perform_all sqrt cos sin config rt calls in
  SimulatorEngine.config s.1 = config
  ∧ SimulatorEngine.agents s.1 = World.agents (SimulatorEngine.world s.1)
  ∧ NoDup (SimulatorEngine.agents s.1)
  ∧ Z.of_nat (length (SimulatorEngine.agents s.1)) <= Z.max 0 (SimulationConfig.max_agents config).
Proof.
  unfold perform_all.
  assert (Hgen : ∀ cs s, registries_consistent s.1 →
    registries_consistent (fold_left (perform sqrt cos sin) cs s).1
    ∧ SimulatorEngine.config (fold_left (perform sqrt cos sin) cs s).1
      = SimulatorEngine.config s.1).
  { induction cs as [|c cs IH]; intros s Hs; cbn [fold_left]; [done|].
    assert (registries_consistent (perform sqrt cos sin s c).1
            ∧ SimulatorEngine.config (perform sqrt cos sin s c).1 = SimulatorEngine.config s.1)
      as [H1 C1].
    { destruct c as [a|id|]; cbn [perform].
      - by apply engine_add_agent_registries.
      - by apply engine_remove_agent_registries.
      - by apply step_registries. }
    destruct (IH _ H1) as [H2 C2]. split; [done|congruence]. }
  assert (Hinit : registries_consistent (SimulatorEngine.__init__ config rt).1
                  ∧ SimulatorEngine.config (SimulatorEngine.__init__ config rt).1 = config).
  { unfold SimulatorEngine.__init__.
    pose proof (world_init_agents (SimulationConfig.world_width config)
                  (SimulationConfig.world_height config) 50 rt) as Hw.
    destruct (World.__init__ _ _ _ rt) as [w rt0]. cbn [fst] in *.
    split; [|done]. unfold registries_consistent. cbn. rewrite Hw.
    split; [done|]. split; [apply NoDup_nil_2|lia]. }
  destruct Hinit as [Hi Ci]. destruct (Hgen calls _ Hi) as ((H1 & H2 & H3) & C).
  rewrite C, Ci in *. done.
Qed.
End Registries.

(** ** core/engine.py: run, stop, reset *)

Section Run.
Variables sqrt cos sin : Q → Q.

Lemma run_loop_terminates (fuel : nat) (e : SimulatorEngine.t) (rt : Runtime.t) :
  SimulatorEngine.running e = true →
  SimulatorEngine.paused e = false →
  callbacks_return (SimulatorEngine.step_start e) →
  callbacks_return (SimulatorEngine.step_end e) →
  sense_never_raises rt →
  updates_raise_exceptions_only rt →
  Z.max 0 (SimulationConfig.max_steps (SimulatorEngine.config e)
           - SimulatorEngine.current_step e) < Z.of_nat fuel →
  ∃ e' rt',
    SimulatorEngine.run_loop sqrt cos sin fuel e rt = Some (Returns (e', rt'))
    ∧ engine_controls e' = engine_controls e
    ∧ (SimulationConfig.max_steps (SimulatorEngine.config e) <= SimulatorEngine.current_step e'
       ∨ SimulatorEngine.agents e' = [])
    ∧ SimulatorEngine.current_step e <= SimulatorEngine.current_step e'
    ∧ SimulatorEngine.current_step e'
      <= Z.max (SimulatorEngine.current_step e)
           (SimulationConfig.max_steps (SimulatorEngine.config e)).
Proof.
  revert e rt.
  induction fuel as [|fuel IH]; intros e rt Hrun Hp Hs He Hsense Hupd Hfuel; [lia|].
  cbn [SimulatorEngine.run_loop]. rewrite Hrun. cbn [andb].
  destruct (Z.ltb_spec (SimulatorEngine.current_step e)
              (SimulationConfig.max_steps (SimulatorEngine.config e))) as [Hlt|Hge].
  - destruct (Z.ltb_spec 0 (Z.of_nat (length (SimulatorEngine.agents e)))) as [Hsome|Hnone].
    + cbn [andb].
      destruct (step_returns sqrt cos sin e rt Hs He Hsense Hupd) as [[e1 rt1] Hstep].
      rewrite Hstep.
      destruct (step_frame sqrt cos sin e rt e1 rt1 Hp Hstep) as (S1 & C1 & K1).
      assert (Hcfg : SimulatorEngine.config e1 = SimulatorEngine.config e)
        by (unfold engine_controls in S1; congruence).
      destruct (IH e1 rt1) as (e' & rt' & Hloop & S' & Hend & Hlo & Hhi).
      * unfold engine_controls in S1. congruence.
      * unfold engine_controls in S1. congruence.
      * unfold engine_controls in S1.
        replace (SimulatorEngine.step_start e1) with (SimulatorEngine.step_start e)
          by congruence. done.
      * unfold engine_controls in S1.
        replace (SimulatorEngine.step_end e1) with (SimulatorEngine.step_end e)
          by congruence. done.
      * by eapply sense_never_raises_kept.
      * by eapply updates_raise_exceptions_only_kept.
      * rewrite Hcfg, C1. lia.
      * exists e', rt'. rewrite Hcfg, C1 in *.
        split; [done|]. split; [congruence|]. split; [done|]. split; lia.
    + cbn [andb]. exists e, rt. split; [done|]. split; [done|].
      split; [|lia]. right. destruct (SimulatorEngine.agents e); [done|cbn in Hnone; lia].
  - cbn [andb]. exists e, rt. split; [done|]. split; [done|]. split; lia.
Qed.

(** X27. [run] on an engine that is neither running nor paused, none of
    whose callbacks and [sense] methods raises and whose [update] methods
    raise nothing but [Exception]s (and leave finite coordinates, as every
    state of the model has), returns once it is given as many iterations as
    there are steps left: the engine is then not running, its step counter
    has not gone back nor passed [max_steps], and either [max_steps] is
    reached or no agent is left. *)
Theorem run_terminates (fuel : nat) (e : SimulatorEngine.t) (rt : Runtime.t) :
  SimulatorEngine.running e = false →
  SimulatorEngine.paused e = false →
  callbacks_return (SimulatorEngine.simulation_start e) →
  callbacks_return (SimulatorEngine.step_start e) →
  callbacks_return (SimulatorEngine.step_end e) →
  callbacks_return (SimulatorEngine.simulation_end e) →
  sense_never_raises rt →
  updates_raise_exceptions_only rt →
  Z.max 0 (SimulationConfig.max_steps (SimulatorEngine.config e)
           - SimulatorEngine.current_step e) < Z.of_nat fuel →
  ∃ e' rt',
    SimulatorEngine.run sqrt cos sin fuel e rt = Some (Returns (e', rt'))
    ∧ SimulatorEngine.running e' = false
    ∧ (SimulationConfig.max_steps (SimulatorEngine.config e) <= SimulatorEngine.current_step e'
       ∨ SimulatorEngine.agents e' = [])
    ∧ SimulatorEngine.current_step e <= SimulatorEngine.current_step e'
    ∧ SimulatorEngine.current_step e'
      <= Z.max (SimulatorEngine.current_step e)
           (SimulationConfig.max_steps (SimulatorEngine.config e)).
Proof.
  intros Hrun Hp Hstart Hs He Hend Hsense Hupd Hfuel. unfold SimulatorEngine.run.
  rewrite Hrun.
  destruct (run_callbacks_spec "simulation_start" 0
              (SimulatorEngine.simulation_start (SimulatorEngine.set_running true e)) rt)
    as (_ & Os & Hok).
  destruct (SimulatorEngine.run_callbacks "simulation_start" 0 _ rt) as [rt1 raised1].
  cbn [fst snd] in *. rewrite (Hok Hstart).
  destruct (run_loop_terminates fuel (SimulatorEngine.set_running true e) rt1)
    as (e2 & rt2 & -> & S2 & Hdone & Hlo & Hhi); try done.
  { intros id a f Ha. rewrite Os in Ha. by eapply Hsense. }
  { intros id a Ha. rewrite Os in Ha. by eapply Hupd. }
  unfold SimulatorEngine.stop.
  destruct (run_callbacks_spec "simulation_end" 0
              (SimulatorEngine.simulation_end (SimulatorEngine.set_running false e2)) rt2)
    as (_ & _ & Hok2).
  destruct (SimulatorEngine.run_callbacks "simulation_end" 0 _ rt2) as [rt3 raised3].
  cbn [fst snd] in *. rewrite Hok2.
  - eexists _, _. split; [done|]. cbn in *. done.
  - unfold engine_controls in S2. cbn in *.
    replace (SimulatorEngine.simulation_end e2) with (SimulatorEngine.simulation_end e)
      by congruence. done.
Qed.

(** X28. [run] on a paused engine that holds an agent and has steps left
    never returns, there being no other thread to resume or stop it: every
    tick returns at once, so the condition of the loop stays true whatever
    the number of iterations. *)
Theorem run_of_paused_engine_never_returns (e : SimulatorEngine.t) (rt : Runtime.t) :
  SimulatorEngine.running e = false →
  SimulatorEngine.paused e = true →
  callbacks_return (SimulatorEngine.simulation_start e) →
  SimulatorEngine.current_step e < SimulationConfig.max_steps (SimulatorEngine.config e) →
  SimulatorEngine.agents e ≠ [] →
  ∀ fuel, SimulatorEngine.run sqrt cos sin fuel e rt = None.
Proof.
  intros Hrun Hp Hstart Hlt Hne fuel. unfold SimulatorEngine.run. rewrite Hrun.
  destruct (run_callbacks_spec "simulation_start" 0
              (SimulatorEngine.simulation_start (SimulatorEngine.set_running true e)) rt)
    as (_ & _ & Hok).
  destruct (SimulatorEngine.run_callbacks "simulation_start" 0 _ rt) as [rt1 raised1].
  cbn [fst snd] in *. rewrite (Hok Hstart).
  assert (Hloop : SimulatorEngine.run_loop sqrt cos sin fuel
                    (SimulatorEngine.set_running true e) rt1 = None); [|by rewrite Hloop].
  induction fuel as [|fuel IH]; [done|].
  cbn [SimulatorEngine.run_loop]. cbn [SimulatorEngine.running SimulatorEngine.set_running
    SimulatorEngine.current_step SimulatorEngine.config SimulatorEngine.agents andb].
  rewrite (proj2 (Z.ltb_lt _ _) Hlt). cbn [andb].
  destruct (SimulatorEngine.agents e) as [|k ks] eqn:Ha; [done|].
  cbn [length]. rewrite (proj2 (Z.ltb_lt 0 (Z.of_nat (S (length ks))))) by lia.
  unfold SimulatorEngine.step. cbn [SimulatorEngine.paused SimulatorEngine.set_running].
  rewrite Hp. exact IH.
Qed.

(** X29. When a simulation-start callback raises, [run] raises before its
    [try] block: [stop] is not called, the engine is left marked as
    running, and a later [run] returns at once without a tick. *)
Theorem run_start_failure_leaves_engine_running (fuel : nat) (e : SimulatorEngine.t)
    (rt : Runtime.t) :
  SimulatorEngine.running e = false →
  ¬ callbacks_return (SimulatorEngine.simulation_start e) →
  ∃ x e' rt',
    SimulatorEngine.run sqrt cos sin fuel e rt = Some (Raises x (e', rt'))
    ∧ SimulatorEngine.running e' = true
    ∧ SimulatorEngine.current_step e' = SimulatorEngine.current_step e
    ∧ Forall (λ c, is_callback c = true) (calls_since rt rt')
    ∧ ∀ fuel' rt'', SimulatorEngine.run sqrt cos sin fuel' e' rt'' = Some (Returns (e', rt'')).
Proof.
  intros Hrun Hraise. unfold SimulatorEngine.run at 1. rewrite Hrun.
  pose proof (run_callbacks_raises "simulation_start" 0
                (SimulatorEngine.simulation_start (SimulatorEngine.set_running true e)) rt Hraise)
    as Hok.
  destruct (run_callbacks_spec "simulation_start" 0
              (SimulatorEngine.simulation_start (SimulatorEngine.set_running true e)) rt)
    as ((new & Hnew & Hall) & _ & _).
  destruct (SimulatorEngine.run_callbacks "simulation_start" 0 _ rt) as [rt1 raised1].
  cbn [fst snd] in *. destruct Hok as [x ->].
  eexists _, _, _. split; [done|]. split; [done|]. split; [done|]. split.
  - by rewrite (calls_since_app rt rt1 new Hnew).
  - intros fuel' rt''. reflexivity.
Qed.

(** X30. [reset], when no simulation-end callback raises: the engine and
    the world hold no agent, the grid is empty, the clock and the step
    counter are back at zero and the history is empty; the subscriptions,
    the pause flag and the physics engine with its pending forces are those
    from before, and the agent objects are untouched. *)
Theorem reset_keeps_subscriptions_and_forces (e : SimulatorEngine.t) (rt : Runtime.t) :
  callbacks_return (SimulatorEngine.simulation_end e) →
  ∃ e' rt',
    SimulatorEngine.reset e rt = Returns (e', rt')
    ∧ SimulatorEngine.agents e' = []
    ∧ World.agents (SimulatorEngine.world e') = []
    ∧ World.get_statistics_agents (SimulatorEngine.world e') = (0, 0, 0)
    ∧ (SpatialGrid.get_stats (World.spatial_grid (SimulatorEngine.world e'))).1 = (0%nat, 0%nat)
    ∧ SimulatorEngine.current_step e' = 0
    ∧ World.time (SimulatorEngine.world e') = 0%Q
    ∧ EventManager.get_event_history (SimulatorEngine.event_manager e') None = []
    ∧ SimulatorEngine.running e' = false
    ∧ SimulatorEngine.paused e' = SimulatorEngine.paused e
    ∧ EventManager._handlers (SimulatorEngine.event_manager e')
      = EventManager._handlers (SimulatorEngine.event_manager e)
    ∧ World.physics (SimulatorEngine.world e') = World.physics (SimulatorEngine.world e)
    ∧ Runtime.objects rt' = Runtime.objects rt.
Proof.
  intros Hend. unfold SimulatorEngine.reset, SimulatorEngine.stop.
  destruct (run_callbacks_spec "simulation_end" 0
              (SimulatorEngine.simulation_end (SimulatorEngine.set_running false e)) rt)
    as (_ & Os & Hok).
  destruct (SimulatorEngine.run_callbacks "simulation_end" 0 _ rt) as [rt1 raised1].
  cbn [fst snd] in *. rewrite (Hok Hend).
  unfold World.reset, World._initialize_environment.
  destruct (World.add_obstacles _ _ _ _ _) as [fs g].
  destruct (World.add_resources _ _ _ _ _) as [fs' g'].
  eexists _, _. split; [done|]. cbn. repeat (split; [done|]). done.
Qed.
End Run.

Lemma run_terminates_witness :
  let config := SimulationConfig.mk (1 # 10) 3 false true false 10 100 100 None in
  let e := engine_with config empty_runtime [make_agent "a" 50 50 0 0] in
  ∃ e' rt',
    SimulatorEngine.run Qsqrt Qcos Qsin 4 e.1 e.2 = Some (Returns (e', rt'))
    ∧ SimulatorEngine.running e' = false
    ∧ (3 <= SimulatorEngine.current_step e' ∨ SimulatorEngine.agents e' = []).
Proof.
  intros config e.
  destruct (run_terminates Qsqrt Qcos Qsin 4 e.1 e.2) as (e' & rt' & Hrun & Hstop & Hend & _).
  - vm_compute. reflexivity.
  - vm_compute. reflexivity.
  - vm_compute. constructor.
  - vm_compute. constructor.
  - vm_compute. constructor.
  - vm_compute. constructor.
  - apply sense_never_raises_inherited. decide_by_computation.
  - eapply updates_raise_exceptions_only_listed; [vm_compute; reflexivity|].
    apply List.Forall_cons; [|apply List.Forall_nil].
    intros dt obs s x s' Hraise. discriminate Hraise.
  - vm_compute. reflexivity.
  - exists e', rt'. split; [exact Hrun|]. split; [exact Hstop|exact Hend].
Defined.

Lemma run_of_paused_engine_never_returns_witness :
  let e := engine_with small_config empty_runtime [make_agent "a" 50 50 0 0] in
  SimulatorEngine.run Qsqrt Qcos Qsin 5 (SimulatorEngine.pause e.1) e.2 = None.
Proof.
  intros e.
  apply (run_of_paused_engine_never_returns Qsqrt Qcos Qsin (SimulatorEngine.pause e.1) e.2).
  - vm_compute. reflexivity.
  - vm_compute. reflexivity.
  - vm_compute. constructor.
  - vm_compute. reflexivity.
  - vm_compute. discriminate.
Defined.

Lemma run_start_failure_leaves_engine_running_witness :
  let e := engine_with small_config empty_runtime [make_agent "a" 50 50 0 0] in
  let e0 := SimulatorEngine.add_callback e.1 "simulation_start" (CallbackRaises Exception) in
  ∃ x e' rt',
    SimulatorEngine.run Qsqrt Qcos Qsin 5 e0 e.2 = Some (Raises x (e', rt'))
    ∧ SimulatorEngine.running e' = true
    ∧ SimulatorEngine.run Qsqrt Qcos Qsin 5 e' rt' = Some (Returns (e', rt')).
Proof.
  intros e e0.
  destruct (run_start_failure_leaves_engine_running Qsqrt Qcos Qsin 5 e0 e.2)
    as (x & e' & rt' & Hrun & Hflag & _ & _ & Hagain).
  - vm_compute. reflexivity.
  - intros Hall. vm_compute in Hall. inversion Hall as [|? ? Hcb _]. discriminate Hcb.
  - exists x, e', rt'. split; [exact Hrun|]. split; [exact Hflag|apply Hagain].
Defined.

Lemma reset_keeps_subscriptions_and_forces_witness :
  let e := engine_with small_config empty_runtime
             [make_agent "a" 50 50 0 0; make_agent "b" 10 10 0 0] in
  ∃ e' rt',
    SimulatorEngine.reset e.1 e.2 = Returns (e', rt')
    ∧ SimulatorEngine.agents e' = []
    ∧ EventManager._handlers (SimulatorEngine.event_manager e') !! AGENT_SPAWN
      = Some ["a"; "b"]%string.
Proof.
  intros e.
  destruct (reset_keeps_subscriptions_and_forces e.1 e.2)
    as (e' & rt' & Hreset & Hagents & _ & _ & _ & _ & _ & _ & _ & _ & Hsubs & _).
  - vm_compute. constructor.
  - exists e', rt'. split; [exact Hreset|]. split; [exact Hagents|].
    rewrite Hsubs. vm_compute. reflexivity.
Defined.

(** What [run] does with an exception of the loop, on an engine holding
    one agent whose [update] raises it: a [KeyboardInterrupt] is dropped,
    and [run] returns after [stop] with no step made and the agent still
    registered; a [SystemExit] reaches the caller, after [stop]; an
    [Exception] is caught by [step], the agent is removed and the loop
    ends for want of agents. *)
Lemma run_and_the_exceptions_of_update :
  let engine x := engine_with small_config empty_runtime [interrupted_agent "a" x] in
  (∃ e' rt', SimulatorEngine.run Qsqrt Qcos Qsin 3 (engine KeyboardInterrupt).1
               (engine KeyboardInterrupt).2 = Some (Returns (e', rt'))
             ∧ SimulatorEngine.running e' = false
             ∧ SimulatorEngine.current_step e' = 0
             ∧ SimulatorEngine.agents e' = ["a"%string])
  ∧ (∃ e' rt', SimulatorEngine.run Qsqrt Qcos Qsin 3 (engine SystemExit).1
                 (engine SystemExit).2 = Some (Raises SystemExit (e', rt'))
               ∧ SimulatorEngine.running e' = false
               ∧ SimulatorEngine.current_step e' = 0)
  ∧ (∃ e' rt', SimulatorEngine.run Qsqrt Qcos Qsin 3 (engine Exception).1
                 (engine Exception).2 = Some (Returns (e', rt'))
               ∧ SimulatorEngine.current_step e' = 1
               ∧ SimulatorEngine.agents e' = []).
Proof.
  intros engine. split; [|split].
  - eexists _, _. split; [vm_compute; reflexivity|]. split; [|split]; vm_compute; reflexivity.
  - eexists _, _. split; [vm_compute; reflexivity|]. split; vm_compute; reflexivity.
  - eexists _, _. split; [vm_compute; reflexivity|]. split; vm_compute; reflexivity.
Qed.
